(** * The arbitrage scan/execute engine ([src/arbitrage/engine.ts])

    A shallow embedding of [ArbitrageEngine]: the engine's two fields, the
    collaborators it is constructed with, and its methods [start], [stop],
    [scanOnce], [getOrderBookTopSafe], [handleOpportunity] and
    [logDecision].  The methods are written as asynchronous code, with
    every [await] of the source marked; the code is given two readings:
    [alone], the run of one call that no other call of the same engine
    interrupts, and [interleave], where several calls take turns at their
    [await]s.  Every run records, in order, the log lines, collaborator
    calls and writes to [activeTrades] it performs.  The order-book fan-out
    of a scan is a transition system over the limiter's permits and the
    tasks of the markets, driven by the order in which the event loop
    settles the fetches.

    The first part holds the model, the vocabulary of the properties and the
    collaborators of the scenarios; the second part the proofs. *)

From Stdlib Require Import ZArith QArith Bool List String Sorted Permutation Lia.
From stdpp Require Import base list.
Import ListNotations.
Local Open Scope Z_scope.
Local Open Scope string_scope.
Local Open Scope list_scope.

(** ** Data model *)

(** JavaScript numbers that carry prices, sizes and profits: NaN, the two
    infinities, and the finite values, taken as exact rationals.  The engine
    copies them, subtracts two of them inside the sort comparator and looks
    at the sign of the difference; on finite doubles the sign of the
    rounded difference is the sign of the exact one.  Counters and epoch
    milliseconds are integers. *)
Inductive number : Type :=
| NaN
| NegInfinity
| Finite (q : Q)
| PosInfinity.

Coercion Finite : Q >-> number.

(** [a - b] *)
Definition minus (a b : number) : number :=
  match a, b with
  | NaN, _ | _, NaN => NaN
  | PosInfinity, PosInfinity => NaN
  | NegInfinity, NegInfinity => NaN
  | PosInfinity, _ => PosInfinity
  | NegInfinity, _ => NegInfinity
  | Finite _, PosInfinity => NegInfinity
  | Finite _, NegInfinity => PosInfinity
  | Finite p, Finite q => Finite (p - q)
  end.

(** [v > 0], which is false of NaN. *)
Definition positive (v : number) : bool :=
  match v with
  | PosInfinity => true
  | Finite q => negb (Qle_bool q 0)
  | _ => false
  end.

Definition isNaN (v : number) : bool :=
  match v with NaN => true | _ => false end.

Module Market.
Record t : Type := mk
  { marketId : string; yesTokenId : string; noTokenId : string }.
End Market.

Record OrderBookTop : Type := mkTop { bestAsk : number; bestBid : number }.

(** [{ ...market, yesTop, noTop }] *)
Record MarketSnapshot : Type := mkSnapshot
  { market : Market.t; yesTop : OrderBookTop; noTop : OrderBookTop }.

Module Opportunity.
Record t : Type := mk
  { marketId : string; yesTokenId : string; noTokenId : string;
    yesAsk : number; noAsk : number; edgeBps : number;
    estProfitUsd : number; sizeUsd : number;
    liquidityUsd : number; spreadBps : number }.
End Opportunity.

(** The [plan] object literal built in [handleOpportunity]. *)
Module Plan.
Record t : Type := mk
  { marketId : string; yesTokenId : string; noTokenId : string;
    yesAsk : number; noAsk : number; sizeUsd : number;
    edgeBps : number; estProfitUsd : number }.
End Plan.

(** What [riskManager.canExecute] and [ensureGasBalance] return. *)
Record RiskDecision : Type := mkDecision
  { allowed : bool; decision_reason : option string }.
Record GasCheck : Type := mkGas { ok : bool }.

(** What [executor.execute] returns: [{status, reason?, txHashes?}]. *)
Record ExecutionResult : Type := mkResult
  { status : string; reason : option string; txHashes : option (list string) }.

(** The object handed to [decisionLogger.append].  [ts] holds the instant
    passed to [new Date(now)]; its ISO-8601 rendering is not modelled. *)
Module DecisionRecord.
Record t : Type := mk
  { ts : Z; market_id : string; yes_ask : number; no_ask : number;
    edge_bps : number; liquidity : number; spread_bps : number;
    est_profit_usd : number; action : string; reason : string;
    planned_size : option number; tx_hash : option string;
    status : string }.
End DecisionRecord.

(** The fields of [ArbConfig] the engine reads.  [scanIntervalMs] only sets
    the length of the pause between two scans. *)
Record ArbConfig : Type := mkConfig
  { scanIntervalMs : Z; maxConcurrentTrades : Z }.

(** ** Exceptions and promise outcomes *)

(** A thrown value, as far as the engine distinguishes them:
    [error instanceof OrderbookNotFoundError], [err instanceof Error]
    (with its [message]) or anything else (with its [String(err)]). *)
Inductive Thrown : Type :=
| OrderbookNotFoundError (message : string)
| OtherError (message : string)
| NonError (rendering : string).

Definition isOrderbookNotFound (e : Thrown) : bool :=
  match e with OrderbookNotFoundError _ => true | _ => false end.

(** [err instanceof Error ? err.message : String(err)] *)
Definition errorMessage (e : Thrown) : string :=
  match e with
  | OrderbookNotFoundError m => m
  | OtherError m => m
  | NonError s => s
  end.

(** A call either returns (a promise resolves) or throws (it rejects).
    Collaborator calls that never settle are outside the model. *)
Inductive Outcome (A : Type) : Type :=
| Resolved (a : A)
| Rejected (e : Thrown).
Arguments Resolved {A} a.
Arguments Rejected {A} e.

(** ** Observable events *)

Inductive Level : Type := INFO | WARN.

(** The engine's log lines, by template, with the values interpolated. *)
Inductive LogLine : Type :=
| EngineStarted
| ScanComplete0 (markets orderbook_failures markets_with_missing_orderbooks : Z)
| Found (count : Z) (top : Opportunity.t)
        (orderbook_failures markets_with_missing_orderbooks : Z)
| ScanError (message : string)
| InvalidOrderbookToken (tokenId marketId : string)
| Skip (o : Opportunity.t) (reason : string).

Inductive Event : Type :=
| Log (lvl : Level) (line : LogLine)
| GetActiveMarkets
| GetOrderBookTop (tokenId : string)
| FindOpportunities (snapshots : list MarketSnapshot) (now : Z)
| CanExecute (o : Opportunity.t) (now : Z)
| EnsureGasBalance (now : Z)
| OnTradeSubmitted (o : Opportunity.t) (now : Z)
| Execute (plan : Plan.t) (now : Z)
| OnTradeSuccess (o : Opportunity.t) (now : Z)
| OnTradeFailure (o : Opportunity.t) (now : Z) (reason : string)
| Append (record : DecisionRecord.t)
| ActiveTrades (value : Z)    (* a write [this.activeTrades = value] *)
| Detached (markets : list Market.t).
    (* [Promise.all] rejected while the tasks of these markets were still
       pending: nothing cancels them, they go on in the background *)

(** ** Collaborators *)

(** One turn of the event loop during the order-book fan-out: the limiter
    admits the task of market [i], the fetch that task [i] is waiting for
    settles, or the scan that awaits [Promise.all] resumes. *)
Inductive Turn : Type :=
| Admit (i : nat)
| Settle (i : nat)
| Resume.

(** The provider, strategy, risk manager, executor and decision logger are
    supplied at construction.  Each call may read and change the
    collaborators' own state [W] and may throw.  Reading one token's order
    book is a query: it does not change [W].  [eventLoop] is not a method of
    any collaborator: it stands for what the engine does not control during
    a fan-out, the order in which the provider's answers arrive and in which
    the limiter serves its waiters.  The logger is taken not to throw. *)
Record Collaborators (W : Type) : Type := mkCollaborators
  { getActiveMarkets : W -> Outcome (list Market.t) * W;
    getOrderBookTop : string -> W -> Outcome OrderBookTop;
    findOpportunities :
      list MarketSnapshot -> Z -> W -> Outcome (list Opportunity.t) * W;
    canExecute : Opportunity.t -> Z -> W -> Outcome RiskDecision * W;
    ensureGasBalance : Z -> W -> Outcome GasCheck * W;
    onTradeSubmitted : Opportunity.t -> Z -> W -> Outcome unit * W;
    execute : Plan.t -> Z -> W -> Outcome ExecutionResult * W;
    onTradeSuccess : Opportunity.t -> Z -> W -> Outcome unit * W;
    onTradeFailure : Opportunity.t -> Z -> string -> W -> Outcome unit * W;
    decisionLogger : option (DecisionRecord.t -> W -> Outcome unit * W);
    eventLoop : list Market.t -> W -> list Turn }.
Arguments getActiveMarkets {W}.
Arguments getOrderBookTop {W}.
Arguments findOpportunities {W}.
Arguments canExecute {W}.
Arguments ensureGasBalance {W}.
Arguments onTradeSubmitted {W}.
Arguments execute {W}.
Arguments onTradeSuccess {W}.
Arguments onTradeFailure {W}.
Arguments decisionLogger {W}.
Arguments eventLoop {W}.

(** ** Engine state and synchronous code *)

(** [private running = false; private activeTrades = 0;] together with the
    state of the collaborators. *)
Record Engine (W : Type) : Type := mkEngine
  { running : bool; activeTrades : Z; world : W }.
Arguments mkEngine {W}.
Arguments running {W}.
Arguments activeTrades {W}.
Arguments world {W}.

Definition newEngine {W} (w : W) : Engine W :=
  {| running := false; activeTrades := 0; world := w |}.

(** The result of running a piece of engine code from some state: how it
    ended, the state it left, and what it did, oldest event first. *)
Record Run (W A : Type) : Type := mkRun
  { outcome : Outcome A; final : Engine W; events : list Event }.
Arguments mkRun {W A}.
Arguments outcome {W A}.
Arguments final {W A}.
Arguments events {W A}.

(** Code that runs from a state to its end without giving up control. *)
Definition M (W A : Type) : Type := Engine W -> Run W A.

Definition ret {W A} (a : A) : M W A :=
  fun st => mkRun (Resolved a) st [].

Definition throw {W A} (e : Thrown) : M W A :=
  fun st => mkRun (Rejected e) st [].

Definition bind {W A B} (m : M W A) (k : A -> M W B) : M W B :=
  fun st =>
    match m st with
    | mkRun (Resolved a) st' evs =>
        match k a st' with
        | mkRun o st'' evs' => mkRun o st'' (evs ++ evs')
        end
    | mkRun (Rejected e) st' evs => mkRun (Rejected e) st' evs
    end.

(** [try { body } catch (err) { handler(err) }] *)
Definition tryCatch {W A} (body : M W A) (handler : Thrown -> M W A) : M W A :=
  fun st =>
    match body st with
    | mkRun (Resolved a) st' evs => mkRun (Resolved a) st' evs
    | mkRun (Rejected e) st' evs =>
        match handler e st' with
        | mkRun o st'' evs' => mkRun o st'' (evs ++ evs')
        end
    end.

Definition emit {W} (ev : Event) : M W unit :=
  fun st => mkRun (Resolved tt) st [ev].

Definition info {W} (line : LogLine) : M W unit := emit (Log INFO line).
Definition warn {W} (line : LogLine) : M W unit := emit (Log WARN line).

(** A collaborator call that may change the collaborators' state. *)
Definition withWorld {W} (st : Engine W) (w : W) : Engine W :=
  {| running := running st; activeTrades := activeTrades st; world := w |}.

Definition call {W A} (ev : Event) (f : W -> Outcome A * W) : M W A :=
  fun st => let '(r, w) := f (world st) in mkRun r (withWorld st w) [ev].

(** A collaborator call that only reads. *)
Definition query {W A} (ev : Event) (f : W -> Outcome A) : M W A :=
  fun st => mkRun (f (world st)) st [ev].

Definition readActiveTrades {W} : M W Z :=
  fun st => mkRun (Resolved (activeTrades st)) st [].

Definition writeActiveTrades {W} (n : Z) : M W unit :=
  fun st =>
    mkRun (Resolved tt)
      {| running := running st; activeTrades := n; world := world st |}
      [ActiveTrades n].

Definition readRunning {W} : M W bool :=
  fun st => mkRun (Resolved (running st)) st [].

Definition setRunning {W} (b : bool) : M W unit :=
  fun st =>
    mkRun (Resolved tt)
      {| running := b; activeTrades := activeTrades st; world := world st |} [].

(** ** Asynchronous code *)

(** The body of an [async] method: synchronous steps ([Do]), sequencing,
    [try]/[catch], and [await], the only place where the method gives up
    control and another call of the engine may run. *)
Inductive Code (W : Type) : Type -> Type :=
| Ret {A} (a : A) : Code W A
| Throw {A} (e : Thrown) : Code W A
| Do {A} (m : M W A) : Code W A
| Await {A} (c : Code W A) : Code W A
| Bind {A B} (c : Code W A) (k : A -> Code W B) : Code W B
| TryCatch {A} (body : Code W A) (handler : Thrown -> Code W A) : Code W A.
Arguments Ret {W A} a.
Arguments Throw {W A} e.
Arguments Do {W A} m.
Arguments Await {W A} c.
Arguments Bind {W A B} c k.
Arguments TryCatch {W A} body handler.

Notation "'let*' x ':=' c 'in' k" := (Bind c (fun x => k))
  (at level 10, x name, c at level 100, k at level 200).
Notation "c ';;;' k" := (Bind c (fun _ => k))
  (at level 100, k at level 200, right associativity).
Notation "'await' c" := (Await c) (at level 10, c at level 9).

(** The run of a call that nothing interrupts: every [await] is followed at
    once by the continuation. *)
Fixpoint alone {W A} (c : Code W A) {struct c} : M W A :=
  match c in Code _ A return M W A with
  | Ret a => ret a
  | Throw e => throw e
  | Do m => m
  | Await c => alone c
  | Bind c k => bind (alone c) (fun a => alone (k a))
  | TryCatch body handler => tryCatch (alone body) (fun e => alone (handler e))
  end.

(** Where a call stands once it has given up control. *)
Inductive Progress (W A : Type) : Type :=
| Settled (o : Outcome A)
| Suspended (c : Code W A).
Arguments Settled {W A} o.
Arguments Suspended {W A} c.

(** The promise awaited has settled: the value to resume with. *)
Definition settled {W A} (o : Outcome A) : Code W A :=
  match o with
  | Resolved a => Ret a
  | Rejected e => Throw e
  end.

(** A call runs up to its next [await]: the awaited call is made, and the
    caller is suspended until its result is delivered. *)
Fixpoint advance {W A} (c : Code W A) (st : Engine W) {struct c}
    : Engine W * list Event * Progress W A :=
  match c in Code _ A return Engine W * list Event * Progress W A with
  | Ret a => (st, [], Settled (Resolved a))
  | Throw e => (st, [], Settled (Rejected e))
  | Do m => (final (m st), events (m st), Settled (outcome (m st)))
  | Await c =>
      match advance c st with
      | (st', evs, Settled o) => (st', evs, Suspended (settled o))
      | (st', evs, Suspended c') => (st', evs, Suspended (Await c'))
      end
  | Bind c k =>
      match advance c st with
      | (st', evs, Settled (Resolved a)) =>
          match advance (k a) st' with
          | (st'', evs', p) => (st'', evs ++ evs', p)
          end
      | (st', evs, Settled (Rejected e)) => (st', evs, Settled (Rejected e))
      | (st', evs, Suspended c') => (st', evs, Suspended (Bind c' k))
      end
  | TryCatch body handler =>
      match advance body st with
      | (st', evs, Settled (Resolved a)) => (st', evs, Settled (Resolved a))
      | (st', evs, Settled (Rejected e)) =>
          match advance (handler e) st' with
          | (st'', evs', p) => (st'', evs ++ evs', p)
          end
      | (st', evs, Suspended body') => (st', evs, Suspended (TryCatch body' handler))
      end
  end.

(** Several calls made on one engine: the state they share, where each call
    stands, and what has happened so far. *)
Record Calls (W : Type) : Type := mkCalls
  { shared : Engine W; standing : list (Progress W unit); history : list Event }.
Arguments mkCalls {W}.
Arguments shared {W}.
Arguments standing {W}.
Arguments history {W}.

(** The event loop gives call [i] its turn: the call runs up to its next
    [await].  A call that has settled has nothing left to do. *)
Definition turnOf {W} (i : nat) (p : Calls W) : Calls W :=
  match standing p !! i with
  | Some (Suspended c) =>
      match advance c (shared p) with
      | (st', evs, r) =>
          {| shared := st'; standing := <[i := r]> (standing p);
             history := history p ++ evs |}
      end
  | _ => p
  end.

(** The calls [calls] are made on an engine in state [st], and resumed in
    the order [turns]. *)
Definition interleave {W} (turns : list nat) (calls : list (Code W unit))
    (st : Engine W) : Calls W :=
  fold_left (fun p i => turnOf i p) turns
    {| shared := st; standing := map Suspended calls; history := [] |}.

(** ** The concurrency limiter *)

(** [this.orderbookLimiter = new Semaphore(6)] *)
Definition orderbookLimiterPermits : nat := 6.

Module Limiter.

Local Open Scope nat_scope.

(** How one order-book fetch settles, as the task body sees it through
    [getOrderBookTopSafe]: a top, the not-found error (turned into the
    sentinel), or another error (rethrown). *)
Inductive Settlement : Type := Top | NotFound | Failure.

(** Where the task of one market stands.  The task body is the source's:
    the YES fetch, then the NO fetch, each awaited. *)
Inductive Task : Type :=
| Waiting          (* [limiter.with] called, no permit yet *)
| FetchingYes      (* holds a permit; the YES fetch is in flight *)
| FetchingNo       (* holds a permit; the NO fetch is in flight *)
| Fulfilled        (* the body returned its snapshot; permit given back *)
| Failed.          (* the body threw; permit given back *)

(** Modelled from the spec: the state of the [Semaphore] ([utils/limiter],
    not among the sources) together with the tasks handed to it: the number
    of free permits, out of the N fixed at construction, and where every
    task stands. *)
Record Fanout : Type := mkFanout { permits : nat; tasks : list Task }.

Inductive Action : Type :=
| Grant (i : nat)                       (* task [i] acquires a permit *)
| YesSettles (i : nat) (s : Settlement) (* the YES fetch of task [i] settles *)
| NoSettles (i : nat) (s : Settlement). (* the NO fetch of task [i] settles *)

Definition taskAfter (s : Settlement) (next : Task) : Task :=
  match s with
  | Top | NotFound => next
  | Failure => Failed
  end.

(** Modelled from the spec: [Semaphore.with] ([utils/limiter], not among the
    sources).  [with(operation)] acquires one of the N permits, callers
    beyond N waiting until a permit frees, runs [operation], and releases the
    permit on both the success and the failure path.  Which waiting task is
    served next, and which fetch settles next, is left to the schedule; an
    action that is not enabled yields [None]. *)
Definition step (a : Action) (f : Fanout) : option Fanout :=
  match a with
  | Grant i =>
      match tasks f !! i, permits f with
      | Some Waiting, S p =>
          Some {| permits := p; tasks := <[i := FetchingYes]> (tasks f) |}
      | _, _ => None
      end
  | YesSettles i s =>
      match tasks f !! i with
      | Some FetchingYes =>
          Some {| permits := match s with
                             | Failure => S (permits f)
                             | _ => permits f
                             end;
                  tasks := <[i := taskAfter s FetchingNo]> (tasks f) |}
      | _ => None
      end
  | NoSettles i s =>
      match tasks f !! i with
      | Some FetchingNo =>
          Some {| permits := S (permits f);
                  tasks := <[i := taskAfter s Fulfilled]> (tasks f) |}
      | _ => None
      end
  end.

Fixpoint run (schedule : list Action) (f : Fanout) : option Fanout :=
  match schedule with
  | [] => Some f
  | a :: later =>
      match step a f with
      | Some f' => run later f'
      | None => None
      end
  end.

(** [markets.map(market => limiter.with(...))]: one task per market, all
    created at once, against a limiter with all its permits free. *)
Definition fanOut (markets : nat) : Fanout :=
  {| permits := orderbookLimiterPermits; tasks := replicate markets Waiting |}.

(** A task that holds a permit has exactly one fetch in flight. *)
Definition holding (t : Task) : nat :=
  match t with
  | FetchingYes | FetchingNo => 1
  | _ => 0
  end.

Definition inFlight (ts : list Task) : nat :=
  fold_right (fun t n => holding t + n) 0 ts.

Definition settled (t : Task) : Prop := t = Fulfilled \/ t = Failed.

(** Free permits and permits in use always add up to the capacity. *)
Definition balanced (f : Fanout) : Prop :=
  permits f + inFlight (tasks f) = orderbookLimiterPermits.

(** Eight markets: six tasks are granted a permit, the seventh has to wait;
    task 0 fails on its YES side, task 1 completes, each frees a permit for
    a waiting task, and so on until every task has settled. *)
Definition eightMarkets : list Action :=
  [Grant 0; Grant 1; Grant 2; Grant 3; Grant 4; Grant 5;
   YesSettles 0 Failure; Grant 6;
   YesSettles 1 Top; NoSettles 1 NotFound; Grant 7;
   YesSettles 2 NotFound; NoSettles 2 Failure;
   YesSettles 3 Top; NoSettles 3 Top; YesSettles 4 Top; NoSettles 4 Top;
   YesSettles 5 Top; NoSettles 5 Top; YesSettles 6 Top; NoSettles 6 Top;
   YesSettles 7 Top; NoSettles 7 Top].

End Limiter.


(** ** The engine *)

Coercion Do : M >-> Code.

Record FetchResult : Type := mkFetch { top : OrderBookTop; failed : bool }.

Definition zeroTop : OrderBookTop := {| bestAsk := 0%Q; bestBid := 0%Q |}.

(** The two counters local to one [scanOnce]. *)
Record Counters : Type := mkCounters
  { orderbookFailures : Z; marketsWithOrderbookFailures : Z }.

(** [new Date(now).toISOString()] throws a [RangeError] unless [now] is a
    time value, at most 8.64e15 ms away from the epoch.  Instants are
    integral, as [Date.now()] gives them. *)
Definition maxTimeValue : Z := 8640000000000000.

Definition isTimeValue (now : Z) : bool :=
  ((- maxTimeValue <=? now) && (now <=? maxTimeValue))%Z.

(** What a call does before it first gives up control, and what it does
    once it is resumed and no longer interrupted. *)
Definition requested {W A} (c : Code W A) (st : Engine W) : list Event :=
  snd (fst (advance c st)).

Definition answered {W A} (c : Code W A) (st : Engine W) : Run W A :=
  match advance c st with
  | (st', _, Suspended c') => alone c' st'
  | (st', _, Settled o) => mkRun o st' []
  end.

(** The order-book fan-out of one scan: the limiter with the tasks handed
    to it, the [yesResult] of every task that has got that far, the
    snapshot returned by every task that has returned, the two counters the
    tasks update, and the first rejection, which is what [Promise.all]
    rejects with. *)
Record FanOut : Type := mkFanOut
  { limiter : Limiter.Fanout;
    yesResults : list (option FetchResult);
    snapshots : list (option MarketSnapshot);
    counters : Counters;
    rejection : option Thrown }.

(** How the limiter sees a fetch settle. *)
Definition settlementOf (r : Outcome FetchResult) : Limiter.Settlement :=
  match r with
  | Resolved x => if failed x then Limiter.NotFound else Limiter.Top
  | Rejected _ => Limiter.Failure
  end.

(** [Promise.all] keeps the first rejection. *)
Definition firstRejection (r : option Thrown) (e : Thrown) : option Thrown :=
  match r with
  | Some e0 => Some e0
  | None => Some e
  end.

(** The end of the task body, once both fetches have returned:
    [if (hasFailure) marketsWithOrderbookFailures += 1;
     orderbookFailures += (yesResult.failed ? 1 : 0) + (noResult.failed ? 1 : 0);] *)
Definition tally (yesResult noResult : FetchResult) (c : Counters) : Counters :=
  let hasFailure := failed yesResult || failed noResult in
  let c1 :=
    if hasFailure
    then {| orderbookFailures := orderbookFailures c;
            marketsWithOrderbookFailures := marketsWithOrderbookFailures c + 1 |}
    else c in
  {| orderbookFailures :=
       orderbookFailures c1
       + ((if failed yesResult then 1 else 0) + (if failed noResult then 1 else 0));
     marketsWithOrderbookFailures := marketsWithOrderbookFailures c1 |}.

(** [markets.map(market => limiter.with(...))]: one task per market, all
    created at once, none started yet. *)
Definition fanOutStart (markets : list Market.t) (c : Counters) : FanOut :=
  {| limiter := Limiter.fanOut (List.length markets);
     yesResults := replicate (List.length markets) None;
     snapshots := replicate (List.length markets) None;
     counters := c;
     rejection := None |}.

Definition isFulfilled (t : Limiter.Task) : bool :=
  match t with Limiter.Fulfilled => true | _ => false end.

Definition isPending (t : Limiter.Task) : bool :=
  match t with
  | Limiter.Waiting | Limiter.FetchingYes | Limiter.FetchingNo => true
  | _ => false
  end.

(** [await Promise.all(...)] can resume: every task has returned, or one
    has thrown. *)
Definition resumable (f : FanOut) : bool :=
  match rejection f with
  | Some _ => true
  | None => forallb isFulfilled (Limiter.tasks (limiter f))
  end.

(** The markets whose tasks have neither returned nor thrown. *)
Definition pendingMarkets (markets : list Market.t) (f : FanOut) : list Market.t :=
  flat_map (fun mt => if isPending (snd mt) then [fst mt] else [])
    (combine markets (Limiter.tasks (limiter f))).

Definition detached (markets : list Market.t) : list Event :=
  match markets with
  | [] => []
  | _ => [Detached markets]
  end.

(** Turns that bring any fan-out over [n] markets to its end: the fetches
    in flight settle, then the tasks still waiting run one after the other;
    the scan resumes as soon as it can. *)
Definition completion (n : nat) : list Turn :=
  Resume ::
    flat_map (fun t => [t; Resume])
      (flat_map (fun i => [Settle i; Settle i]) (seq 0 n)
         ++ flat_map (fun i => [Admit i; Settle i; Settle i]) (seq 0 n)).


Section ArbitrageEngine.

Context {W : Type}.
Variable env : Collaborators W.
Variable config : ArbConfig.

Definition getOrderBookTopSafe (tokenId marketId : string) : Code W FetchResult :=
  TryCatch
    (let* t := await (query (GetOrderBookTop tokenId) (getOrderBookTop env tokenId)) in
     Ret {| top := t; failed := false |})
    (fun error =>
       if isOrderbookNotFound error then
         warn (InvalidOrderbookToken tokenId marketId) ;;;
         Ret {| top := zeroTop; failed := true |}
       else Throw error).

(** [a || b] on an optional string: [undefined] and the empty string are
    falsy. *)
Definition orElse (a : option string) (b : string) : string :=
  match a with
  | Some s => if String.eqb s "" then b else s
  | None => b
  end.

(** [txHashes?.[0]] *)
Definition firstTxHash (txHashes : option (list string)) : option string :=
  match txHashes with
  | Some (h :: _) => Some h
  | _ => None
  end.

Definition decisionRecord (opportunity : Opportunity.t) (action reason : string)
    (now : Z) (plannedSize : option number) (txHash : option string)
    : DecisionRecord.t :=
  {| DecisionRecord.ts := now;
     DecisionRecord.market_id := Opportunity.marketId opportunity;
     DecisionRecord.yes_ask := Opportunity.yesAsk opportunity;
     DecisionRecord.no_ask := Opportunity.noAsk opportunity;
     DecisionRecord.edge_bps := Opportunity.edgeBps opportunity;
     DecisionRecord.liquidity := Opportunity.liquidityUsd opportunity;
     DecisionRecord.spread_bps := Opportunity.spreadBps opportunity;
     DecisionRecord.est_profit_usd := Opportunity.estProfitUsd opportunity;
     DecisionRecord.action := action;
     DecisionRecord.reason := reason;
     DecisionRecord.planned_size := plannedSize;
     DecisionRecord.tx_hash := txHash;
     DecisionRecord.status :=
       if String.eqb action "trade" then "submitted" else "skipped" |}.

(** The object literal handed to [append] is built first: when
    [new Date(now).toISOString()] throws, [append] is not called. *)
Definition logDecision (opportunity : Opportunity.t) (action reason : string)
    (now : Z) (plannedSize : option number) (txHash : option string)
    : Code W unit :=
  match decisionLogger env with
  | None => Ret tt
  | Some append =>
      if isTimeValue now then
        let record := decisionRecord opportunity action reason now plannedSize txHash in
        await (call (Append record) (append record))
      else Throw (OtherError "Invalid time value")
  end.

Definition planOf (opportunity : Opportunity.t) : Plan.t :=
  {| Plan.marketId := Opportunity.marketId opportunity;
     Plan.yesTokenId := Opportunity.yesTokenId opportunity;
     Plan.noTokenId := Opportunity.noTokenId opportunity;
     Plan.yesAsk := Opportunity.yesAsk opportunity;
     Plan.noAsk := Opportunity.noAsk opportunity;
     Plan.sizeUsd := Opportunity.sizeUsd opportunity;
     Plan.edgeBps := Opportunity.edgeBps opportunity;
     Plan.estProfitUsd := Opportunity.estProfitUsd opportunity |}.

(** [canExecute] is called without [await]; every other collaborator call
    of [handleOpportunity] is awaited. *)
Definition handleOpportunity (opportunity : Opportunity.t) (now : Z) : Code W unit :=
  let* decision := call (CanExecute opportunity now) (canExecute env opportunity now) in
  if negb (allowed decision) then
    info (Skip opportunity (orElse (decision_reason decision) "filtered")) ;;;
    await (logDecision opportunity "skip" (orElse (decision_reason decision) "filtered")
             now None None)
  else
    let* gasCheck := await (call (EnsureGasBalance now) (ensureGasBalance env now)) in
    if negb (ok gasCheck) then
      warn (Skip opportunity "low_gas") ;;;
      await (logDecision opportunity "skip" "low_gas" now None None)
    else
      let* n := readActiveTrades in
      writeActiveTrades (n + 1) ;;;
      await (call (OnTradeSubmitted opportunity now)
               (onTradeSubmitted env opportunity now)) ;;;
      let plan := planOf opportunity in
      let* result := await (call (Execute plan now) (execute env plan now)) in
      let* n' := readActiveTrades in
      writeActiveTrades (n' - 1) ;;;
      if String.eqb (status result) "submitted" || String.eqb (status result) "dry_run"
      then
        await (call (OnTradeSuccess opportunity now)
                 (onTradeSuccess env opportunity now)) ;;;
        await (logDecision opportunity "trade" (status result) now
                 (Some (Plan.sizeUsd plan)) (firstTxHash (txHashes result)))
      else
        await (call (OnTradeFailure opportunity now
                       (orElse (reason result) (status result)))
                 (onTradeFailure env opportunity now
                    (orElse (reason result) (status result)))) ;;;
        await (logDecision opportunity "skip" (orElse (reason result) (status result))
                 now None None).

(** The comparator [(a, b) => b.estProfitUsd - a.estProfitUsd]. *)
Definition byProfitDesc (a b : Opportunity.t) : number :=
  minus (Opportunity.estProfitUsd b) (Opportunity.estProfitUsd a).

(** [Array.prototype.sort(compare)] is a stable sort: [a] ends up after [b]
    only when [compare(a, b) > 0], a NaN returned by the comparator counting
    as 0, and elements that compare equal keep their order.  For a
    comparator that is consistent the sorted array is unique, so a stable
    insertion sort stands for it.  When the comparator is not consistent,
    as is [b.estProfitUsd - a.estProfitUsd] on an array holding a NaN
    profit, the language leaves the order to the implementation. *)
Fixpoint insertSorted {A} (compare : A -> A -> number) (x : A) (l : list A) : list A :=
  match l with
  | [] => [x]
  | y :: l' =>
      if positive (compare x y) then y :: insertSorted compare x l'
      else x :: y :: l'
  end.

Fixpoint sort {A} (compare : A -> A -> number) (l : list A) : list A :=
  match l with
  | [] => []
  | x :: l' => insertSorted compare x (sort compare l')
  end.

(** *** The fan-out *)

(** One turn of the fan-out, with the body passed to [orderbookLimiter.with]
    for market [i]:
    [const yesResult = await this.getOrderBookTopSafe(market.yesTokenId, ...);
     const noResult = await this.getOrderBookTopSafe(market.noTokenId, ...);
     (the two counters are updated);
     return { ...market, yesTop: yesResult.top, noTop: noResult.top };]
    A task that is admitted issues its YES request.  When its YES fetch
    settles the task goes on to issue its NO request, or throws; when its NO
    fetch settles it updates the counters and returns its snapshot, or
    throws.  The permit is handled by [Limiter.step].  The tasks only read
    order books and log: they are run against the state [st] the fan-out
    began in.  A turn that cannot be taken yields [None]. *)
Definition fanOutTurn (markets : list Market.t) (st : Engine W) (t : Turn) (f : FanOut)
    : option (FanOut * list Event) :=
  match t with
  | Resume => None
  | Admit i =>
      match markets !! i, Limiter.step (Limiter.Grant i) (limiter f) with
      | Some m, Some l =>
          Some ({| limiter := l; yesResults := yesResults f; snapshots := snapshots f;
                   counters := counters f; rejection := rejection f |},
                requested (getOrderBookTopSafe (Market.yesTokenId m) (Market.marketId m)) st)
      | _, _ => None
      end
  | Settle i =>
      match markets !! i, Limiter.tasks (limiter f) !! i with
      | Some m, Some Limiter.FetchingYes =>
          let r := answered (getOrderBookTopSafe (Market.yesTokenId m) (Market.marketId m))
                     st in
          match Limiter.step (Limiter.YesSettles i (settlementOf (outcome r))) (limiter f),
                outcome r with
          | Some l, Resolved yesResult =>
              Some ({| limiter := l;
                       yesResults := <[i := Some yesResult]> (yesResults f);
                       snapshots := snapshots f;
                       counters := counters f; rejection := rejection f |},
                    events r
                      ++ requested (getOrderBookTopSafe (Market.noTokenId m)
                                      (Market.marketId m)) st)
          | Some l, Rejected e =>
              Some ({| limiter := l; yesResults := yesResults f;
                       snapshots := snapshots f; counters := counters f;
                       rejection := firstRejection (rejection f) e |},
                    events r)
          | None, _ => None
          end
      | Some m, Some Limiter.FetchingNo =>
          let r := answered (getOrderBookTopSafe (Market.noTokenId m) (Market.marketId m))
                     st in
          match yesResults f !! i,
                Limiter.step (Limiter.NoSettles i (settlementOf (outcome r))) (limiter f),
                outcome r with
          | Some (Some yesResult), Some l, Resolved noResult =>
              Some ({| limiter := l; yesResults := yesResults f;
                       snapshots :=
                         <[i := Some {| market := m; yesTop := top yesResult;
                                        noTop := top noResult |}]> (snapshots f);
                       counters := tally yesResult noResult (counters f);
                       rejection := rejection f |},
                    events r)
          | Some (Some yesResult), Some l, Rejected e =>
              Some ({| limiter := l; yesResults := yesResults f;
                       snapshots := snapshots f; counters := counters f;
                       rejection := firstRejection (rejection f) e |},
                    events r)
          | _, _, _ => None
          end
      | _, _ => None
      end
  end.

(** The fan-out takes the turns it is given, skipping those that cannot be
    taken, until the scan resumes. *)
Fixpoint fanOutRun (markets : list Market.t) (st : Engine W) (turns : list Turn)
    (f : FanOut) : FanOut * list Event :=
  match turns with
  | [] => (f, [])
  | Resume :: later =>
      if resumable f then (f, []) else fanOutRun markets st later f
  | t :: later =>
      match fanOutTurn markets st t f with
      | Some (f', evs) =>
          match fanOutRun markets st later f' with
          | (f'', evs') => (f'', evs ++ evs')
          end
      | None => fanOutRun markets st later f
      end
  end.

(** [Promise.all(markets.map(market => this.orderbookLimiter.with(task)))]
    with [let orderbookFailures = 0; let marketsWithOrderbookFailures = 0]
    passed as [c].  The turns are those of the event loop, followed by
    enough turns to bring the fan-out to its end.  The result array is in
    market order; a rejection is the first one in time, and leaves the tasks
    that are still pending to themselves. *)
Definition fetchSnapshots (markets : list Market.t) (c : Counters)
    : M W (list MarketSnapshot * Counters) :=
  fun st =>
    match fanOutRun markets st
            (eventLoop env markets (world st) ++ completion (List.length markets))
            (fanOutStart markets c) with
    | (f, evs) =>
        match rejection f with
        | Some e => mkRun (Rejected e) st (evs ++ detached (pendingMarkets markets f))
        | None => mkRun (Resolved (omap id (snapshots f), counters f)) st evs
        end
    end.

(** *** The scan *)

(** [for (const opportunity of opportunities) { if (...) break; await ... }] *)
Fixpoint tradeLoop (opportunities : list Opportunity.t) (now : Z) : Code W unit :=
  match opportunities with
  | [] => Ret tt
  | opportunity :: rest =>
      let* n := readActiveTrades in
      if n >=? maxConcurrentTrades config then Ret tt
      else await (handleOpportunity opportunity now) ;;; tradeLoop rest now
  end.

Definition lengthOf {A} (l : list A) : Z := Z.of_nat (List.length l).

Definition noFailures : Counters :=
  {| orderbookFailures := 0; marketsWithOrderbookFailures := 0 |}.

(** The summary line: [Scan complete: 0 opportunities ...] or
    [Found n opportunity(ies). Top market=...]. *)
Definition summaryLine (markets : list Market.t) (opportunities : list Opportunity.t)
    (counters : Counters) : LogLine :=
  match opportunities with
  | [] =>
      ScanComplete0 (lengthOf markets) (orderbookFailures counters)
        (marketsWithOrderbookFailures counters)
  | first :: _ =>
      Found (lengthOf opportunities) first (orderbookFailures counters)
        (marketsWithOrderbookFailures counters)
  end.

(** The [try] block of [scanOnce].  [findOpportunities] is called without
    [await]. *)
Definition scanAttempt (now : Z) : Code W unit :=
  let* markets := await (call GetActiveMarkets (getActiveMarkets env)) in
  let* fetched := await (fetchSnapshots markets noFailures) in
  let snapshots := fst fetched in
  let counters := snd fetched in
  let* found := call (FindOpportunities snapshots now)
                     (findOpportunities env snapshots now) in
  let opportunities := sort byProfitDesc found in
  info (summaryLine markets opportunities counters) ;;;
  tradeLoop opportunities now.

Definition scanOnce (now : Z) : Code W unit :=
  TryCatch (scanAttempt now)
    (fun err => warn (ScanError (errorMessage err))).

(** [await new Promise((resolve) => setTimeout(resolve, waitMs))]: the loop
    gives up control; how long for is not modelled. *)
Definition pause : Code W unit := await (Ret tt).

(** The [while (this.running)] loop of [start], for as many iterations as
    there are readings [startedAt = Date.now()]. *)
Fixpoint scanLoop (startedAts : list Z) : Code W unit :=
  match startedAts with
  | [] => Ret tt
  | startedAt :: later =>
      let* r := readRunning in
      if r then await (scanOnce startedAt) ;;; pause ;;; scanLoop later
      else Ret tt
  end.

Definition start (startedAts : list Z) : Code W unit :=
  let* r := readRunning in
  if r then Ret tt
  else setRunning true ;;; info EngineStarted ;;; scanLoop startedAts.

Definition stop : Code W unit := setRunning false.

End ArbitrageEngine.


(** * Vocabulary of the properties *)

(** ** What a run did: projections of the event list *)

(** The opportunities handed to [handleOpportunity]: its first action is
    always the call of [riskManager.canExecute]. *)
Definition attempted (evs : list Event) : list Opportunity.t :=
  flat_map (fun ev => match ev with CanExecute o _ => [o] | _ => [] end) evs.

(** The plans handed to [executor.execute]. *)
Definition executed (evs : list Event) : list Plan.t :=
  flat_map (fun ev => match ev with Execute p _ => [p] | _ => [] end) evs.

(** The opportunities announced through [riskManager.onTradeSubmitted]. *)
Definition submitted (evs : list Event) : list Opportunity.t :=
  flat_map (fun ev => match ev with OnTradeSubmitted o _ => [o] | _ => [] end) evs.

(** The successive values written to [activeTrades]. *)
Definition activeWrites (evs : list Event) : list Z :=
  flat_map (fun ev => match ev with ActiveTrades n => [n] | _ => [] end) evs.

(** The decision records handed to [decisionLogger.append]. *)
Definition appended (evs : list Event) : list DecisionRecord.t :=
  flat_map (fun ev => match ev with Append r => [r] | _ => [] end) evs.

(** The [Scan error] warnings. *)
Definition scanErrors (evs : list Event) : list string :=
  flat_map (fun ev => match ev with Log WARN (ScanError m) => [m] | _ => [] end) evs.

(** [always P m]: every event of every run of [m] satisfies [P]. *)
Definition always {W A} (P : Event -> Prop) (m : M W A) : Prop :=
  forall st, Forall P (events (m st)).

(** A record is well formed when its [status] is the one its [action]
    calls for. *)
Definition recordWellFormed (r : DecisionRecord.t) : Prop :=
  (DecisionRecord.action r = "trade" /\ DecisionRecord.status r = "submitted")
  \/ (DecisionRecord.action r = "skip" /\ DecisionRecord.status r = "skipped").

Definition appendsWellFormed (ev : Event) : Prop :=
  match ev with Append r => recordWellFormed r | _ => True end.

(** The events of the fetch phase. *)
Definition fetchEvent (ev : Event) : Prop :=
  match ev with
  | GetOrderBookTop _ | Log WARN (InvalidOrderbookToken _ _) | Detached _ => True
  | _ => False
  end.


(** [a <= b], which is false when either is NaN. *)
Definition atMost (a b : number) : Prop :=
  match a, b with
  | NaN, _ | _, NaN => False
  | NegInfinity, _ => True
  | _, PosInfinity => True
  | Finite p, Finite q => (p <= q)%Q
  | _, _ => False
  end.

(** [a] may come before [b]: its estimated profit is not smaller. *)
Definition profitOrder (a b : Opportunity.t) : Prop :=
  atMost (Opportunity.estProfitUsd b) (Opportunity.estProfitUsd a).


(** No estimated profit of the list is NaN. *)
Definition profitsAreNumbers (opportunities : list Opportunity.t) : Prop :=
  Forall (fun o => isNaN (Opportunity.estProfitUsd o) = false) opportunities.


(** ** Admission control and settlement *)

(** [Turned_down env o now st rsn]: from state [st] admission control rejects
    [o], either because [canExecute] answers [{allowed: false, reason}]
    ([rsn] is then [reason || 'filtered']) or because, the opportunity being
    allowed, [ensureGasBalance] answers [{ok: false}] ([rsn] is [low_gas]). *)
Inductive Turned_down {W} (env : Collaborators W) (o : Opportunity.t) (now : Z)
    (st : Engine W) : string -> Prop :=
| Not_allowed d w1 :
    canExecute env o now (world st) = (Resolved d, w1) ->
    allowed d = false ->
    Turned_down env o now st (orElse (decision_reason d) "filtered")
| Low_gas d w1 g w2 :
    canExecute env o now (world st) = (Resolved d, w1) ->
    allowed d = true ->
    ensureGasBalance env now w1 = (Resolved g, w2) ->
    ok g = false ->
    Turned_down env o now st "low_gas".

(** As the specification words it: a [skip] record carrying the reason is
    appended. *)
Definition skipRecorded (evs : list Event) (rsn : string) : Prop :=
  exists r, In r (appended evs)
            /\ DecisionRecord.action r = "skip"
            /\ DecisionRecord.reason r = rsn.

(** [Executed_with env o now st result w]: from state [st] the opportunity
    passes admission control, [onTradeSubmitted] returns, and the executor
    returns [result], leaving the collaborators in state [w]. *)
Inductive Executed_with {W} (env : Collaborators W) (o : Opportunity.t) (now : Z)
    (st : Engine W) : ExecutionResult -> W -> Prop :=
| Executed_intro d w1 g w2 w3 result w4 :
    canExecute env o now (world st) = (Resolved d, w1) ->
    allowed d = true ->
    ensureGasBalance env now w1 = (Resolved g, w2) ->
    ok g = true ->
    onTradeSubmitted env o now w2 = (Resolved tt, w3) ->
    execute env (planOf o) now w3 = (Resolved result, w4) ->
    Executed_with env o now st result w4.

(** What [handleOpportunity] does up to and including the decrement that
    follows the executor's return. *)
Definition uptoExecution {W} (o : Opportunity.t) (now : Z) (st : Engine W) : list Event :=
  [CanExecute o now; EnsureGasBalance now; ActiveTrades (activeTrades st + 1);
   OnTradeSubmitted o now; Execute (planOf o) now;
   ActiveTrades (activeTrades st + 1 - 1)].

(** As the specification words it: a [trade] record is appended. *)
Definition tradeRecorded (evs : list Event) : Prop :=
  exists r, In r (appended evs) /\ DecisionRecord.action r = "trade".

(** ** Snapshots and failure counts *)

Section SnapshotCounts.

Context {W : Type}.
Variable env : Collaborators W.

(** A side fails when its order book is reported as not found. *)
Definition sideFailed (w : W) (tokenId : string) : bool :=
  match getOrderBookTop env tokenId w with
  | Rejected (OrderbookNotFoundError _) => true
  | _ => false
  end.

(** A side aborts the scan when its fetch raises anything else. *)
Definition sideAborts (w : W) (tokenId : string) : bool :=
  match getOrderBookTop env tokenId w with
  | Rejected e => negb (isOrderbookNotFound e)
  | Resolved _ => false
  end.

Definition sideTop (w : W) (tokenId : string) : OrderBookTop :=
  match getOrderBookTop env tokenId w with
  | Resolved t => t
  | Rejected _ => zeroTop
  end.

Definition snapshotOf (w : W) (m : Market.t) : MarketSnapshot :=
  {| market := m;
     yesTop := sideTop w (Market.yesTokenId m);
     noTop := sideTop w (Market.noTokenId m) |}.

Definition marketFailed (w : W) (m : Market.t) : bool :=
  sideFailed w (Market.yesTokenId m) || sideFailed w (Market.noTokenId m).

Definition failedSides (w : W) (m : Market.t) : Z :=
  (if sideFailed w (Market.yesTokenId m) then 1 else 0)
  + (if sideFailed w (Market.noTokenId m) then 1 else 0).

(** The number of individually failed sides over a market list. *)
Definition failedSideCount (w : W) (markets : list Market.t) : Z :=
  fold_right (fun m n => failedSides w m + n) 0 markets.

(** The number of markets with at least one failed side. *)
Definition failedMarketCount (w : W) (markets : list Market.t) : Z :=
  lengthOf (List.filter (marketFailed w) markets).

(** Every fetch of the list either succeeds or fails as not found. *)
Definition recoverable (w : W) (markets : list Market.t) : bool :=
  forallb (fun m => negb (sideAborts w (Market.yesTokenId m))
                    && negb (sideAborts w (Market.noTokenId m))) markets.

Definition count (c : Counters) (w : W) (markets : list Market.t) : Counters :=
  {| orderbookFailures := orderbookFailures c + failedSideCount w markets;
     marketsWithOrderbookFailures :=
       marketsWithOrderbookFailures c + failedMarketCount w markets |}.

End SnapshotCounts.

(** ** Further projections of the event list *)

(** The events of [handleOpportunity]. *)
Definition tradeEvent (ev : Event) : Prop :=
  match ev with
  | CanExecute _ _ | EnsureGasBalance _ | OnTradeSubmitted _ _ | Execute _ _
  | OnTradeSuccess _ _ | OnTradeFailure _ _ _ | Append _ | ActiveTrades _
  | Log _ (Skip _ _) => True
  | _ => False
  end.

(** The calls of [provider.getActiveMarkets]. *)
Definition listings (evs : list Event) : list unit :=
  flat_map (fun ev => match ev with GetActiveMarkets => [tt] | _ => [] end) evs.

(** The calls of [strategy.findOpportunities], with the instant passed. *)
Definition strategyCalls (evs : list Event) : list Z :=
  flat_map (fun ev => match ev with FindOpportunities _ t => [t] | _ => [] end) evs.

(** The tokens asked of [provider.getOrderBookTop]. *)
Definition orderBookRequests (evs : list Event) : list string :=
  flat_map (fun ev => match ev with GetOrderBookTop tok => [tok] | _ => [] end) evs.

(** The [Invalid orderbook token] warnings: token and market. *)
Definition invalidTokenWarnings (evs : list Event) : list (string * string) :=
  flat_map (fun ev =>
              match ev with
              | Log WARN (InvalidOrderbookToken tok mid) => [(tok, mid)]
              | _ => []
              end) evs.

(** The summary lines of a scan. *)
Definition summaries (evs : list Event) : list LogLine :=
  flat_map (fun ev =>
              match ev with
              | Log INFO (ScanComplete0 n f k) => [ScanComplete0 n f k]
              | Log INFO (Found n o f k) => [Found n o f k]
              | _ => []
              end) evs.

(** The [Engine started] lines. *)
Definition startLines (evs : list Event) : list unit :=
  flat_map (fun ev => match ev with Log _ EngineStarted => [tt] | _ => [] end) evs.

(** The [Skip market=...] lines: level, opportunity and reason. *)
Definition skipLines (evs : list Event) : list (Level * Opportunity.t * string) :=
  flat_map (fun ev => match ev with Log lvl (Skip o r) => [(lvl, o, r)] | _ => [] end) evs.

(** Every line logged, with its level. *)
Definition logLines (evs : list Event) : list (Level * LogLine) :=
  flat_map (fun ev => match ev with Log lvl line => [(lvl, line)] | _ => [] end) evs.

(** The log line of an entry of [skipLines]. *)
Definition skipLine (s : Level * Opportunity.t * string) : Level * LogLine :=
  match s with (lvl, o, rsn) => (lvl, Skip o rsn) end.

(** The calls of [riskManager.ensureGasBalance]. *)
Definition gasChecks (evs : list Event) : list Z :=
  flat_map (fun ev => match ev with EnsureGasBalance t => [t] | _ => [] end) evs.

(** The calls of [riskManager.onTradeSuccess] and [onTradeFailure]. *)
Definition settlements (evs : list Event) : list Opportunity.t :=
  flat_map (fun ev =>
              match ev with
              | OnTradeSuccess o _ | OnTradeFailure o _ _ => [o]
              | _ => []
              end) evs.

(** The failed sides of a market list, each with its market: token and
    market id. *)
Definition failedTokens {W} (env : Collaborators W) (w : W) (markets : list Market.t)
    : list (string * string) :=
  flat_map
    (fun m =>
       (if sideFailed env w (Market.yesTokenId m)
        then [(Market.yesTokenId m, Market.marketId m)] else [])
       ++ (if sideFailed env w (Market.noTokenId m)
           then [(Market.noTokenId m, Market.marketId m)] else []))
    markets.

(** Both tokens of every market. *)
Definition tokensOf (markets : list Market.t) : list string :=
  flat_map (fun m => [Market.yesTokenId m; Market.noTokenId m]) markets.

(** The engine calls the risk manager's hooks in step with the executor:
    it announces only opportunities it attempted, executes only plans of
    opportunities it announced, and settles no more trades than it
    executed. *)
Definition inStep (evs : list Event) : Prop :=
  sublist (submitted evs) (attempted evs)
  /\ sublist (executed evs) (map planOf (submitted evs))
  /\ sublist (settlements evs) (submitted evs)
  /\ (List.length (settlements evs) <= List.length (executed evs))%nat
  /\ (List.length (submitted evs) <= List.length (gasChecks evs))%nat
  /\ (List.length (gasChecks evs) <= List.length (attempted evs))%nat.

(** A decision record of the scan at [now] for opportunity [o]. *)
Definition recordOf (now : Z) (o : Opportunity.t) (r : DecisionRecord.t) : Prop :=
  DecisionRecord.ts r = now
  /\ DecisionRecord.market_id r = Opportunity.marketId o
  /\ DecisionRecord.est_profit_usd r = Opportunity.estProfitUsd o.



(** ** Where the tasks of a fan-out stand *)

Section FanOutBookkeeping.

Context {W : Type}.
Variable env : Collaborators W.

(** What [getOrderBookTopSafe] returns for a side that does not abort. *)
Definition safeResult (w : W) (tokenId : string) : FetchResult :=
  {| top := sideTop env w tokenId; failed := sideFailed env w tokenId |}.

(** One of the two fetches of the market raises something else than
    not-found. *)
Definition marketAborts (w : W) (m : Market.t) : bool :=
  sideAborts env w (Market.yesTokenId m) || sideAborts env w (Market.noTokenId m).

(** The warning logged for a side, if it failed. *)
Definition warning (w : W) (m : Market.t) (tokenId : string) : list (string * string) :=
  if sideFailed env w tokenId then [(tokenId, Market.marketId m)] else [].

(** The [Invalid orderbook token] lines of a list of tokens and markets. *)
Definition warnLines (l : list (string * string)) : list Event :=
  map (fun p => Log WARN (InvalidOrderbookToken (fst p) (snd p))) l.

(** The tokens a task has requested by the time it stands at [t]. *)
Definition requestsOf (w : W) (m : Market.t) (t : Limiter.Task) : list string :=
  match t with
  | Limiter.Waiting => []
  | Limiter.FetchingYes => [Market.yesTokenId m]
  | Limiter.FetchingNo | Limiter.Fulfilled => [Market.yesTokenId m; Market.noTokenId m]
  | Limiter.Failed =>
      if sideAborts env w (Market.yesTokenId m) then [Market.yesTokenId m]
      else [Market.yesTokenId m; Market.noTokenId m]
  end.

(** The warnings a task has logged by the time it stands at [t]. *)
Definition warningsOf (w : W) (m : Market.t) (t : Limiter.Task)
    : list (string * string) :=
  match t with
  | Limiter.Waiting | Limiter.FetchingYes => []
  | Limiter.FetchingNo => warning w m (Market.yesTokenId m)
  | Limiter.Fulfilled =>
      warning w m (Market.yesTokenId m) ++ warning w m (Market.noTokenId m)
  | Limiter.Failed =>
      if sideAborts env w (Market.yesTokenId m) then []
      else warning w m (Market.yesTokenId m)
  end.

(** What a task has added to the two counters: the failed sides and the
    market itself, once it has returned. *)
Definition talliedSides (w : W) (m : Market.t) (t : Limiter.Task)
    : list (string * string) :=
  if isFulfilled t
  then warning w m (Market.yesTokenId m) ++ warning w m (Market.noTokenId m)
  else [].

Definition talliedMarkets (w : W) (m : Market.t) (t : Limiter.Task) : list Market.t :=
  if isFulfilled t && marketFailed env w m then [m] else [].

(** What the tasks have contributed, market by market. *)
Definition collect {B} (h : Market.t -> Limiter.Task -> list B)
    (markets : list Market.t) (tasks : list Limiter.Task) : list B :=
  flat_map (fun mt => h (fst mt) (snd mt)) (combine markets tasks).

(** What a task at [t] holds of its results. *)
Definition taskHolds (w : W) (m : Market.t) (t : Limiter.Task)
    (yesResult : option FetchResult) (snapshot : option MarketSnapshot) : Prop :=
  match t with
  | Limiter.Waiting | Limiter.FetchingYes => True
  | Limiter.FetchingNo =>
      sideAborts env w (Market.yesTokenId m) = false
      /\ yesResult = Some (safeResult w (Market.yesTokenId m))
  | Limiter.Fulfilled =>
      marketAborts w m = false /\ snapshot = Some (snapshotOf env w m)
  | Limiter.Failed => marketAborts w m = true
  end.

(** The fan-out [f], having produced the events [evs], is consistent with
    the order books [w]: the books of the tasks tally with where the tasks
    stand. *)
Record Consistent (w : W) (markets : list Market.t) (c : Counters) (f : FanOut)
    (evs : list Event) : Prop := mkConsistent
  { tasks_length : List.length (Limiter.tasks (limiter f)) = List.length markets;
    yesResults_length : List.length (yesResults f) = List.length markets;
    snapshots_length : List.length (snapshots f) = List.length markets;
    limiter_balanced : Limiter.balanced (limiter f);
    tasks_hold :
      forall i m t,
        markets !! i = Some m -> Limiter.tasks (limiter f) !! i = Some t ->
        taskHolds w m t (default None (yesResults f !! i))
          (default None (snapshots f !! i));
    failures_counted :
      orderbookFailures (counters f)
      = orderbookFailures c
        + lengthOf (collect (talliedSides w) markets (Limiter.tasks (limiter f)));
    markets_counted :
      marketsWithOrderbookFailures (counters f)
      = marketsWithOrderbookFailures c
        + lengthOf (collect (talliedMarkets w) markets (Limiter.tasks (limiter f)));
    rejection_thrown :
      forall e, rejection f = Some e ->
        exists tokenId,
          In tokenId (orderBookRequests evs)
          /\ getOrderBookTop env tokenId w = Rejected e
          /\ isOrderbookNotFound e = false;
    failure_rejects :
      In Limiter.Failed (Limiter.tasks (limiter f)) -> rejection f <> None;
    rejects_failure :
      rejection f <> None -> In Limiter.Failed (Limiter.tasks (limiter f));
    requests_made :
      Permutation (orderBookRequests evs)
        (collect (requestsOf w) markets (Limiter.tasks (limiter f)));
    warnings_logged :
      Permutation (invalidTokenWarnings evs)
        (collect (warningsOf w) markets (Limiter.tasks (limiter f)));
    only_fetches : Forall fetchEvent evs }.

(** The fan-out after a turn, and after a list of turns none of which is
    the scan resuming. *)
Definition takeTurn (markets : list Market.t) (st : Engine W) (t : Turn) (f : FanOut)
    : FanOut :=
  match fanOutTurn env markets st t f with
  | Some (f', _) => f'
  | None => f
  end.

Definition takeTurns (markets : list Market.t) (st : Engine W) (turns : list Turn)
    (f : FanOut) : FanOut :=
  fold_left (fun f t => takeTurn markets st t f) turns f.

(** The books of [f] are consistent with some list of events. *)
Definition Reachable (markets : list Market.t) (st : Engine W) (c : Counters)
    (f : FanOut) : Prop :=
  exists evs, Consistent (world st) markets c f evs.

Definition taskAt (f : FanOut) (i : nat) : option Limiter.Task :=
  Limiter.tasks (limiter f) !! i.

Definition inFlightAt (f : FanOut) (i : nat) : Prop :=
  taskAt f i = Some Limiter.FetchingYes \/ taskAt f i = Some Limiter.FetchingNo.

Definition pendingAt (f : FanOut) (i : nat) : Prop :=
  taskAt f i = Some Limiter.Waiting \/ inFlightAt f i.

End FanOutBookkeeping.


(** ** Sample collaborators for the scenarios *)

Definition sampleOpportunity (id : string) (profit : number) : Opportunity.t :=
  {| Opportunity.marketId := id;
     Opportunity.yesTokenId := String.append id "-YES";
     Opportunity.noTokenId := String.append id "-NO";
     Opportunity.yesAsk := 0.45%Q; Opportunity.noAsk := 0.5%Q;
     Opportunity.edgeBps := 500%Q; Opportunity.estProfitUsd := profit;
     Opportunity.sizeUsd := 100%Q; Opportunity.liquidityUsd := 2500%Q;
     Opportunity.spreadBps := 40%Q |}.

Definition O1 : Opportunity.t := sampleOpportunity "O1" 10%Q.
Definition O2 : Opportunity.t := sampleOpportunity "O2" 5%Q.

Definition M1 : Market.t := Market.mk "M1" "Y1" "N1".
Definition M2 : Market.t := Market.mk "M2" "Y2" "N2".

Definition sampleTop : OrderBookTop := {| bestAsk := 0.45%Q; bestBid := 0.43%Q |}.

(** An event loop that serves the fan-out in the order of the requests:
    the limiter admits the tasks in market order, then the YES fetches
    settle in that order, then the NO fetches, the scan resuming as soon as
    it can. *)
Definition inRequestOrder (n : nat) : list Turn :=
  flat_map (fun t => [t; Resume])
    (map Admit (seq 0 n) ++ map Settle (seq 0 n) ++ map Settle (seq 0 n)).

(** Stateless collaborators that let everything through: markets [M1], [M2]
    with all four order books present, the strategy answering [O2; O1], a
    risk manager that allows every opportunity, an executor that reports
    [submitted] with one transaction hash, and a decision logger. *)
Definition permissive : Collaborators unit :=
  {| getActiveMarkets := fun w => (Resolved [M1; M2], w);
     getOrderBookTop := fun _ _ => Resolved sampleTop;
     findOpportunities := fun _ _ w => (Resolved [O2; O1], w);
     canExecute := fun _ _ w => (Resolved {| allowed := true; decision_reason := None |}, w);
     ensureGasBalance := fun _ w => (Resolved {| ok := true |}, w);
     onTradeSubmitted := fun _ _ w => (Resolved tt, w);
     execute := fun _ _ w =>
       (Resolved {| status := "submitted"; reason := None;
                    txHashes := Some ["0xabc"; "0xdef"] |}, w);
     onTradeSuccess := fun _ _ w => (Resolved tt, w);
     onTradeFailure := fun _ _ _ w => (Resolved tt, w);
     decisionLogger := Some (fun _ w => (Resolved tt, w));
     eventLoop := fun markets _ => inRequestOrder (List.length markets) |}.

Definition withCanExecute {W} (f : Opportunity.t -> Z -> W -> Outcome RiskDecision * W)
    (env : Collaborators W) : Collaborators W :=
  {| getActiveMarkets := getActiveMarkets env;
     getOrderBookTop := getOrderBookTop env;
     findOpportunities := findOpportunities env;
     canExecute := f;
     ensureGasBalance := ensureGasBalance env;
     onTradeSubmitted := onTradeSubmitted env;
     execute := execute env;
     onTradeSuccess := onTradeSuccess env;
     onTradeFailure := onTradeFailure env;
     decisionLogger := decisionLogger env;
     eventLoop := eventLoop env |}.

Definition withEnsureGasBalance {W} (f : Z -> W -> Outcome GasCheck * W)
    (env : Collaborators W) : Collaborators W :=
  {| getActiveMarkets := getActiveMarkets env;
     getOrderBookTop := getOrderBookTop env;
     findOpportunities := findOpportunities env;
     canExecute := canExecute env;
     ensureGasBalance := f;
     onTradeSubmitted := onTradeSubmitted env;
     execute := execute env;
     onTradeSuccess := onTradeSuccess env;
     onTradeFailure := onTradeFailure env;
     decisionLogger := decisionLogger env;
     eventLoop := eventLoop env |}.

Definition withExecute {W} (f : Plan.t -> Z -> W -> Outcome ExecutionResult * W)
    (env : Collaborators W) : Collaborators W :=
  {| getActiveMarkets := getActiveMarkets env;
     getOrderBookTop := getOrderBookTop env;
     findOpportunities := findOpportunities env;
     canExecute := canExecute env;
     ensureGasBalance := ensureGasBalance env;
     onTradeSubmitted := onTradeSubmitted env;
     execute := f;
     onTradeSuccess := onTradeSuccess env;
     onTradeFailure := onTradeFailure env;
     decisionLogger := decisionLogger env;
     eventLoop := eventLoop env |}.

Definition withOrderBookTop {W} (f : string -> W -> Outcome OrderBookTop)
    (env : Collaborators W) : Collaborators W :=
  {| getActiveMarkets := getActiveMarkets env;
     getOrderBookTop := f;
     findOpportunities := findOpportunities env;
     canExecute := canExecute env;
     ensureGasBalance := ensureGasBalance env;
     onTradeSubmitted := onTradeSubmitted env;
     execute := execute env;
     onTradeSuccess := onTradeSuccess env;
     onTradeFailure := onTradeFailure env;
     decisionLogger := decisionLogger env;
     eventLoop := eventLoop env |}.

(** An engine constructed without the optional [decisionLogger]. *)
Definition withoutDecisionLogger {W} (env : Collaborators W) : Collaborators W :=
  {| getActiveMarkets := getActiveMarkets env;
     getOrderBookTop := getOrderBookTop env;
     findOpportunities := findOpportunities env;
     canExecute := canExecute env;
     ensureGasBalance := ensureGasBalance env;
     onTradeSubmitted := onTradeSubmitted env;
     execute := execute env;
     onTradeSuccess := onTradeSuccess env;
     onTradeFailure := onTradeFailure env;
     decisionLogger := None;
     eventLoop := eventLoop env |}.

Definition sampleConfig (cap : Z) : ArbConfig :=
  {| scanIntervalMs := 1000; maxConcurrentTrades := cap |}.

(** A risk manager at its exposure limit, and a wallet short of gas. *)
Definition exposureLimited : Collaborators unit :=
  withCanExecute
    (fun _ _ w =>
       (Resolved {| allowed := false; decision_reason := Some "EXPOSURE_LIMIT" |}, w))
    permissive.

Definition lowOnGas : Collaborators unit :=
  withEnsureGasBalance (fun _ w => (Resolved {| ok := false |}, w)) permissive.

(** A risk manager that rejects with an empty reason. *)
Definition unexplainedRejection : Collaborators unit :=
  withCanExecute
    (fun _ _ w => (Resolved {| allowed := false; decision_reason := Some "" |}, w))
    permissive.

(** A risk manager whose [onTradeSuccess] throws. *)
Definition successHookThrows : Collaborators unit :=
  {| getActiveMarkets := getActiveMarkets permissive;
     getOrderBookTop := getOrderBookTop permissive;
     findOpportunities := findOpportunities permissive;
     canExecute := canExecute permissive;
     ensureGasBalance := ensureGasBalance permissive;
     onTradeSubmitted := onTradeSubmitted permissive;
     execute := execute permissive;
     onTradeSuccess := fun _ _ w => (Rejected (OtherError "ledger locked"), w);
     onTradeFailure := onTradeFailure permissive;
     decisionLogger := decisionLogger permissive;
     eventLoop := eventLoop permissive |}.

(** An executor running in dry-run mode. *)
Definition dryRunning : Collaborators unit :=
  withExecute
    (fun _ _ w => (Resolved {| status := "dry_run"; reason := None; txHashes := None |}, w))
    permissive.

(** An executor whose order is refused by the exchange. *)
Definition refusing : Collaborators unit :=
  withExecute
    (fun _ _ w =>
       (Resolved {| status := "failed"; reason := Some "insufficient_liquidity";
                    txHashes := None |}, w))
    permissive.

(** One order book is missing: the provider reports token [N2] as not
    found. *)
Definition missingN2 : Collaborators unit :=
  withOrderBookTop
    (fun tokenId _ =>
       if String.eqb tokenId "N2"
       then Rejected (OrderbookNotFoundError "No orderbook exists for N2")
       else Resolved sampleTop)
    permissive.



Definition throwingExecutor : Collaborators unit :=
  withExecute (fun _ _ w => (Rejected (OtherError "socket hang up"), w)) permissive.

(** A provider with no active market, and a strategy that then finds
    nothing. *)
Definition noMarkets : Collaborators unit :=
  {| getActiveMarkets := fun w => (Resolved [], w);
     getOrderBookTop := getOrderBookTop permissive;
     findOpportunities := fun _ _ w => (Resolved [], w);
     canExecute := canExecute permissive;
     ensureGasBalance := ensureGasBalance permissive;
     onTradeSubmitted := onTradeSubmitted permissive;
     execute := execute permissive;
     onTradeSuccess := onTradeSuccess permissive;
     onTradeFailure := onTradeFailure permissive;
     decisionLogger := decisionLogger permissive;
     eventLoop := eventLoop permissive |}.

(** A strategy that cannot price one of its opportunities: it answers
    [O2] (profit 5), [O3] (profit NaN) and [O1] (profit 10), in this
    order. *)
Definition O3 : Opportunity.t := sampleOpportunity "O3" NaN.

Definition unpricedOpportunity : Collaborators unit :=
  {| getActiveMarkets := getActiveMarkets permissive;
     getOrderBookTop := getOrderBookTop permissive;
     findOpportunities := fun _ _ w => (Resolved [O2; O3; O1], w);
     canExecute := canExecute permissive;
     ensureGasBalance := ensureGasBalance permissive;
     onTradeSubmitted := onTradeSubmitted permissive;
     execute := execute permissive;
     onTradeSuccess := onTradeSuccess permissive;
     onTradeFailure := onTradeFailure permissive;
     decisionLogger := decisionLogger permissive;
     eventLoop := eventLoop permissive |}.

(** Two calls that take turns, the first one first, [n] times each. *)
Definition inTurn (n : nat) : list nat :=
  flat_map (fun _ => [0%nat; 1%nat]) (seq 0 n).




(** * Properties *)

(** ** Running computations *)

Lemma bind_resolved {W A B} (m : M W A) (k : A -> M W B) st a :
  outcome (m st) = Resolved a ->
  bind m k st =
    mkRun (outcome (k a (final (m st)))) (final (k a (final (m st))))
          (events (m st) ++ events (k a (final (m st)))).
Proof.
  unfold bind. destruct (m st) as [[a'|e] st' evs]; cbn; [|discriminate].
  intros [= ->]. now destruct (k a st').
Qed.

(** Unfolds asynchronous code run alone down to the collaborators' answers. *)
Ltac run_alone :=
  cbv beta iota zeta
      delta [alone bind tryCatch call query emit info warn ret throw
             readActiveTrades writeActiveTrades readRunning setRunning].

(** ** The safe fetch wrapper *)

Section SafeFetch.

Context {W : Type}.
Variable env : Collaborators W.

Lemma getOrderBookTopSafe_cases (tokenId marketId : string) (st : Engine W) :
  alone (getOrderBookTopSafe env tokenId marketId) st =
    match getOrderBookTop env tokenId (world st) with
    | Resolved t =>
        mkRun (Resolved {| top := t; failed := false |}) st
              [GetOrderBookTop tokenId]
    | Rejected (OrderbookNotFoundError m) =>
        mkRun (Resolved {| top := zeroTop; failed := true |}) st
              [GetOrderBookTop tokenId;
               Log WARN (InvalidOrderbookToken tokenId marketId)]
    | Rejected e => mkRun (Rejected e) st [GetOrderBookTop tokenId]
    end.
Proof.
  unfold getOrderBookTopSafe. run_alone.
  destruct (getOrderBookTop env tokenId (world st)) as [t|[m|m|s]];
    reflexivity.
Qed.

(** The request goes out when the wrapper is called; the rest happens when
    the provider's answer arrives. *)
Lemma getOrderBookTopSafe_requested (tokenId marketId : string) (st : Engine W) :
  requested (getOrderBookTopSafe env tokenId marketId) st = [GetOrderBookTop tokenId].
Proof. reflexivity. Qed.

Lemma getOrderBookTopSafe_answered (tokenId marketId : string) (st : Engine W) :
  answered (getOrderBookTopSafe env tokenId marketId) st =
    match getOrderBookTop env tokenId (world st) with
    | Resolved t => mkRun (Resolved {| top := t; failed := false |}) st []
    | Rejected (OrderbookNotFoundError m) =>
        mkRun (Resolved {| top := zeroTop; failed := true |}) st
              [Log WARN (InvalidOrderbookToken tokenId marketId)]
    | Rejected e => mkRun (Rejected e) st []
    end.
Proof.
  unfold answered, getOrderBookTopSafe. cbn [advance]. unfold query. cbn.
  unfold settled.
  destruct (getOrderBookTop env tokenId (world st)) as [t|[m|m|s]];
    reflexivity.
Qed.

End SafeFetch.


(** ** The permits of the limiter *)

Module LimiterFacts.

Import Limiter.
Local Open Scope nat_scope.

Lemma inFlight_cons t ts : inFlight (t :: ts) = holding t + inFlight ts.
Proof. reflexivity. Qed.

Lemma inFlight_insert (ts : list Task) : forall (i : nat) (t t' : Task),
  ts !! i = Some t ->
  inFlight (<[i := t']> ts) + holding t = inFlight ts + holding t'.
Proof.
  induction ts as [|u ts IH]; intros i t t' Hi; [discriminate|].
  destruct i as [|i].
  - injection Hi as ->.
    change (<[0 := t']> (t :: ts)) with (t' :: ts).
    rewrite !inFlight_cons. lia.
  - change (<[S i := t']> (u :: ts)) with (u :: <[i := t']> ts).
    change ((u :: ts) !! S i) with (ts !! i) in Hi.
    rewrite !inFlight_cons. specialize (IH i t t' Hi). lia.
Qed.

Lemma inFlight_replicate n : inFlight (replicate n Waiting) = 0.
Proof. induction n as [|n IH]; cbn; [reflexivity | exact IH]. Qed.

Lemma inFlight_settled (ts : list Task) : Forall settled ts -> inFlight ts = 0.
Proof.
  induction 1 as [|t ts Ht _ IH]; [reflexivity|].
  rewrite inFlight_cons, IH. destruct Ht as [-> | ->]; reflexivity.
Qed.

Lemma step_balanced a f f' : step a f = Some f' -> balanced f -> balanced f'.
Proof.
  unfold balanced. intros Hstep Hbal.
  destruct a as [i | i s | i s]; cbn [step] in Hstep.
  - destruct (tasks f !! i) as [[| | | |]|] eqn:Hi; try discriminate.
    destruct (permits f) as [|p] eqn:Hp; [discriminate|].
    injection Hstep as <-. cbn [permits tasks].
    pose proof (inFlight_insert (tasks f) i Waiting FetchingYes Hi) as H.
    cbn [holding] in H. lia.
  - destruct (tasks f !! i) as [[| | | |]|] eqn:Hi; try discriminate.
    injection Hstep as <-. cbn [permits tasks].
    pose proof (inFlight_insert (tasks f) i FetchingYes (taskAfter s FetchingNo) Hi)
      as H.
    destruct s; cbn [holding taskAfter] in H |- *; lia.
  - destruct (tasks f !! i) as [[| | | |]|] eqn:Hi; try discriminate.
    injection Hstep as <-. cbn [permits tasks].
    pose proof (inFlight_insert (tasks f) i FetchingNo (taskAfter s Fulfilled) Hi)
      as H.
    destruct s; cbn [holding taskAfter] in H |- *; lia.
Qed.

Lemma step_length a f f' :
  step a f = Some f' -> length (tasks f') = length (tasks f).
Proof.
  intros Hstep.
  destruct a as [i | i s | i s]; cbn in Hstep;
    destruct (tasks f !! i) as [[| | | |]|]; try discriminate;
    try (destruct (permits f); [discriminate|]);
    injection Hstep as <-; cbn; apply length_insert.
Qed.

Lemma run_balanced schedule : forall f f',
  run schedule f = Some f' ->
  balanced f -> balanced f' /\ length (tasks f') = length (tasks f).
Proof.
  induction schedule as [|a later IH]; intros f f' Hrun Hbal; cbn in Hrun.
  - injection Hrun as <-. now split.
  - destruct (step a f) as [f1|] eqn:Hstep; [|discriminate].
    destruct (IH f1 f' Hrun (step_balanced a f f1 Hstep Hbal)) as [Hb Hl].
    split; [exact Hb|]. rewrite Hl. now apply step_length in Hstep.
Qed.

(** A settled fetch that ends the task body gives the permit back, whether
    the body returns or throws. *)
Lemma step_releases a f f' :
  step a f = Some f' ->
  match a with
  | Grant _ => S (permits f') = permits f
  | YesSettles _ Failure => permits f' = S (permits f)
  | YesSettles _ _ => permits f' = permits f
  | NoSettles _ _ => permits f' = S (permits f)
  end.
Proof.
  intros Hstep.
  destruct a as [i | i s | i s]; cbn in Hstep;
    destruct (tasks f !! i) as [[| | | |]|]; try discriminate;
    try (destruct (permits f) eqn:Hp; [discriminate|]);
    injection Hstep as <-; cbn; try destruct s; reflexivity.
Qed.

Example seventh_task_waits :
  option_map (fun f => (permits f, inFlight (tasks f), step (Grant 6) f))
    (run (firstn 6 eightMarkets) (fanOut 8))
  = Some (0, 6, None).
Proof. reflexivity. Qed.

End LimiterFacts.

(** C9. For any number of markets and any schedule of permit grants and
    fetch settlements, the tasks holding a permit, each with one order-book
    fetch in flight, number at most 6; free permits and permits in use
    always add up to 6, a permit is given back when a task body returns and
    when it throws, and once every task has settled all 6 permits are
    free. *)
Theorem at_most_six_fetches_in_flight :
  forall (markets : nat) (schedule : list Limiter.Action) (f : Limiter.Fanout),
    Limiter.run schedule (Limiter.fanOut markets) = Some f ->
    (Limiter.inFlight (Limiter.tasks f) <= 6)%nat
    /\ (Limiter.permits f + Limiter.inFlight (Limiter.tasks f) = 6)%nat
    /\ List.length (Limiter.tasks f) = markets
    /\ (Forall Limiter.settled (Limiter.tasks f) -> Limiter.permits f = 6%nat)
    /\ (forall i s f',
          Limiter.step (Limiter.NoSettles i s) f = Some f' ->
          Limiter.permits f' = S (Limiter.permits f))
    /\ (forall i f',
          Limiter.step (Limiter.YesSettles i Limiter.Failure) f = Some f' ->
          Limiter.permits f' = S (Limiter.permits f))
    /\ (forall i, Limiter.permits f = 0%nat -> Limiter.step (Limiter.Grant i) f = None).
Proof.
  intros markets schedule f Hrun.
  assert (Hstart : Limiter.balanced (Limiter.fanOut markets)).
  { unfold Limiter.balanced, Limiter.fanOut. cbn [Limiter.permits Limiter.tasks].
    rewrite LimiterFacts.inFlight_replicate. apply Nat.add_0_r. }
  destruct (LimiterFacts.run_balanced schedule _ f Hrun Hstart) as [Hbal Hlen].
  unfold Limiter.balanced, orderbookLimiterPermits in Hbal.
  split; [lia|]. split; [exact Hbal|]. split.
  { rewrite Hlen. cbn. apply length_replicate. }
  split.
  { intros Hall. rewrite (LimiterFacts.inFlight_settled _ Hall) in Hbal. lia. }
  split.
  { intros i s f' Hstep. exact (LimiterFacts.step_releases _ _ _ Hstep). }
  split.
  { intros i f' Hstep. exact (LimiterFacts.step_releases _ _ _ Hstep). }
  intros i Hnone. cbn. rewrite Hnone.
  destruct (Limiter.tasks f !! i) as [[| | | |]|]; reflexivity.
Qed.

(** C9 on eight markets, at the point where six fetches are in flight and
    after every task has settled. *)
Lemma at_most_six_fetches_in_flight_witness :
  Limiter.run Limiter.eightMarkets (Limiter.fanOut 8)
  = Some {| Limiter.permits := 6;
            Limiter.tasks :=
              [Limiter.Failed; Limiter.Fulfilled; Limiter.Failed; Limiter.Fulfilled;
               Limiter.Fulfilled; Limiter.Fulfilled; Limiter.Fulfilled;
               Limiter.Fulfilled] |}
  /\ (Limiter.inFlight
        [Limiter.Failed; Limiter.Fulfilled; Limiter.Failed; Limiter.Fulfilled;
         Limiter.Fulfilled; Limiter.Fulfilled; Limiter.Fulfilled;
         Limiter.Fulfilled] <= 6)%nat.
Proof.
  assert (Hrun : Limiter.run Limiter.eightMarkets (Limiter.fanOut 8)
                 = Some {| Limiter.permits := 6;
                           Limiter.tasks :=
                             [Limiter.Failed; Limiter.Fulfilled; Limiter.Failed;
                              Limiter.Fulfilled; Limiter.Fulfilled; Limiter.Fulfilled;
                              Limiter.Fulfilled; Limiter.Fulfilled] |})
    by reflexivity.
  split; [exact Hrun|].
  destruct (at_most_six_fetches_in_flight 8 Limiter.eightMarkets _ Hrun) as (Hle & _).
  exact Hle.
Defined.


(** ** The books of a fan-out *)

Lemma collect_update {B} (h : Market.t -> Limiter.Task -> list B) ms :
  forall ts i m t t' extra,
    ms !! i = Some m -> ts !! i = Some t ->
    Permutation (h m t') (h m t ++ extra) ->
    Permutation (collect h ms (<[i := t']> ts)) (collect h ms ts ++ extra).
Proof.
  unfold collect.
  induction ms as [|m0 ms IH]; intros ts i m t t' extra Hm Ht Hp; [discriminate|].
  destruct ts as [|t0 ts]; [discriminate|].
  destruct i as [|i].
  - injection Hm as ->. injection Ht as ->.
    change (<[0%nat := t']> (t :: ts)) with (t' :: ts).
    cbn [combine flat_map fst snd]. rewrite Hp, <- !app_assoc.
    apply Permutation_app_head, Permutation_app_comm.
  - change (<[S i := t']> (t0 :: ts)) with (t0 :: <[i := t']> ts).
    change ((m0 :: ms) !! S i) with (ms !! i) in Hm.
    change ((t0 :: ts) !! S i) with (ts !! i) in Ht.
    cbn [combine flat_map fst snd]. rewrite (IH ts i m t t' extra Hm Ht Hp).
    now rewrite app_assoc.
Qed.

Lemma collect_same {B} (h : Market.t -> Limiter.Task -> list B) ms ts i m t t' :
  ms !! i = Some m -> ts !! i = Some t -> h m t' = h m t ->
  Permutation (collect h ms (<[i := t']> ts)) (collect h ms ts).
Proof.
  intros Hm Ht Hh.
  rewrite (collect_update h ms ts i m t t' [] Hm Ht); [now rewrite app_nil_r|].
  now rewrite Hh, app_nil_r.
Qed.

Lemma collect_waiting {B} (h : Market.t -> Limiter.Task -> list B) ms :
  (forall m, h m Limiter.Waiting = []) ->
  forall n, collect h ms (replicate n Limiter.Waiting) = [].
Proof.
  intros Hh. unfold collect.
  induction ms as [|m ms IH]; intros [|n]; cbn; try reflexivity.
  now rewrite Hh, IH.
Qed.

Lemma collect_fulfilled {B} (h : Market.t -> Limiter.Task -> list B) ms :
  forall ts,
    List.length ts = List.length ms ->
    forallb isFulfilled ts = true ->
    collect h ms ts = flat_map (fun m => h m Limiter.Fulfilled) ms.
Proof.
  unfold collect.
  induction ms as [|m ms IH]; intros [|t ts] Hlen Hall; try discriminate;
    [reflexivity|].
  cbn in Hall. apply andb_true_iff in Hall. destruct Hall as [Ht Hall].
  destruct t; try discriminate.
  cbn [combine flat_map fst snd]. f_equal. apply IH; [|exact Hall].
  now injection Hlen.
Qed.

Lemma In_insert_other {A} (l : list A) i (x y z : A) :
  l !! i = Some y -> x <> y -> x <> z -> In x (<[i := z]> l) <-> In x l.
Proof.
  revert i. induction l as [|a l IH]; intros i Hi Hy Hz; [discriminate|].
  destruct i as [|i].
  - injection Hi as ->. change (<[0%nat := z]> (y :: l)) with (z :: l).
    cbn. split; intros [H|H]; auto; congruence.
  - change (<[S i := z]> (a :: l)) with (a :: <[i := z]> l).
    change ((a :: l) !! S i) with (l !! i) in Hi.
    cbn. rewrite (IH i Hi Hy Hz). reflexivity.
Qed.

Lemma In_insert_new {A} (l : list A) i (y z : A) :
  l !! i = Some y -> In z (<[i := z]> l).
Proof.
  revert i. induction l as [|a l IH]; intros i Hi; [discriminate|].
  destruct i as [|i].
  - now left.
  - change (<[S i := z]> (a :: l)) with (a :: <[i := z]> l). right.
    apply (IH i). exact Hi.
Qed.

Lemma lookup_insert_same {A} (l : list A) i (y z : A) :
  l !! i = Some y -> <[i := z]> l !! i = Some z.
Proof.
  revert i. induction l as [|a l IH]; intros i Hi; [discriminate|].
  destruct i as [|i]; [reflexivity|]. exact (IH i Hi).
Qed.


Section FanOutFacts.

Context {W : Type}.
Variable env : Collaborators W.

Lemma warnLines_warnings l : invalidTokenWarnings (warnLines l) = l.
Proof.
  induction l as [|[tok mid] l IH]; [reflexivity|]. cbn. now f_equal.
Qed.

Lemma warnLines_requests l : orderBookRequests (warnLines l) = [].
Proof. induction l as [|p l IH]; [reflexivity | exact IH]. Qed.

Lemma warnLines_fetchEvents l : Forall fetchEvent (warnLines l).
Proof. induction l as [|p l IH]; constructor; [exact I | exact IH]. Qed.

(** A fetch that does not abort is answered with the safe result, and a
    warning if the side failed. *)
Lemma answered_safe (st : Engine W) m tokenId :
  sideAborts env (world st) tokenId = false ->
  answered (getOrderBookTopSafe env tokenId (Market.marketId m)) st
  = mkRun (Resolved (safeResult env (world st) tokenId)) st
      (warnLines (warning env (world st) m tokenId)).
Proof.
  rewrite getOrderBookTopSafe_answered.
  unfold sideAborts, safeResult, warning, sideTop, sideFailed.
  destruct (getOrderBookTop env tokenId (world st)) as [t|[x|x|x]];
    cbn; try discriminate; reflexivity.
Qed.

Lemma answered_aborts (st : Engine W) m tokenId :
  sideAborts env (world st) tokenId = true ->
  exists e,
    answered (getOrderBookTopSafe env tokenId (Market.marketId m)) st
    = mkRun (Rejected e) st []
    /\ getOrderBookTop env tokenId (world st) = Rejected e
    /\ isOrderbookNotFound e = false.
Proof.
  rewrite getOrderBookTopSafe_answered. unfold sideAborts.
  destruct (getOrderBookTop env tokenId (world st)) as [t|[x|x|x]];
    cbn; try discriminate; intros _; eexists; repeat split.
Qed.

Lemma settlementOf_safe w tokenId :
  settlementOf (Resolved (safeResult env w tokenId)) <> Limiter.Failure.
Proof. cbn. destruct (sideFailed env w tokenId); discriminate. Qed.

End FanOutFacts.


Lemma collect_In {B} (h : Market.t -> Limiter.Task -> list B) ms :
  forall ts i m t x,
    ms !! i = Some m -> ts !! i = Some t -> In x (h m t) -> In x (collect h ms ts).
Proof.
  unfold collect.
  induction ms as [|m0 ms IH]; intros ts i m t x Hm Ht Hx; [discriminate|].
  destruct ts as [|t0 ts]; [discriminate|].
  cbn [combine flat_map fst snd]. apply in_or_app.
  destruct i as [|i].
  - injection Hm as ->. injection Ht as ->. now left.
  - right. exact (IH ts i m t x Hm Ht Hx).
Qed.

Lemma In_replicate {A} (x y : A) n : In x (replicate n y) -> x = y.
Proof. induction n as [|n IH]; cbn; [tauto|]. intros [H|H]; auto. Qed.

Section FanOutSteps.

Context {W : Type}.
Variable env : Collaborators W.
Variable markets : list Market.t.
Variable st : Engine W.
Variable c : Counters.

Lemma fanOutStart_consistent :
  Consistent env (world st) markets c (fanOutStart markets c) [].
Proof.
  constructor; cbn [fanOutStart limiter yesResults snapshots counters rejection
                    Limiter.fanOut Limiter.tasks].
  - apply length_replicate.
  - apply length_replicate.
  - apply length_replicate.
  - unfold Limiter.balanced, Limiter.fanOut. cbn [Limiter.permits Limiter.tasks].
    rewrite LimiterFacts.inFlight_replicate. apply Nat.add_0_r.
  - intros i m t _ Ht. apply lookup_replicate in Ht. destruct Ht as [-> _]. exact I.
  - rewrite collect_waiting by reflexivity. unfold lengthOf.
    cbn [List.length Z.of_nat]. lia.
  - rewrite collect_waiting by reflexivity. unfold lengthOf.
    cbn [List.length Z.of_nat]. lia.
  - discriminate.
  - intros H. apply In_replicate in H. discriminate.
  - congruence.
  - rewrite collect_waiting by reflexivity. constructor.
  - rewrite collect_waiting by reflexivity. constructor.
  - constructor.
Qed.

(** The task of market [i] moves from [t] to [t'], producing [evs']: what it
    takes for the books to stay consistent. *)
Lemma moved_consistent f f' evs evs' a i m t t' sidesExtra marketsExtra :
  Consistent env (world st) markets c f evs ->
  markets !! i = Some m ->
  Limiter.tasks (limiter f) !! i = Some t ->
  Limiter.step a (limiter f) = Some (limiter f') ->
  Limiter.tasks (limiter f') = <[i := t']> (Limiter.tasks (limiter f)) ->
  List.length (yesResults f') = List.length (yesResults f) ->
  List.length (snapshots f') = List.length (snapshots f) ->
  (forall j, j <> i ->
     yesResults f' !! j = yesResults f !! j /\ snapshots f' !! j = snapshots f !! j) ->
  taskHolds env (world st) m t' (default None (yesResults f' !! i))
    (default None (snapshots f' !! i)) ->
  orderbookFailures (counters f')
  = orderbookFailures (counters f) + lengthOf sidesExtra ->
  Permutation (talliedSides env (world st) m t')
    (talliedSides env (world st) m t ++ sidesExtra) ->
  marketsWithOrderbookFailures (counters f')
  = marketsWithOrderbookFailures (counters f) + lengthOf marketsExtra ->
  Permutation (talliedMarkets env (world st) m t')
    (talliedMarkets env (world st) m t ++ marketsExtra) ->
  t <> Limiter.Failed ->
  ((t' <> Limiter.Failed /\ rejection f' = rejection f)
   \/ (t' = Limiter.Failed
       /\ exists e tokenId,
            rejection f' = firstRejection (rejection f) e
            /\ In tokenId (requestsOf env (world st) m t)
            /\ getOrderBookTop env tokenId (world st) = Rejected e
            /\ isOrderbookNotFound e = false)) ->
  Permutation (requestsOf env (world st) m t')
    (requestsOf env (world st) m t ++ orderBookRequests evs') ->
  Permutation (warningsOf env (world st) m t')
    (warningsOf env (world st) m t ++ invalidTokenWarnings evs') ->
  Forall fetchEvent evs' ->
  Consistent env (world st) markets c f' (evs ++ evs').
Proof.
  intros [Hlt Hly Hls Hbal Hhold Hfc Hmc Hrej Hfr Hrf Hreq Hwarn Hev]
    Hm Ht Hstep Htasks Hy Hs Hother Hnew Hsides Hsp Hmk Hmp Hnf Hr Hrq Hwn Hev'.
  assert (Hi : (i < List.length (Limiter.tasks (limiter f)))%nat)
    by (eapply lookup_lt_Some; exact Ht).
  constructor.
  - rewrite Htasks, length_insert. exact Hlt.
  - congruence.
  - congruence.
  - exact (LimiterFacts.step_balanced _ _ _ Hstep Hbal).
  - intros j m' t'' Hm' Ht''. rewrite Htasks in Ht''.
    destruct (Nat.eq_dec j i) as [-> | Hne].
    + rewrite (lookup_insert_same _ i t t' Ht) in Ht''.
      injection Ht'' as <-. rewrite Hm in Hm'. injection Hm' as <-. exact Hnew.
    + rewrite list_lookup_insert_ne in Ht'' by congruence.
      destruct (Hother j Hne) as [-> ->]. now apply Hhold.
  - rewrite Hsides, Hfc, Htasks. unfold lengthOf.
    rewrite (Permutation_length
               (collect_update (talliedSides env (world st)) markets _ i m t t'
                  sidesExtra Hm Ht Hsp)).
    rewrite length_app. lia.
  - rewrite Hmk, Hmc, Htasks. unfold lengthOf.
    rewrite (Permutation_length
               (collect_update (talliedMarkets env (world st)) markets _ i m t t'
                  marketsExtra Hm Ht Hmp)).
    rewrite length_app. lia.
  - intros e He.
    assert (Hold : forall e0, rejection f = Some e0 ->
              exists tokenId,
                In tokenId (orderBookRequests (evs ++ evs'))
                /\ getOrderBookTop env tokenId (world st) = Rejected e0
                /\ isOrderbookNotFound e0 = false).
    { intros e0 He0. destruct (Hrej e0 He0) as (tok & Hin & Hget & Hnot).
      exists tok. split; [|now split].
      unfold orderBookRequests in *. rewrite flat_map_app. apply in_or_app. now left. }
    destruct Hr as [[_ Hsame] | (_ & e0 & tok & Hfirst & Hin & Hget & Hnot)].
    + apply Hold. congruence.
    + rewrite Hfirst in He. destruct (rejection f) as [e1|] eqn:Hr1.
      * injection He as <-. now apply Hold.
      * injection He as <-. exists tok. split; [|now split].
        unfold orderBookRequests in *. rewrite flat_map_app. apply in_or_app. left.
        apply (Permutation_in _ (Permutation_sym Hreq)).
        exact (collect_In _ markets _ i m t tok Hm Ht Hin).
  - intros Hin. destruct Hr as [[Hne Hsame] | (_ & e0 & tok & Hfirst & _)].
    + rewrite Hsame. apply Hfr. rewrite Htasks in Hin.
      apply (In_insert_other _ i Limiter.Failed t t' Ht) in Hin; congruence.
    + rewrite Hfirst. destruct (rejection f); discriminate.
  - intros Hne. rewrite Htasks.
    destruct Hr as [[Hnt Hsame] | (-> & _)].
    + apply (In_insert_other _ i Limiter.Failed t t' Ht); try congruence.
      apply Hrf. congruence.
    + eapply In_insert_new. exact Ht.
  - unfold orderBookRequests in *. rewrite flat_map_app, Htasks.
    rewrite (collect_update (requestsOf env (world st)) markets _ i m t t' _ Hm Ht Hrq).
    now apply Permutation_app_tail.
  - unfold invalidTokenWarnings in *. rewrite flat_map_app, Htasks.
    rewrite (collect_update (warningsOf env (world st)) markets _ i m t t' _ Hm Ht Hwn).
    now apply Permutation_app_tail.
  - apply List.Forall_app. now split.
Qed.

End FanOutSteps.


Section FanOutTurns.

Context {W : Type}.
Variable env : Collaborators W.
Variable markets : list Market.t.
Variable st : Engine W.
Variable c : Counters.

Lemma lengthOf_nil {A} : lengthOf (@nil A) = 0.
Proof. reflexivity. Qed.

Lemma tally_failures w m c0 :
  orderbookFailures
    (tally (safeResult env w (Market.yesTokenId m))
       (safeResult env w (Market.noTokenId m)) c0)
  = orderbookFailures c0
    + lengthOf (warning env w m (Market.yesTokenId m)
                  ++ warning env w m (Market.noTokenId m)).
Proof.
  unfold tally, safeResult, warning, lengthOf. cbn [failed].
  destruct (sideFailed env w (Market.yesTokenId m));
    destruct (sideFailed env w (Market.noTokenId m)); cbn; lia.
Qed.

Lemma tally_markets w m c0 :
  marketsWithOrderbookFailures
    (tally (safeResult env w (Market.yesTokenId m))
       (safeResult env w (Market.noTokenId m)) c0)
  = marketsWithOrderbookFailures c0
    + lengthOf (talliedMarkets env w m Limiter.Fulfilled).
Proof.
  unfold tally, safeResult, talliedMarkets, marketFailed, lengthOf. cbn [failed isFulfilled].
  destruct (sideFailed env w (Market.yesTokenId m));
    destruct (sideFailed env w (Market.noTokenId m)); cbn; lia.
Qed.

Lemma fanOutTurn_consistent t f f' evs evs' :
  Consistent env (world st) markets c f evs ->
  fanOutTurn env markets st t f = Some (f', evs') ->
  Consistent env (world st) markets c f' (evs ++ evs').
Proof.
  intros Hc Hturn. destruct t as [i | i |]; cbn [fanOutTurn] in Hturn;
    [| |discriminate].
  - (* the limiter admits task [i] *)
    destruct (markets !! i) as [m|] eqn:Hm; [|discriminate].
    destruct (Limiter.step (Limiter.Grant i) (limiter f)) as [l|] eqn:Hstep;
      [|discriminate].
    injection Hturn as <- <-. rewrite getOrderBookTopSafe_requested.
    pose proof Hstep as Hl. cbn [Limiter.step] in Hl.
    destruct (Limiter.tasks (limiter f) !! i) as [[| | | |]|] eqn:Ht; try discriminate.
    destruct (Limiter.permits (limiter f)) as [|p]; [discriminate|].
    injection Hl as <-.
    eapply (moved_consistent env markets st c f _ evs _ _ i m Limiter.Waiting
              Limiter.FetchingYes [] [] Hc Hm Ht);
      cbn [limiter yesResults snapshots counters rejection Limiter.tasks
           taskHolds talliedSides talliedMarkets isFulfilled andb requestsOf
           warningsOf orderBookRequests invalidTokenWarnings flat_map app].
    + exact Hstep.
    + reflexivity.
    + reflexivity.
    + reflexivity.
    + intros j _. now split.
    + exact I.
    + rewrite lengthOf_nil. lia.
    + reflexivity.
    + rewrite lengthOf_nil. lia.
    + reflexivity.
    + discriminate.
    + left. split; [discriminate | reflexivity].
    + reflexivity.
    + reflexivity.
    + repeat constructor.
  - destruct (markets !! i) as [m|] eqn:Hm; [|discriminate].
    destruct (Limiter.tasks (limiter f) !! i) as [[| | | |]|] eqn:Ht; try discriminate.
    + (* the YES fetch of task [i] settles *)
      destruct (sideAborts env (world st) (Market.yesTokenId m)) eqn:Hy.
      * destruct (answered_aborts env st m _ Hy) as (e & Hans & Hget & Hnot).
        rewrite Hans in Hturn. cbn [outcome events settlementOf Limiter.step] in Hturn.
        rewrite Ht in Hturn. injection Hturn as <- <-.
        eapply (moved_consistent env markets st c f _ evs _
                  (Limiter.YesSettles i Limiter.Failure) i m Limiter.FetchingYes
                  Limiter.Failed [] [] Hc Hm Ht);
          cbn [limiter yesResults snapshots counters rejection Limiter.tasks
               Limiter.taskAfter taskHolds talliedSides talliedMarkets isFulfilled
               andb requestsOf warningsOf orderBookRequests invalidTokenWarnings
               flat_map app Limiter.step].
        -- now rewrite Ht.
        -- reflexivity.
        -- reflexivity.
        -- reflexivity.
        -- intros j _. now split.
        -- unfold marketAborts. now rewrite Hy.
        -- rewrite lengthOf_nil. lia.
        -- reflexivity.
        -- rewrite lengthOf_nil. lia.
        -- reflexivity.
        -- discriminate.
        -- right. split; [reflexivity|]. exists e, (Market.yesTokenId m).
           split; [reflexivity|]. split; [now left|]. now split.
        -- rewrite Hy. reflexivity.
        -- rewrite Hy. reflexivity.
        -- constructor.
      * rewrite (answered_safe env st m _ Hy) in Hturn.
        cbn [outcome events] in Hturn.
        pose proof (settlementOf_safe env (world st) (Market.yesTokenId m)) as Hs.
        cbn [Limiter.step] in Hturn. rewrite Ht in Hturn.
        injection Hturn as <- <-. rewrite getOrderBookTopSafe_requested.
        assert (Hafter : Limiter.taskAfter
                           (settlementOf
                              (Resolved (safeResult env (world st) (Market.yesTokenId m))))
                           Limiter.FetchingNo = Limiter.FetchingNo).
        { destruct (settlementOf _); [reflexivity | reflexivity | congruence]. }
        assert (Hyi : exists y, yesResults f !! i = Some y).
        { apply lookup_lt_is_Some_2. rewrite (yesResults_length _ _ _ _ _ _ Hc).
          rewrite <- (tasks_length _ _ _ _ _ _ Hc). eapply lookup_lt_Some. exact Ht. }
        destruct Hyi as [y0 Hy0].
        eapply (moved_consistent env markets st c f _ evs _
                  (Limiter.YesSettles i
                     (settlementOf
                        (Resolved (safeResult env (world st) (Market.yesTokenId m)))))
                  i m Limiter.FetchingYes Limiter.FetchingNo [] [] Hc Hm Ht);
          cbn [limiter yesResults snapshots counters rejection Limiter.tasks
               taskHolds talliedSides talliedMarkets isFulfilled
               andb requestsOf warningsOf Limiter.step].
        -- rewrite Ht. reflexivity.
        -- f_equal. now destruct (sideFailed env (world st) _).
        -- apply length_insert.
        -- reflexivity.
        -- intros j Hj. split; [|reflexivity]. apply list_lookup_insert_ne. congruence.
        -- split; [exact Hy|]. now rewrite (lookup_insert_same _ i y0 _ Hy0).
        -- rewrite lengthOf_nil. lia.
        -- reflexivity.
        -- rewrite lengthOf_nil. lia.
        -- reflexivity.
        -- discriminate.
        -- left. split; [discriminate | reflexivity].
        -- unfold orderBookRequests. rewrite flat_map_app.
           fold (orderBookRequests
                   (warnLines (warning env (world st) m (Market.yesTokenId m)))).
           rewrite warnLines_requests. reflexivity.
        -- unfold invalidTokenWarnings. rewrite flat_map_app.
           fold (invalidTokenWarnings
                   (warnLines (warning env (world st) m (Market.yesTokenId m)))).
           rewrite warnLines_warnings. cbn [flat_map app]. now rewrite app_nil_r.
        -- apply List.Forall_app. split; [apply warnLines_fetchEvents|].
           repeat constructor.
    + (* the NO fetch of task [i] settles *)
      pose proof (tasks_hold _ _ _ _ _ _ Hc i m _ Hm Ht) as [Hy Hyes].
      cbn [taskHolds] in Hy, Hyes.
      destruct (yesResults f !! i) as [[yesResult|]|] eqn:Hyi; try discriminate.
      cbn [default] in Hyes. injection Hyes as ->.
      destruct (sideAborts env (world st) (Market.noTokenId m)) eqn:Hn.
      * destruct (answered_aborts env st m _ Hn) as (e & Hans & Hget & Hnot).
        rewrite Hans in Hturn. cbn [outcome events settlementOf Limiter.step] in Hturn.
        rewrite Ht in Hturn. injection Hturn as <- <-.
        eapply (moved_consistent env markets st c f _ evs _
                  (Limiter.NoSettles i Limiter.Failure) i m Limiter.FetchingNo
                  Limiter.Failed [] [] Hc Hm Ht);
          cbn [limiter yesResults snapshots counters rejection Limiter.tasks
               Limiter.taskAfter taskHolds talliedSides talliedMarkets isFulfilled
               andb requestsOf warningsOf orderBookRequests invalidTokenWarnings
               flat_map app Limiter.step].
        -- now rewrite Ht.
        -- reflexivity.
        -- reflexivity.
        -- reflexivity.
        -- intros j _. now split.
        -- unfold marketAborts. rewrite Hn. apply orb_true_r.
        -- rewrite lengthOf_nil. lia.
        -- reflexivity.
        -- rewrite lengthOf_nil. lia.
        -- reflexivity.
        -- discriminate.
        -- right. split; [reflexivity|]. exists e, (Market.noTokenId m).
           split; [reflexivity|]. split; [right; now left|]. now split.
        -- rewrite Hy. reflexivity.
        -- rewrite Hy. now rewrite app_nil_r.
        -- constructor.
      * rewrite (answered_safe env st m _ Hn) in Hturn.
        cbn [outcome events] in Hturn.
        pose proof (settlementOf_safe env (world st) (Market.noTokenId m)) as Hs.
        cbn [Limiter.step] in Hturn. rewrite Ht in Hturn.
        injection Hturn as <- <-.
        assert (Hafter : Limiter.taskAfter
                           (settlementOf
                              (Resolved (safeResult env (world st) (Market.noTokenId m))))
                           Limiter.Fulfilled = Limiter.Fulfilled).
        { destruct (settlementOf _); [reflexivity | reflexivity | congruence]. }
        assert (Hsi : exists s, snapshots f !! i = Some s).
        { apply lookup_lt_is_Some_2. rewrite (snapshots_length _ _ _ _ _ _ Hc).
          rewrite <- (tasks_length _ _ _ _ _ _ Hc). eapply lookup_lt_Some. exact Ht. }
        destruct Hsi as [s0 Hs0].
        eapply (moved_consistent env markets st c f _ evs _
                  (Limiter.NoSettles i
                     (settlementOf
                        (Resolved (safeResult env (world st) (Market.noTokenId m)))))
                  i m Limiter.FetchingNo Limiter.Fulfilled
                  (warning env (world st) m (Market.yesTokenId m)
                     ++ warning env (world st) m (Market.noTokenId m))
                  (talliedMarkets env (world st) m Limiter.Fulfilled) Hc Hm Ht);
          cbn [limiter yesResults snapshots counters rejection Limiter.tasks
               taskHolds talliedSides isFulfilled
               andb requestsOf warningsOf Limiter.step].
        -- rewrite Ht. reflexivity.
        -- f_equal. now destruct (sideFailed env (world st) _).
        -- reflexivity.
        -- apply length_insert.
        -- intros j Hj. split; [reflexivity|]. apply list_lookup_insert_ne. congruence.
        -- split.
           ++ unfold marketAborts. now rewrite Hy, Hn.
           ++ now rewrite (lookup_insert_same _ i s0 _ Hs0).
        -- apply tally_failures.
        -- reflexivity.
        -- apply tally_markets.
        -- unfold talliedMarkets at 2. cbn [isFulfilled andb app]. reflexivity.
        -- discriminate.
        -- left. split; [discriminate | reflexivity].
        -- rewrite warnLines_requests. now rewrite app_nil_r.
        -- now rewrite warnLines_warnings.
        -- apply warnLines_fetchEvents.
Qed.

End FanOutTurns.


Section FanOutRuns.

Context {W : Type}.
Variable env : Collaborators W.
Variable markets : list Market.t.
Variable st : Engine W.
Variable c : Counters.

Lemma fanOutRun_consistent turns : forall f evs f' evs',
  Consistent env (world st) markets c f evs ->
  fanOutRun env markets st turns f = (f', evs') ->
  Consistent env (world st) markets c f' (evs ++ evs').
Proof.
  induction turns as [|t later IH]; intros f evs f' evs' Hc Hrun.
  - injection Hrun as <- <-. now rewrite app_nil_r.
  - cbn [fanOutRun] in Hrun.
    assert (Hturn : forall t0, t0 = t -> t0 <> Resume ->
              match fanOutTurn env markets st t0 f with
              | Some (f1, evs1) =>
                  match fanOutRun env markets st later f1 with
                  | (f2, evs2) => (f2, evs1 ++ evs2)
                  end
              | None => fanOutRun env markets st later f
              end = (f', evs') ->
              Consistent env (world st) markets c f' (evs ++ evs')).
    { intros t0 _ _ H.
      destruct (fanOutTurn env markets st t0 f) as [[f1 evs1]|] eqn:Ht.
      - destruct (fanOutRun env markets st later f1) as [f2 evs2] eqn:Hl.
        injection H as <- <-. rewrite app_assoc.
        eapply IH; [|exact Hl]. eapply fanOutTurn_consistent; eassumption.
      - eapply IH; eassumption. }
    destruct t as [i | i |].
    + apply (Hturn (Admit i)); [reflexivity | discriminate | exact Hrun].
    + apply (Hturn (Settle i)); [reflexivity | discriminate | exact Hrun].
    + destruct (resumable f).
      * injection Hrun as <- <-. now rewrite app_nil_r.
      * eapply IH; eassumption.
Qed.

Lemma takeTurn_reachable t f :
  Reachable env markets st c f -> Reachable env markets st c (takeTurn env markets st t f).
Proof.
  intros [evs Hc]. unfold takeTurn.
  destruct (fanOutTurn env markets st t f) as [[f' evs']|] eqn:Ht; [|now exists evs].
  exists (evs ++ evs'). eapply fanOutTurn_consistent; eassumption.
Qed.

Lemma takeTurns_reachable turns : forall f,
  Reachable env markets st c f -> Reachable env markets st c (takeTurns env markets st turns f).
Proof.
  induction turns as [|t later IH]; intros f Hf; [exact Hf|].
  apply IH, takeTurn_reachable, Hf.
Qed.

Lemma takeTurns_app turns turns' f :
  takeTurns env markets st (turns ++ turns') f
  = takeTurns env markets st turns' (takeTurns env markets st turns f).
Proof. apply fold_left_app. Qed.

(** A run either ends with the scan able to resume, or has taken every
    turn. *)
Lemma fanOutRun_ends turns : forall f f' evs',
  fanOutRun env markets st turns f = (f', evs') ->
  resumable f' = true \/ f' = takeTurns env markets st turns f.
Proof.
  induction turns as [|t later IH]; intros f f' evs' Hrun.
  - injection Hrun as <- _. now right.
  - cbn [fanOutRun] in Hrun. cbn [takeTurns fold_left].
    fold (takeTurns env markets st later (takeTurn env markets st t f)).
    assert (Hturn : forall t0, t0 = t ->
              match fanOutTurn env markets st t0 f with
              | Some (f1, evs1) =>
                  match fanOutRun env markets st later f1 with
                  | (f2, evs2) => (f2, evs1 ++ evs2)
                  end
              | None => fanOutRun env markets st later f
              end = (f', evs') ->
              resumable f' = true
              \/ f' = takeTurns env markets st later (takeTurn env markets st t0 f)).
    { intros t0 _ H. unfold takeTurn.
      destruct (fanOutTurn env markets st t0 f) as [[f1 evs1]|] eqn:Ht.
      - destruct (fanOutRun env markets st later f1) as [f2 evs2] eqn:Hl.
        injection H as <- _. eapply IH. exact Hl.
      - eapply IH. exact H. }
    destruct t as [i | i |].
    + now apply Hturn.
    + now apply Hturn.
    + destruct (resumable f) eqn:Hres.
      * injection Hrun as <- _. now left.
      * apply (IH _ _ _ Hrun).
Qed.

End FanOutRuns.


Section FanOutProgress.

Context {W : Type}.
Variable env : Collaborators W.
Variable markets : list Market.t.
Variable st : Engine W.
Variable c : Counters.

(** What a turn does to the tasks. *)
Lemma fanOutTurn_moves t f f' evs :
  fanOutTurn env markets st t f = Some (f', evs) ->
  exists i old new,
    taskAt f i = Some old
    /\ Limiter.tasks (limiter f') = <[i := new]> (Limiter.tasks (limiter f))
    /\ ((t = Admit i /\ old = Limiter.Waiting /\ new = Limiter.FetchingYes)
        \/ (t = Settle i /\ old = Limiter.FetchingYes
            /\ (new = Limiter.FetchingNo \/ new = Limiter.Failed))
        \/ (t = Settle i /\ old = Limiter.FetchingNo
            /\ (new = Limiter.Fulfilled \/ new = Limiter.Failed))).
Proof.
  unfold taskAt. destruct t as [i | i |]; cbn [fanOutTurn]; [| |discriminate].
  - destruct (markets !! i) as [m|]; [|discriminate]. cbn [Limiter.step].
    destruct (Limiter.tasks (limiter f) !! i) as [[| | | |]|] eqn:Ht; try discriminate.
    destruct (Limiter.permits (limiter f)); [discriminate|].
    intros [= <- _]. exists i, Limiter.Waiting, Limiter.FetchingYes.
    split; [exact Ht|]. split; [reflexivity|]. left. repeat split.
  - destruct (markets !! i) as [m|]; [|discriminate].
    destruct (Limiter.tasks (limiter f) !! i) as [[| | | |]|] eqn:Ht; try discriminate.
    + cbn [Limiter.step]. rewrite Ht.
      destruct (outcome (answered _ st)) as [x|e]; intros [= <- _];
        exists i, Limiter.FetchingYes; eexists; (split; [exact Ht|]);
        (split; [reflexivity|]); right; left; (split; [reflexivity|]);
        (split; [reflexivity|]); cbn [settlementOf Limiter.taskAfter limiter];
        [destruct (failed x); now left | now right].
    + destruct (yesResults f !! i) as [[y|]|]; try discriminate.
      cbn [Limiter.step]. rewrite Ht.
      destruct (outcome (answered _ st)) as [x|e]; intros [= <- _];
        exists i, Limiter.FetchingNo; eexists; (split; [exact Ht|]);
        (split; [reflexivity|]); right; right; (split; [reflexivity|]);
        (split; [reflexivity|]); cbn [settlementOf Limiter.taskAfter limiter];
        [destruct (failed x); now left | now right].
Qed.

Lemma takeTurn_Resume f : takeTurn env markets st Resume f = f.
Proof. reflexivity. Qed.

Lemma market_of_task f i t :
  Reachable env markets st c f -> taskAt f i = Some t -> exists m, markets !! i = Some m.
Proof.
  intros [evs Hc] Ht. apply lookup_lt_is_Some_2.
  rewrite <- (tasks_length _ _ _ _ _ _ Hc). eapply lookup_lt_Some. exact Ht.
Qed.

(** A turn of task [i] leaves the other tasks where they are. *)
Lemma takeTurn_other t f i j :
  t = Admit i \/ t = Settle i -> j <> i ->
  taskAt (takeTurn env markets st t f) j = taskAt f j.
Proof.
  intros Ht Hne. unfold takeTurn.
  destruct (fanOutTurn env markets st t f) as [[f' evs]|] eqn:Hturn; [|reflexivity].
  destruct (fanOutTurn_moves _ _ _ _ Hturn) as (i' & old & new & _ & Htasks & Hcases).
  assert (i' = i) as ->.
  { destruct Ht as [-> | ->];
      destruct Hcases as [(H & _) | [(H & _) | (H & _)]]; congruence. }
  unfold taskAt. rewrite Htasks. apply list_lookup_insert_ne. congruence.
Qed.

(** A fetch in flight can always settle. *)
Lemma settle_in_flight f i :
  Reachable env markets st c f -> inFlightAt f i ->
  taskAt f i = Some Limiter.FetchingYes
  /\ (taskAt (takeTurn env markets st (Settle i) f) i = Some Limiter.FetchingNo
      \/ taskAt (takeTurn env markets st (Settle i) f) i = Some Limiter.Failed)
  \/ taskAt f i = Some Limiter.FetchingNo
     /\ (taskAt (takeTurn env markets st (Settle i) f) i = Some Limiter.Fulfilled
         \/ taskAt (takeTurn env markets st (Settle i) f) i = Some Limiter.Failed).
Proof.
  intros Hf Hin.
  assert (Hturn : exists f' evs, fanOutTurn env markets st (Settle i) f = Some (f', evs)).
  { destruct Hin as [Ht | Ht]; destruct (market_of_task f i _ Hf Ht) as [m Hm];
      unfold taskAt in Ht; cbn [fanOutTurn]; rewrite Hm, Ht; cbn [Limiter.step];
      rewrite Ht.
    - destruct (outcome (answered _ st)); eexists _, _; reflexivity.
    - destruct Hf as [evs Hc].
      pose proof (tasks_hold _ _ _ _ _ _ Hc i m _ Hm Ht) as [_ Hy].
      destruct (yesResults f !! i) as [[y|]|]; try discriminate.
      destruct (outcome (answered _ st)); eexists _, _; reflexivity. }
  destruct Hturn as (f' & evs & Hturn). unfold takeTurn. rewrite Hturn.
  destruct (fanOutTurn_moves _ _ _ _ Hturn) as (i' & old & new & Hold & Htasks & Hcases).
  assert (Hnew : forall x, taskAt f i' = Some x -> taskAt f' i' = Some new).
  { intros x Hx. unfold taskAt. rewrite Htasks. eapply lookup_insert_same. exact Hx. }
  destruct Hcases as [(H & _) | [(H & -> & Hn) | (H & -> & Hn)]];
    try discriminate; injection H as <-; rewrite (Hnew _ Hold).
  - left. split; [exact Hold|]. destruct Hn as [-> | ->]; auto.
  - right. split; [exact Hold|]. destruct Hn as [-> | ->]; auto.
Qed.

(** A task that has no fetch in flight is left alone by a [Settle] turn. *)
Lemma settle_idle f i j :
  ~ inFlightAt f j -> taskAt (takeTurn env markets st (Settle i) f) j = taskAt f j.
Proof.
  intros Hidle. destruct (Nat.eq_dec j i) as [-> | Hne];
    [|apply (takeTurn_other _ _ i); auto].
  unfold takeTurn.
  destruct (fanOutTurn env markets st (Settle i) f) as [[f' evs]|] eqn:Hturn;
    [|reflexivity].
  destruct (fanOutTurn_moves _ _ _ _ Hturn) as (i' & old & new & Hold & _ & Hcases).
  exfalso. apply Hidle.
  destruct Hcases as [(H & _) | [(H & -> & _) | (H & -> & _)]];
    try discriminate; injection H as <-; [now left | now right].
Qed.

End FanOutProgress.


Section FanOutCompletion.

Context {W : Type}.
Variable env : Collaborators W.
Variable markets : list Market.t.
Variable st : Engine W.
Variable c : Counters.

Lemma takeTurns_resumes turns f :
  takeTurns env markets st (flat_map (fun t => [t; Resume]) turns) f
  = takeTurns env markets st turns f.
Proof.
  revert f. induction turns as [|t later IH]; intros f; [reflexivity|].
  cbn [flat_map app takeTurns fold_left]. rewrite takeTurn_Resume. apply IH.
Qed.

Lemma settle_keeps_idle f i j :
  ~ inFlightAt f j -> ~ inFlightAt (takeTurn env markets st (Settle i) f) j.
Proof.
  intros Hidle. unfold inFlightAt. now rewrite (settle_idle env markets st f i j Hidle).
Qed.

(** Two [Settle] turns bring a task out of flight. *)
Lemma settled_twice f i :
  Reachable env markets st c f ->
  ~ inFlightAt (takeTurns env markets st [Settle i; Settle i] f) i.
Proof.
  intros Hf. cbn [takeTurns fold_left].
  set (f1 := takeTurn env markets st (Settle i) f).
  assert (Hf1 : Reachable env markets st c f1) by now apply takeTurn_reachable.
  assert (Hdone : forall g, Reachable env markets st c g ->
            taskAt g i = Some Limiter.FetchingNo ->
            ~ inFlightAt (takeTurn env markets st (Settle i) g) i).
  { intros g Hg Ht.
    destruct (settle_in_flight env markets st c g i Hg (or_intror Ht))
      as [[Hy _] | [_ [H | H]]]; [congruence | |];
      unfold inFlightAt; rewrite H; intros [? | ?]; discriminate. }
  assert (Hfailed : forall g, taskAt g i = Some Limiter.Failed -> ~ inFlightAt g i).
  { intros g Ht. unfold inFlightAt. rewrite Ht. intros [? | ?]; discriminate. }
  destruct (taskAt f i) as [[| | | |]|] eqn:Ht.
  - apply settle_keeps_idle, settle_keeps_idle.
    unfold inFlightAt. rewrite Ht. intros [? | ?]; discriminate.
  - destruct (settle_in_flight env markets st c f i Hf (or_introl Ht))
      as [[_ [H | H]] | [Hn _]]; [| |congruence]; fold f1 in H.
    + now apply Hdone.
    + now apply settle_keeps_idle, Hfailed.
  - apply settle_keeps_idle. now apply Hdone.
  - apply settle_keeps_idle, settle_keeps_idle.
    unfold inFlightAt. rewrite Ht. intros [? | ?]; discriminate.
  - apply settle_keeps_idle, settle_keeps_idle.
    unfold inFlightAt. rewrite Ht. intros [? | ?]; discriminate.
  - apply settle_keeps_idle, settle_keeps_idle.
    unfold inFlightAt. rewrite Ht. intros [? | ?]; discriminate.
Qed.

(** First phase of [completion]: no fetch is left in flight. *)
Lemma settle_all indices : forall f,
  Reachable env markets st c f ->
  let f' := takeTurns env markets st
              (flat_map (fun i => [Settle i; Settle i]) indices) f in
  (forall j, In j indices -> ~ inFlightAt f' j)
  /\ (forall j, ~ inFlightAt f j -> ~ inFlightAt f' j).
Proof.
  induction indices as [|i rest IH]; intros f Hf; cbn zeta.
  - split; [intros j [] | auto].
  - cbn [flat_map]. rewrite takeTurns_app.
    set (f1 := takeTurns env markets st [Settle i; Settle i] f).
    assert (Hf1 : Reachable env markets st c f1) by now apply takeTurns_reachable.
    destruct (IH f1 Hf1) as [Hin Hkeep]. split.
    + intros j [<- | Hj]; [|now apply Hin].
      apply Hkeep. now apply settled_twice.
    + intros j Hj. apply Hkeep. subst f1. cbn [takeTurns fold_left].
      now apply settle_keeps_idle, settle_keeps_idle.
Qed.

Lemma none_in_flight f :
  (forall j, ~ inFlightAt f j) -> Limiter.inFlight (Limiter.tasks (limiter f)) = 0%nat.
Proof.
  unfold inFlightAt, taskAt. generalize (Limiter.tasks (limiter f)).
  induction l as [|t l IH]; intros H; [reflexivity|].
  rewrite LimiterFacts.inFlight_cons, IH.
  - specialize (H 0%nat). cbn in H. destruct t; cbn; try reflexivity; exfalso; auto.
  - intros j. exact (H (S j)).
Qed.

(** With no fetch in flight a permit is free: a waiting task is admitted. *)
Lemma admit_waiting f i :
  Reachable env markets st c f -> (forall j, ~ inFlightAt f j) ->
  taskAt f i = Some Limiter.Waiting ->
  taskAt (takeTurn env markets st (Admit i) f) i = Some Limiter.FetchingYes.
Proof.
  intros Hf Hidle Ht. destruct (market_of_task env markets st c f i _ Hf Ht) as [m Hm].
  destruct Hf as [evs Hc].
  pose proof (limiter_balanced _ _ _ _ _ _ Hc) as Hbal.
  unfold Limiter.balanced, orderbookLimiterPermits in Hbal.
  rewrite (none_in_flight f Hidle) in Hbal.
  unfold takeTurn, taskAt in *. cbn [fanOutTurn Limiter.step]. rewrite Hm, Ht.
  destruct (Limiter.permits (limiter f)) as [|p]; [discriminate|].
  cbn [limiter Limiter.tasks]. eapply lookup_insert_same. exact Ht.
Qed.

Lemma admit_other f i :
  taskAt f i <> Some Limiter.Waiting -> takeTurn env markets st (Admit i) f = f.
Proof.
  intros Ht. unfold takeTurn.
  destruct (fanOutTurn env markets st (Admit i) f) as [[f' evs]|] eqn:Hturn;
    [|reflexivity].
  destruct (fanOutTurn_moves _ _ _ _ _ _ _ Hturn) as (i' & old & new & Hold & _ & Hcases).
  exfalso. apply Ht.
  destruct Hcases as [(H & -> & _) | [(H & _) | (H & _)]]; try discriminate.
  injection H as <-. exact Hold.
Qed.

(** A task that is admitted with no other fetch in flight runs to its
    end. *)
Lemma run_to_end f i :
  Reachable env markets st c f -> (forall j, ~ inFlightAt f j) ->
  let f' := takeTurns env markets st [Admit i; Settle i; Settle i] f in
  (taskAt f i <> None -> ~ pendingAt f' i)
  /\ (forall j, j <> i -> taskAt f' j = taskAt f j)
  /\ (forall j, ~ inFlightAt f' j).
Proof.
  intros Hf Hidle. cbn zeta. cbn [takeTurns fold_left].
  set (f1 := takeTurn env markets st (Admit i) f).
  assert (Hf1 : Reachable env markets st c f1) by now apply takeTurn_reachable.
  assert (Hother : forall j, j <> i ->
            taskAt (takeTurn env markets st (Settle i)
                      (takeTurn env markets st (Settle i) f1)) j = taskAt f j).
  { intros j Hne.
    rewrite (takeTurn_other env markets st (Settle i) _ i j) by auto.
    rewrite (takeTurn_other env markets st (Settle i) _ i j) by auto.
    apply (takeTurn_other env markets st (Admit i) _ i j); auto. }
  assert (Hsettled : ~ inFlightAt
                       (takeTurn env markets st (Settle i)
                          (takeTurn env markets st (Settle i) f1)) i).
  { exact (settled_twice f1 i Hf1). }
  split; [|split].
  - intros Hsome [Hw | Hfl]; [|contradiction].
    destruct (taskAt f i) as [[| | | |]|] eqn:Ht; try congruence.
    + pose proof (admit_waiting f i Hf Hidle Ht) as Hy. fold f1 in Hy.
      destruct (settle_in_flight env markets st c f1 i Hf1 (or_introl Hy))
        as [[_ [H | H]] | [Hn _]]; [| |congruence].
      * set (f2 := takeTurn env markets st (Settle i) f1) in *.
        assert (Hf2 : Reachable env markets st c f2) by now apply takeTurn_reachable.
        destruct (settle_in_flight env markets st c f2 i Hf2 (or_intror H))
          as [[Hy2 _] | [_ [H2 | H2]]]; congruence.
      * rewrite settle_idle in Hw; [congruence|].
        unfold inFlightAt. rewrite H. intros [? | ?]; discriminate.
    + exfalso. apply (Hidle i). now left.
    + exfalso. apply (Hidle i). now right.
    + rewrite settle_idle, settle_idle in Hw.
      * subst f1. rewrite admit_other in Hw; congruence.
      * subst f1. rewrite admit_other by congruence. apply Hidle.
      * apply settle_keeps_idle. subst f1. rewrite admit_other by congruence.
        apply Hidle.
    + rewrite settle_idle, settle_idle in Hw.
      * subst f1. rewrite admit_other in Hw; congruence.
      * subst f1. rewrite admit_other by congruence. apply Hidle.
      * apply settle_keeps_idle. subst f1. rewrite admit_other by congruence.
        apply Hidle.
  - exact Hother.
  - intros j. destruct (Nat.eq_dec j i) as [-> | Hne]; [exact Hsettled|].
    unfold inFlightAt. rewrite (Hother j Hne). apply Hidle.
Qed.

(** Second phase of [completion]: every task has returned or thrown. *)
Lemma run_all indices : forall f,
  Reachable env markets st c f -> (forall j, ~ inFlightAt f j) ->
  let f' := takeTurns env markets st
              (flat_map (fun i => [Admit i; Settle i; Settle i]) indices) f in
  (forall j, In j indices -> taskAt f j <> None -> ~ pendingAt f' j)
  /\ (forall j, ~ pendingAt f j -> ~ pendingAt f' j)
  /\ (forall j, taskAt f j = None -> taskAt f' j = None).
Proof.
  induction indices as [|i rest IH]; intros f Hf Hidle; cbn zeta.
  - split; [intros j [] | auto].
  - cbn [flat_map]. rewrite takeTurns_app.
    set (f1 := takeTurns env markets st [Admit i; Settle i; Settle i] f).
    assert (Hf1 : Reachable env markets st c f1) by now apply takeTurns_reachable.
    destruct (run_to_end f i Hf Hidle) as (Hi & Hother & Hidle1). fold f1 in Hi, Hother, Hidle1.
    destruct (IH f1 Hf1 Hidle1) as (Hin & Hkeep & Hnone).
    assert (Hstay : forall j, ~ pendingAt f j -> ~ pendingAt f1 j).
    { intros j Hj. destruct (Nat.eq_dec j i) as [-> | Hne].
      - destruct (taskAt f i) eqn:Ht; [apply Hi; congruence|].
        unfold pendingAt, inFlightAt in *.
        assert (Hn : taskAt f1 i = None).
        { subst f1. cbn [takeTurns fold_left].
          rewrite settle_idle, settle_idle.
          - rewrite admit_other by congruence. exact Ht.
          - rewrite admit_other by congruence. unfold inFlightAt. rewrite Ht.
            intros [? | ?]; discriminate.
          - apply settle_keeps_idle. rewrite admit_other by congruence.
            unfold inFlightAt. rewrite Ht. intros [? | ?]; discriminate. }
        rewrite Hn. intros [? | [? | ?]]; discriminate.
      - unfold pendingAt, inFlightAt in *. now rewrite (Hother j Hne). }
    split; [|split].
    + intros j [<- | Hj] Hsome.
      * apply Hkeep. now apply Hi.
      * destruct (Nat.eq_dec j i) as [-> | Hne]; [apply Hkeep; now apply Hi|].
        apply Hin; [exact Hj|]. now rewrite (Hother j Hne).
    + intros j Hj. apply Hkeep. now apply Hstay.
    + intros j Hj. apply Hnone.
      destruct (Nat.eq_dec j i) as [-> | Hne]; [|now rewrite (Hother j Hne)].
      subst f1. cbn [takeTurns fold_left]. rewrite settle_idle, settle_idle.
      * now rewrite admit_other by congruence.
      * rewrite admit_other by congruence. unfold inFlightAt. rewrite Hj.
        intros [? | ?]; discriminate.
      * apply settle_keeps_idle. rewrite admit_other by congruence.
        unfold inFlightAt. rewrite Hj. intros [? | ?]; discriminate.
Qed.

End FanOutCompletion.


Section FanOutEnds.

Context {W : Type}.
Variable env : Collaborators W.
Variable markets : list Market.t.
Variable st : Engine W.
Variable c : Counters.

Lemma beyond_the_tasks f j :
  Reachable env markets st c f -> (List.length markets <= j)%nat -> taskAt f j = None.
Proof.
  intros [evs Hc] Hj. unfold taskAt. apply lookup_ge_None_2.
  now rewrite (tasks_length _ _ _ _ _ _ Hc).
Qed.

(** After the turns of [completion] no task is pending. *)
Lemma completion_settles f :
  Reachable env markets st c f ->
  forall j, ~ pendingAt (takeTurns env markets st (completion (List.length markets)) f) j.
Proof.
  intros Hf j. unfold completion. cbn [takeTurns fold_left].
  rewrite takeTurn_Resume.
  fold (takeTurns env markets st
          (flat_map (fun t => [t; Resume])
             (flat_map (fun i => [Settle i; Settle i]) (seq 0 (List.length markets))
                ++ flat_map (fun i => [Admit i; Settle i; Settle i])
                     (seq 0 (List.length markets)))) f).
  rewrite takeTurns_resumes, takeTurns_app.
  set (f1 := takeTurns env markets st
               (flat_map (fun i => [Settle i; Settle i]) (seq 0 (List.length markets))) f).
  assert (Hf1 : Reachable env markets st c f1) by now apply takeTurns_reachable.
  destruct (settle_all env markets st c (seq 0 (List.length markets)) f Hf) as [Hin _].
  fold f1 in Hin.
  assert (Hidle : forall k, ~ inFlightAt f1 k).
  { intros k. destruct (Nat.lt_ge_cases k (List.length markets)) as [Hlt | Hge].
    - apply Hin. apply in_seq. lia.
    - unfold inFlightAt. rewrite (beyond_the_tasks f1 k Hf1 Hge).
      intros [? | ?]; discriminate. }
  destruct (run_all env markets st c (seq 0 (List.length markets)) f1 Hf1 Hidle)
    as (Hdone & _ & Hnone).
  destruct (taskAt f1 j) eqn:Ht.
  - apply Hdone; [|congruence].
    apply in_seq. split; [lia|]. cbn.
    destruct (Nat.lt_ge_cases j (List.length markets)) as [Hlt | Hge]; [exact Hlt|].
    rewrite (beyond_the_tasks f1 j Hf1 Hge) in Ht. discriminate.
  - unfold pendingAt, inFlightAt. rewrite (Hnone j Ht).
    intros [? | [? | ?]]; discriminate.
Qed.

Lemma settled_resumable f :
  Reachable env markets st c f -> (forall j, ~ pendingAt f j) -> resumable f = true.
Proof.
  intros [evs Hc] Hdone. unfold resumable.
  destruct (rejection f) eqn:Hr; [reflexivity|].
  apply forallb_forall. intros t Ht.
  pose proof Ht as Hel. apply list_elem_of_In, list_elem_of_lookup_1 in Hel.
  destruct Hel as [j Hl]. change (taskAt f j = Some t) in Hl.
  destruct t; try reflexivity.
  - exfalso. apply (Hdone j). now left.
  - exfalso. apply (Hdone j). right. now left.
  - exfalso. apply (Hdone j). right. now right.
  - exfalso. apply (failure_rejects _ _ _ _ _ _ Hc Ht). exact Hr.
Qed.

(** Whatever the event loop does, the fan-out ends with consistent books
    and with the scan able to resume. *)
Lemma fanOutRun_complete turns f evs :
  fanOutRun env markets st (turns ++ completion (List.length markets))
    (fanOutStart markets c) = (f, evs) ->
  Consistent env (world st) markets c f evs /\ resumable f = true.
Proof.
  intros Hrun.
  pose proof (fanOutRun_consistent env markets st c _ _ [] _ _
                (fanOutStart_consistent env markets st c) Hrun) as Hc.
  cbn [app] in Hc. split; [exact Hc|].
  destruct (fanOutRun_ends env markets st _ _ _ _ Hrun) as [Hres | ->]; [exact Hres|].
  rewrite takeTurns_app.
  assert (Hstart : Reachable env markets st c (fanOutStart markets c)).
  { exists []. apply fanOutStart_consistent. }
  apply settled_resumable.
  - now apply takeTurns_reachable, takeTurns_reachable.
  - apply completion_settles. now apply takeTurns_reachable.
Qed.

End FanOutEnds.


(** ** Building the snapshots *)

Lemma omap_id_lookup {A} (ss : list (option A)) : forall (xs : list A),
  List.length ss = List.length xs ->
  (forall i x, xs !! i = Some x -> default None (ss !! i) = Some x) ->
  omap id ss = xs.
Proof.
  induction ss as [|s ss IH]; intros [|x xs] Hlen Hall; try discriminate;
    [reflexivity|].
  pose proof (Hall 0%nat x eq_refl) as H0. cbn in H0. subst s.
  cbn. f_equal. apply IH; [now injection Hlen|].
  intros i y Hy. exact (Hall (S i) y Hy).
Qed.

Lemma detached_fetchEvents ms : Forall fetchEvent (detached ms).
Proof. destruct ms; repeat constructor. Qed.

Lemma detached_requests ms : orderBookRequests (detached ms) = [].
Proof. now destruct ms. Qed.

Section Snapshots.

Context {W : Type}.
Variable env : Collaborators W.

Lemma failedTokens_length w markets :
  lengthOf (failedTokens env w markets) = failedSideCount env w markets.
Proof.
  unfold lengthOf, failedTokens, failedSideCount.
  induction markets as [|m rest IH]; [reflexivity|].
  cbn [flat_map fold_right]. rewrite length_app, Nat2Z.inj_add, IH.
  f_equal. unfold failedSides.
  destruct (sideFailed env w (Market.yesTokenId m));
    destruct (sideFailed env w (Market.noTokenId m)); reflexivity.
Qed.

Lemma failedMarkets_length w markets :
  lengthOf (flat_map (fun m => talliedMarkets env w m Limiter.Fulfilled) markets)
  = failedMarketCount env w markets.
Proof.
  unfold lengthOf, failedMarketCount, talliedMarkets. cbn [isFulfilled andb].
  assert (H : List.length
                (flat_map (fun m => if marketFailed env w m then [m] else []) markets)
              = List.length (List.filter (marketFailed env w) markets)).
  { induction markets as [|m rest IH]; [reflexivity|].
    cbn [flat_map List.filter]. rewrite length_app, IH.
    destruct (marketFailed env w m); reflexivity. }
  now rewrite H.
Qed.

Lemma recoverable_market w markets m :
  recoverable env w markets = true -> In m markets -> marketAborts env w m = false.
Proof.
  unfold recoverable, marketAborts. intros Hrec Hin.
  rewrite forallb_forall in Hrec. specialize (Hrec m Hin).
  apply andb_true_iff in Hrec. destruct Hrec as [Hy Hn].
  apply negb_true_iff in Hy, Hn. now rewrite Hy, Hn.
Qed.


(** The fan-out unfolded: the state it ends in has consistent books and
    lets the scan resume. *)
Lemma fetchSnapshots_run markets c st :
  exists f evs,
    Consistent env (world st) markets c f evs
    /\ resumable f = true
    /\ fetchSnapshots env markets c st
       = match rejection f with
         | Some e => mkRun (Rejected e) st (evs ++ detached (pendingMarkets markets f))
         | None => mkRun (Resolved (omap id (snapshots f), counters f)) st evs
         end.
Proof.
  unfold fetchSnapshots.
  destruct (fanOutRun env markets st _ (fanOutStart markets c)) as [f evs] eqn:Hrun.
  exists f, evs.
  destruct (fanOutRun_complete env markets st c _ _ _ Hrun) as [Hc Hres].
  split; [exact Hc|]. split; [exact Hres | reflexivity].
Qed.

(** Fetching changes neither the engine nor the collaborators. *)
Lemma fetchSnapshots_final markets c st :
  final (fetchSnapshots env markets c st) = st.
Proof.
  destruct (fetchSnapshots_run markets c st) as (f & evs & _ & _ & ->).
  now destruct (rejection f).
Qed.

Lemma fetchSnapshots_events markets c : always fetchEvent (fetchSnapshots env markets c).
Proof.
  intros st. destruct (fetchSnapshots_run markets c st) as (f & evs & Hc & _ & ->).
  pose proof (only_fetches _ _ _ _ _ _ Hc) as Hev.
  destruct (rejection f); cbn [events]; [|exact Hev].
  apply List.Forall_app. split; [exact Hev | apply detached_fetchEvents].
Qed.

(** When no fetch aborts, the fan-out returns one snapshot per market, in
    market order, and the counters, whatever the order of the turns; every
    token is requested once and every failed side is warned of once. *)
Lemma fetchSnapshots_recoverable markets c st :
  recoverable env (world st) markets = true ->
  exists evs,
    fetchSnapshots env markets c st
    = mkRun (Resolved (map (snapshotOf env (world st)) markets,
                       count env c (world st) markets)) st evs
    /\ Permutation (orderBookRequests evs) (tokensOf markets)
    /\ Permutation (invalidTokenWarnings evs) (failedTokens env (world st) markets)
    /\ Forall fetchEvent evs.
Proof.
  intros Hrec.
  destruct (fetchSnapshots_run markets c st) as (f & evs & Hc & Hres & ->).
  assert (Hnofail : ~ In Limiter.Failed (Limiter.tasks (limiter f))).
  { intros Hin. apply list_elem_of_In, list_elem_of_lookup_1 in Hin.
    destruct Hin as [i Hi].
    destruct (market_of_task env markets st c f i _ (ex_intro _ evs Hc) Hi) as [m Hm].
    pose proof (tasks_hold _ _ _ _ _ _ Hc i m _ Hm Hi) as Hab. cbn in Hab.
    rewrite (recoverable_market _ _ m Hrec) in Hab; [discriminate|].
    apply list_elem_of_In. eapply list_elem_of_lookup_2. exact Hm. }
  assert (Hr : rejection f = None).
  { destruct (rejection f) eqn:Hr; [|reflexivity].
    exfalso. apply Hnofail. apply (rejects_failure _ _ _ _ _ _ Hc). congruence. }
  unfold resumable in Hres. rewrite Hr in *.
  pose proof (tasks_length _ _ _ _ _ _ Hc) as Hlen.
  exists evs. split; [|split; [|split]].
  - assert (Hs : omap id (snapshots f) = map (snapshotOf env (world st)) markets);
      [|assert (Hk : counters f = count env c (world st) markets);
         [|now rewrite Hs, Hk]].
    + apply omap_id_lookup.
      * rewrite length_map. apply (snapshots_length _ _ _ _ _ _ Hc).
      * intros i s Hs. rewrite list_lookup_fmap in Hs.
        destruct (markets !! i) as [m|] eqn:Hm; [|discriminate].
        injection Hs as <-.
        assert (Ht : exists t, Limiter.tasks (limiter f) !! i = Some t).
        { apply lookup_lt_is_Some_2. rewrite Hlen. eapply lookup_lt_Some. exact Hm. }
        destruct Ht as [t Ht].
        assert (Hful : isFulfilled t = true).
        { rewrite forallb_forall in Hres. apply Hres.
          apply list_elem_of_In. eapply list_elem_of_lookup_2. exact Ht. }
        destruct t; try discriminate.
        now destruct (tasks_hold _ _ _ _ _ _ Hc i m _ Hm Ht).
    + pose proof (failures_counted _ _ _ _ _ _ Hc) as Hf.
      pose proof (markets_counted _ _ _ _ _ _ Hc) as Hm.
      rewrite (collect_fulfilled _ markets _ Hlen Hres) in Hf.
      rewrite (collect_fulfilled _ markets _ Hlen Hres) in Hm.
      rewrite failedMarkets_length in Hm.
      change (flat_map (fun m => talliedSides env (world st) m Limiter.Fulfilled) markets)
        with (failedTokens env (world st) markets) in Hf.
      rewrite failedTokens_length in Hf.
      unfold count. destruct (counters f) as [a b]. cbn in Hf, Hm. now subst.
  - rewrite (requests_made _ _ _ _ _ _ Hc).
    now rewrite (collect_fulfilled _ markets _ Hlen Hres).
  - rewrite (warnings_logged _ _ _ _ _ _ Hc).
    now rewrite (collect_fulfilled _ markets _ Hlen Hres).
  - exact (only_fetches _ _ _ _ _ _ Hc).
Qed.



End Snapshots.


(** C4. The safe fetch wrapper returns the sentinel
    [{top: {bestAsk:0, bestBid:0}, failed: true}] exactly when the provider's
    [getOrderBookTop] raises the not-found error; any other error is
    propagated unchanged; on success it returns the provider's top with
    [failed: false].  In no case is the engine state changed. *)
Theorem getOrderBookTopSafe_classifies_provider_outcome :
  forall (W : Type) (env : Collaborators W) (tokenId marketId : string)
         (st : Engine W),
    let r := alone (getOrderBookTopSafe env tokenId marketId) st in
    (outcome r = Resolved {| top := zeroTop; failed := true |} <->
       exists m, getOrderBookTop env tokenId (world st)
                 = Rejected (OrderbookNotFoundError m))
    /\ (forall e, getOrderBookTop env tokenId (world st) = Rejected e ->
                  isOrderbookNotFound e = false -> outcome r = Rejected e)
    /\ (forall e, outcome r = Rejected e ->
                  getOrderBookTop env tokenId (world st) = Rejected e
                  /\ isOrderbookNotFound e = false)
    /\ (forall t, getOrderBookTop env tokenId (world st) = Resolved t ->
                  outcome r = Resolved {| top := t; failed := false |})
    /\ final r = st.
Proof.
  intros W env tokenId marketId st r. subst r.
  rewrite getOrderBookTopSafe_cases.
  destruct (getOrderBookTop env tokenId (world st)) as [t|[m|m|s]] eqn:E; cbn.
  all: repeat split; intros;
    repeat match goal with
      | H : exists _, _ |- _ => destruct H
      | H : Rejected _ = Rejected _ |- _ => inversion H; subst; clear H
      | H : Resolved _ = Resolved _ |- _ => inversion H; subst; clear H
      end;
    try discriminate; try reflexivity; eauto.
Qed.


(** ** Projections of a concatenation *)

Lemma attempted_app evs evs' : attempted (evs ++ evs') = attempted evs ++ attempted evs'.
Proof. apply flat_map_app. Qed.

Lemma executed_app evs evs' : executed (evs ++ evs') = executed evs ++ executed evs'.
Proof. apply flat_map_app. Qed.

Lemma activeWrites_app evs evs' :
  activeWrites (evs ++ evs') = activeWrites evs ++ activeWrites evs'.
Proof. apply flat_map_app. Qed.


(** ** Properties of every event of a run, built up along the code *)

Section EveryEvent.

Context {W : Type} (P : Event -> Prop).

Lemma always_ret {A} (a : A) : always (W:=W) P (ret a).
Proof. intros st. constructor. Qed.

Lemma always_throw {A} e : always (W:=W) P (@throw W A e).
Proof. intros st. constructor. Qed.

Lemma always_bind {A B} (m : M W A) (k : A -> M W B) :
  always (W:=W) P m -> (forall a, always (W:=W) P (k a)) ->
  always (W:=W) P (bind m k).
Proof.
  intros Hm Hk st. unfold bind.
  specialize (Hm st). destruct (m st) as [[a|e] st' evs]; cbn in *; [|exact Hm].
  specialize (Hk a st'). destruct (k a st') as [o st'' evs']. cbn in *.
  apply Forall_app. now split.
Qed.

Lemma always_tryCatch {A} (body : M W A) handler :
  always (W:=W) P body -> (forall e, always (W:=W) P (handler e)) ->
  always (W:=W) P (tryCatch body handler).
Proof.
  intros Hb Hh st. unfold tryCatch.
  specialize (Hb st). destruct (body st) as [[a|e] st' evs]; cbn in *; [exact Hb|].
  specialize (Hh e st'). destruct (handler e st') as [o st'' evs']. cbn in *.
  apply Forall_app. now split.
Qed.

Lemma always_emit ev : P ev -> always (W:=W) P (emit ev).
Proof. intros H st. cbn. auto. Qed.

Lemma always_call {A} ev (f : W -> Outcome A * W) : P ev -> always (W:=W) P (call ev f).
Proof. intros H st. unfold call. destruct (f (world st)). cbn. auto. Qed.

Lemma always_query {A} ev (f : W -> Outcome A) : P ev -> always (W:=W) P (query ev f).
Proof. intros H st. cbn. auto. Qed.

Lemma always_readActiveTrades : always (W:=W) P readActiveTrades.
Proof. intros st. constructor. Qed.

Lemma always_writeActiveTrades n : P (ActiveTrades n) -> always (W:=W) P (writeActiveTrades n).
Proof. intros H st. cbn. auto. Qed.

Lemma always_setRunning b : always (W:=W) P (setRunning b).
Proof. intros st. constructor. Qed.

Lemma always_readRunning : always (W:=W) P readRunning.
Proof. intros st. constructor. Qed.

End EveryEvent.

(** Breaks a goal [always P m] down along the structure of [m]. *)
Ltac always_step :=
  match goal with
  | |- always _ (alone (if ?b then _ else _)) => destruct b
  | |- always _ (alone (match ?x with _ => _ end)) => destruct x
  | |- always _ (alone _) => progress cbn [alone]
  | |- always _ (bind _ _) => apply always_bind; [| intros ?]
  | |- always _ (tryCatch _ _) => apply always_tryCatch; [| intros ?]
  | |- always _ (ret _) => apply always_ret
  | |- always _ (throw _) => apply always_throw
  | |- always _ (info _) => apply always_emit
  | |- always _ (warn _) => apply always_emit
  | |- always _ (emit _) => apply always_emit
  | |- always _ (call _ _) => apply always_call
  | |- always _ (query _ _) => apply always_query
  | |- always _ readActiveTrades => apply always_readActiveTrades
  | |- always _ (writeActiveTrades _) => apply always_writeActiveTrades
  | |- always _ (setRunning _) => apply always_setRunning
  | |- always _ readRunning => apply always_readRunning
  | |- always _ (if ?b then _ else _) => destruct b
  | |- always _ (match ?x with _ => _ end) => destruct x
  end.

(** Case analysis on every answer the collaborators give to
    [handleOpportunity]. *)
Ltac collaborators_answer :=
  repeat
    (run_alone;
     cbn [world withWorld activeTrades running negb outcome final events fst snd
          allowed ok];
     match goal with
     | |- context [canExecute ?e ?o ?n ?w] =>
         destruct (canExecute e o n w) as [[[[|] ?]|?] ?]
     | |- context [ensureGasBalance ?e ?n ?w] =>
         destruct (ensureGasBalance e n w) as [[[[|]]|?] ?]
     | |- context [onTradeSubmitted ?e ?o ?n ?w] =>
         destruct (onTradeSubmitted e o n w) as [[?|?] ?]
     | |- context [execute ?e ?p ?n ?w] =>
         destruct (execute e p n w) as [[?|?] ?]
     | |- context [onTradeSuccess ?e ?o ?n ?w] =>
         destruct (onTradeSuccess e o n w) as [[?|?] ?]
     | |- context [onTradeFailure ?e ?o ?n ?r ?w] =>
         destruct (onTradeFailure e o n r w) as [[?|?] ?]
     | |- context [decisionLogger ?e] =>
         destruct (decisionLogger e) as [?append|]
     | |- context [?append (decisionRecord ?o ?a ?r ?n ?s ?t) ?w] =>
         destruct (append (decisionRecord o a r n s t) w) as [[?|?] ?]
     | |- context [if ?b then _ else _] => destruct b
     end);
  run_alone;
  cbn [world withWorld activeTrades running negb outcome final events fst snd].


(** ** Decision records *)

Lemma appended_wellFormed evs :
  Forall appendsWellFormed evs -> Forall recordWellFormed (appended evs).
Proof.
  induction 1 as [|ev evs Hev _ IH]; cbn; [constructor|].
  destruct ev; cbn; auto.
Qed.

Section DecisionRecords.

Context {W : Type}.
Variable env : Collaborators W.
Variable config : ArbConfig.

Lemma logDecision_wellFormed o action rsn now size tx :
  action = "trade" \/ action = "skip" ->
  always appendsWellFormed (alone (logDecision env o action rsn now size tx)).
Proof.
  intros Ha. unfold logDecision.
  destruct (decisionLogger env); [|apply always_ret].
  destruct (isTimeValue now); cbn [alone]; [apply always_call | apply always_throw].
  cbn. unfold recordWellFormed. cbn.
  destruct Ha as [-> | ->]; [left | right]; split; reflexivity.
Qed.

Lemma handleOpportunity_wellFormed o now :
  always appendsWellFormed (alone (handleOpportunity env o now)).
Proof.
  unfold handleOpportunity.
  repeat first
    [ apply logDecision_wellFormed; auto
    | always_step; try exact I ].
Qed.

Lemma tradeLoop_wellFormed opps now :
  always appendsWellFormed (alone (tradeLoop env config opps now)).
Proof.
  induction opps as [|o rest IH]; cbn [tradeLoop].
  - apply always_ret.
  - repeat first
      [ apply handleOpportunity_wellFormed | exact IH | always_step ].
Qed.

Lemma fetchSnapshots_wellFormed markets c :
  always appendsWellFormed (fetchSnapshots env markets c).
Proof.
  intros st. eapply List.Forall_impl; [|apply fetchSnapshots_events].
  intros [[|] []| | | | | | | | | | | |]; cbn; tauto.
Qed.

Lemma scanOnce_wellFormed now :
  always appendsWellFormed (alone (scanOnce env config now)).
Proof.
  unfold scanOnce, scanAttempt.
  repeat first
    [ apply fetchSnapshots_wellFormed | apply tradeLoop_wellFormed
    | always_step; try exact I ].
Qed.

End DecisionRecords.

(** C10. The [status] of every appended decision record is fixed by its
    [action] alone: [trade] records carry [submitted], also after a
    [dry_run] execution, and [skip] records carry [skipped]; the reason
    handed to [logDecision], which is where the executor's own status goes,
    changes the [reason] field and nothing else.  After a [dry_run]
    execution at an instant that is a time value the one record appended
    has action [trade], status [submitted] and reason [dry_run]; at an
    instant that is not, building the record throws and none is
    appended. *)
Theorem decision_record_status_follows_action :
  forall (W : Type) (env : Collaborators W) (config : ArbConfig) (now : Z)
         (st : Engine W),
    Forall recordWellFormed (appended (events (alone (scanOnce env config now) st)))
    /\ (forall o o' action rsn rsn' t t' size size' tx tx',
          DecisionRecord.status (decisionRecord o action rsn t size tx)
          = DecisionRecord.status (decisionRecord o' action rsn' t' size' tx'))
    /\ (forall o action rsn rsn' t size tx,
          decisionRecord o action rsn' t size tx
          = {| DecisionRecord.ts := DecisionRecord.ts (decisionRecord o action rsn t size tx);
               DecisionRecord.market_id :=
                 DecisionRecord.market_id (decisionRecord o action rsn t size tx);
               DecisionRecord.yes_ask :=
                 DecisionRecord.yes_ask (decisionRecord o action rsn t size tx);
               DecisionRecord.no_ask :=
                 DecisionRecord.no_ask (decisionRecord o action rsn t size tx);
               DecisionRecord.edge_bps :=
                 DecisionRecord.edge_bps (decisionRecord o action rsn t size tx);
               DecisionRecord.liquidity :=
                 DecisionRecord.liquidity (decisionRecord o action rsn t size tx);
               DecisionRecord.spread_bps :=
                 DecisionRecord.spread_bps (decisionRecord o action rsn t size tx);
               DecisionRecord.est_profit_usd :=
                 DecisionRecord.est_profit_usd (decisionRecord o action rsn t size tx);
               DecisionRecord.action :=
                 DecisionRecord.action (decisionRecord o action rsn t size tx);
               DecisionRecord.reason := rsn';
               DecisionRecord.planned_size :=
                 DecisionRecord.planned_size (decisionRecord o action rsn t size tx);
               DecisionRecord.tx_hash :=
                 DecisionRecord.tx_hash (decisionRecord o action rsn t size tx);
               DecisionRecord.status :=
                 DecisionRecord.status (decisionRecord o action rsn t size tx) |})
    /\ (forall o rsn size tx,
          DecisionRecord.status (decisionRecord o "trade" rsn now size tx) = "submitted"
          /\ DecisionRecord.reason (decisionRecord o "trade" rsn now size tx) = rsn)
    /\ (forall o rsn size tx,
          DecisionRecord.status (decisionRecord o "skip" rsn now size tx) = "skipped"
          /\ DecisionRecord.reason (decisionRecord o "skip" rsn now size tx) = rsn)
    /\ (isTimeValue now = true ->
        appended (events (alone (handleOpportunity dryRunning O1 now) (newEngine tt)))
        = [ {| DecisionRecord.ts := now;
               DecisionRecord.market_id := "O1";
               DecisionRecord.yes_ask := 0.45%Q;
               DecisionRecord.no_ask := 0.5%Q;
               DecisionRecord.edge_bps := 500%Q;
               DecisionRecord.liquidity := 2500%Q;
               DecisionRecord.spread_bps := 40%Q;
               DecisionRecord.est_profit_usd := 10%Q;
               DecisionRecord.action := "trade";
               DecisionRecord.reason := "dry_run";
               DecisionRecord.planned_size := Some (Finite 100%Q);
               DecisionRecord.tx_hash := None;
               DecisionRecord.status := "submitted" |} ])
    /\ (isTimeValue now = false ->
        appended (events (alone (handleOpportunity dryRunning O1 now) (newEngine tt)))
        = []
        /\ outcome (alone (handleOpportunity dryRunning O1 now) (newEngine tt))
           = Rejected (OtherError "Invalid time value")).
Proof.
  intros W env config now st.
  split; [apply appended_wellFormed, scanOnce_wellFormed|].
  split; [reflexivity|]. split; [reflexivity|].
  split; [intros; split; reflexivity|]. split; [intros; split; reflexivity|].
  unfold handleOpportunity, logDecision. cbn -[isTimeValue].
  split; intros ->; repeat split.
Qed.


(** ** Admission control *)

Lemma orElse_present s b : s <> "" -> orElse (Some s) b = s.
Proof.
  intros H. unfold orElse. destruct (String.eqb_spec s ""); congruence.
Qed.

Lemma orElse_absent b : orElse None b = b /\ orElse (Some "") b = b.
Proof. split; reflexivity. Qed.

(** C7, counterexample to the claim as stated: an engine constructed without
    the optional decision logger appends no record for an opportunity that
    [canExecute] rejects with reason [EXPOSURE_LIMIT]; and with a decision
    logger, a rejection whose reason is the empty string is recorded with
    reason [filtered]. *)
Lemma rejection_unrecorded_without_decision_logger :
  (Turned_down (withoutDecisionLogger exposureLimited) O1 0 (newEngine tt)
     "EXPOSURE_LIMIT"
   /\ ~ skipRecorded
          (events (alone (handleOpportunity (withoutDecisionLogger exposureLimited) O1 0)
                     (newEngine tt)))
          "EXPOSURE_LIMIT")
  /\ (canExecute unexplainedRejection O1 0 tt
      = (Resolved {| allowed := false; decision_reason := Some "" |}, tt)
      /\ ~ skipRecorded
             (events (alone (handleOpportunity unexplainedRejection O1 0) (newEngine tt))) "").
Proof.
  split; split.
  - exact (Not_allowed (withoutDecisionLogger exposureLimited) O1 0 (newEngine tt)
             {| allowed := false; decision_reason := Some "EXPOSURE_LIMIT" |} tt
             eq_refl eq_refl).
  - intros [r [Hin _]]. exact Hin.
  - reflexivity.
  - intros [r [Hin [_ Hr]]]. cbn in Hin. destruct Hin as [<- | []].
    discriminate Hr.
Qed.

(** C7 (amended). An opportunity turned down by admission control leaves the
    engine untouched: [activeTrades] and [running] are unchanged, nothing is
    written to [activeTrades], neither [onTradeSubmitted] nor the executor is
    called, and, when a decision logger is configured and [now] is a time
    value, exactly one record is appended, a [skip] record whose reason is
    the risk manager's reason ([filtered] when that is absent or empty) or
    [low_gas].  Without a decision logger nothing is appended; with one and
    a [now] that is not a time value, [new Date(now).toISOString()] throws
    before anything is appended, and [handleOpportunity] rejects. *)
Theorem turned_down_opportunity_leaves_engine_untouched :
  forall (W : Type) (env : Collaborators W) (o : Opportunity.t) (now : Z)
         (st : Engine W) (rsn : string),
    Turned_down env o now st rsn ->
    let r := alone (handleOpportunity env o now) st in
    activeTrades (final r) = activeTrades st
    /\ running (final r) = running st
    /\ activeWrites (events r) = []
    /\ submitted (events r) = []
    /\ executed (events r) = []
    /\ appended (events r)
       = match decisionLogger env with
         | Some _ =>
             if isTimeValue now then [decisionRecord o "skip" rsn now None None]
             else []
         | None => []
         end
    /\ (decisionLogger env <> None -> isTimeValue now = false ->
        outcome r = Rejected (OtherError "Invalid time value"))
    /\ DecisionRecord.action (decisionRecord o "skip" rsn now None None) = "skip"
    /\ DecisionRecord.reason (decisionRecord o "skip" rsn now None None) = rsn.
Proof.
  intros W env o now st rsn H r. subst r.
  destruct H as [d w1 Hcan Hno | d w1 g w2 Hcan Hyes Hgas Hno];
    unfold handleOpportunity, logDecision; run_alone; rewrite Hcan.
  - rewrite Hno. run_alone. cbn [negb world withWorld].
    destruct (decisionLogger env) as [append|]; run_alone;
      [|repeat split; congruence].
    destruct (isTimeValue now); run_alone; cbn [world withWorld];
      [|repeat split].
    destruct (append _ w1) as [[u|e] w2]; repeat split; discriminate.
  - rewrite Hyes. run_alone. cbn [negb world withWorld]. rewrite Hgas, Hno.
    run_alone. cbn [negb world withWorld].
    destruct (decisionLogger env) as [append|]; run_alone;
      [|repeat split; congruence].
    destruct (isTimeValue now); run_alone; cbn [world withWorld];
      [|repeat split].
    destruct (append _ w2) as [[u|e] w3]; repeat split; discriminate.
Qed.

(** C7, the amended claim at a rejection by the risk manager. *)
Lemma turned_down_opportunity_witness :
  Turned_down exposureLimited O1 0 (newEngine tt) "EXPOSURE_LIMIT"
  /\ activeTrades (final (alone (handleOpportunity exposureLimited O1 0) (newEngine tt))) = 0
  /\ appended (events (alone (handleOpportunity exposureLimited O1 0) (newEngine tt)))
     = [decisionRecord O1 "skip" "EXPOSURE_LIMIT" 0 None None].
Proof.
  assert (Hdown : Turned_down exposureLimited O1 0 (newEngine tt) "EXPOSURE_LIMIT").
  { exact (Not_allowed exposureLimited O1 0 (newEngine tt)
             {| allowed := false; decision_reason := Some "EXPOSURE_LIMIT" |} tt
             eq_refl eq_refl). }
  split; [exact Hdown|].
  pose proof
    (turned_down_opportunity_leaves_engine_untouched unit exposureLimited O1 0
       (newEngine tt) "EXPOSURE_LIMIT" Hdown) as H.
  cbv zeta in H. destruct H as (Ha & _ & _ & _ & _ & Hrec & _).
  split; [exact Ha | exact Hrec].
Defined.

Example low_gas_is_skipped :
  events (alone (handleOpportunity lowOnGas O1 7) (newEngine tt))
  = [CanExecute O1 7; EnsureGasBalance 7; Log WARN (Skip O1 "low_gas");
     Append (decisionRecord O1 "skip" "low_gas" 7 None None)].
Proof. reflexivity. Qed.


(** ** Settling an executed trade *)

(** C8, counterexample to the claim as stated: an engine constructed without
    the optional decision logger calls [onTradeSuccess] for a [submitted]
    result but appends no record; and with a decision logger, no record is
    appended when [onTradeSuccess] throws. *)
Lemma submitted_trade_unrecorded_without_decision_logger :
  (Executed_with (withoutDecisionLogger permissive) O1 0 (newEngine tt)
     {| status := "submitted"; reason := None; txHashes := Some ["0xabc"; "0xdef"] |} tt
   /\ In (OnTradeSuccess O1 0)
         (events (alone (handleOpportunity (withoutDecisionLogger permissive) O1 0) (newEngine tt)))
   /\ ~ tradeRecorded
          (events (alone (handleOpportunity (withoutDecisionLogger permissive) O1 0)
                     (newEngine tt))))
  /\ (Executed_with successHookThrows O1 0 (newEngine tt)
        {| status := "submitted"; reason := None; txHashes := Some ["0xabc"; "0xdef"] |} tt
      /\ In (OnTradeSuccess O1 0)
            (events (alone (handleOpportunity successHookThrows O1 0) (newEngine tt)))
      /\ ~ tradeRecorded
             (events (alone (handleOpportunity successHookThrows O1 0) (newEngine tt)))).
Proof.
  split; (split; [| split]).
  - exact (Executed_intro (withoutDecisionLogger permissive) O1 0 (newEngine tt)
             {| allowed := true; decision_reason := None |} tt {| ok := true |} tt tt
             _ tt eq_refl eq_refl eq_refl eq_refl eq_refl eq_refl).
  - cbn. tauto.
  - intros [r [Hin _]]. exact Hin.
  - exact (Executed_intro successHookThrows O1 0 (newEngine tt)
             {| allowed := true; decision_reason := None |} tt {| ok := true |} tt tt
             _ tt eq_refl eq_refl eq_refl eq_refl eq_refl eq_refl).
  - cbn. tauto.
  - intros [r [Hin _]]. exact Hin.
Qed.

(** C8 (amended). Once the executor has returned a result: if its status is
    [submitted] or [dry_run] the engine calls [onTradeSuccess] and, when that
    call returns, a decision logger is configured and [now] is a time value,
    appends a [trade] record with the planned size and the first transaction
    hash if there is one; for any other status it calls [onTradeFailure]
    with [result.reason || result.status] and, under the same three
    conditions, appends a [skip] record with that same reason.  Without a
    decision logger, or when [new Date(now).toISOString()] throws, nothing
    is appended. *)
Theorem execution_result_settled_by_status :
  forall (W : Type) (env : Collaborators W) (o : Opportunity.t) (now : Z)
         (st : Engine W) (result : ExecutionResult) (w : W),
    Executed_with env o now st result w ->
    let rsn := orElse (reason result) (status result) in
    (status result = "submitted" \/ status result = "dry_run" ->
       events (alone (handleOpportunity env o now) st)
       = uptoExecution o now st ++ OnTradeSuccess o now ::
           match fst (onTradeSuccess env o now w), decisionLogger env with
           | Resolved _, Some _ =>
               if isTimeValue now then
                 [Append (decisionRecord o "trade" (status result) now
                            (Some (Opportunity.sizeUsd o))
                            (firstTxHash (txHashes result)))]
               else []
           | _, _ => []
           end)
    /\ (status result <> "submitted" -> status result <> "dry_run" ->
        events (alone (handleOpportunity env o now) st)
        = uptoExecution o now st ++ OnTradeFailure o now rsn ::
            match fst (onTradeFailure env o now rsn w), decisionLogger env with
            | Resolved _, Some _ =>
                if isTimeValue now
                then [Append (decisionRecord o "skip" rsn now None None)]
                else []
            | _, _ => []
            end)
    /\ (forall s, reason result = Some s -> s <> "" -> rsn = s)
    /\ (reason result = None \/ reason result = Some "" -> rsn = status result)
    /\ (forall h hs, txHashes result = Some (h :: hs) ->
                     firstTxHash (txHashes result) = Some h)
    /\ (txHashes result = None \/ txHashes result = Some [] ->
        firstTxHash (txHashes result) = None).
Proof.
  intros W env o now st result w H rsn.
  destruct H as [d w1 g w2 w3 result w4 Hcan Hyes Hgas Hok Hsub Hexe].
  assert (Hrun : forall b,
             (String.eqb (status result) "submitted"
              || String.eqb (status result) "dry_run")%bool = b ->
             events (alone (handleOpportunity env o now) st)
             = uptoExecution o now st ++
                 if b then
                   OnTradeSuccess o now ::
                     match fst (onTradeSuccess env o now w4), decisionLogger env with
                     | Resolved _, Some _ =>
                         if isTimeValue now then
                           [Append (decisionRecord o "trade" (status result) now
                                      (Some (Opportunity.sizeUsd o))
                                      (firstTxHash (txHashes result)))]
                         else []
                     | _, _ => []
                     end
                 else
                   OnTradeFailure o now rsn ::
                     match fst (onTradeFailure env o now rsn w4), decisionLogger env with
                     | Resolved _, Some _ =>
                         if isTimeValue now
                         then [Append (decisionRecord o "skip" rsn now None None)]
                         else []
                     | _, _ => []
                     end).
  { intros b Hb. subst rsn.
    unfold handleOpportunity, logDecision, uptoExecution. run_alone.
    rewrite Hcan, Hyes. run_alone. cbn [negb world withWorld]. rewrite Hgas, Hok.
    run_alone. cbn [negb world withWorld activeTrades running]. rewrite Hsub.
    run_alone. cbn [world withWorld activeTrades running]. rewrite Hexe.
    run_alone. cbn [world withWorld activeTrades running]. rewrite Hb.
    destruct b; run_alone; cbn [world withWorld activeTrades running].
    - destruct (onTradeSuccess env o now w4) as [[u|e] w5]; cbn [fst app];
        [|destruct (decisionLogger env); reflexivity].
      destruct (decisionLogger env) as [append|]; run_alone; [|reflexivity].
      destruct (isTimeValue now); run_alone; [|reflexivity].
      cbn [world withWorld]. destruct (append _ w5) as [[u'|e] w6]; reflexivity.
    - destruct (onTradeFailure env o now _ w4) as [[u|e] w5]; cbn [fst app];
        [|destruct (decisionLogger env); reflexivity].
      destruct (decisionLogger env) as [append|]; run_alone; [|reflexivity].
      destruct (isTimeValue now); run_alone; [|reflexivity].
      cbn [world withWorld]. destruct (append _ w5) as [[u'|e] w6]; reflexivity. }
  repeat split.
  - intros Hs. rewrite (Hrun true); [reflexivity|].
    apply orb_true_iff. destruct Hs as [-> | ->]; [left | right]; reflexivity.
  - intros Hn1 Hn2. rewrite (Hrun false); [reflexivity|].
    apply orb_false_iff. split; apply String.eqb_neq; assumption.
  - intros s Hs Hne. subst rsn. rewrite Hs. now apply orElse_present.
  - intros [Hs | Hs]; subst rsn; rewrite Hs; reflexivity.
  - intros h hs Hh. now rewrite Hh.
  - intros [Hh | Hh]; now rewrite Hh.
Qed.

(** C8, the amended claim at a [dry_run] result. *)
Lemma execution_result_settled_witness :
  Executed_with dryRunning O1 3 (newEngine tt)
    {| status := "dry_run"; reason := None; txHashes := None |} tt
  /\ events (alone (handleOpportunity dryRunning O1 3) (newEngine tt))
     = uptoExecution O1 3 (newEngine tt) ++
         [OnTradeSuccess O1 3;
          Append (decisionRecord O1 "trade" "dry_run" 3 (Some (Finite 100%Q)) None)].
Proof.
  assert (Hexe : Executed_with dryRunning O1 3 (newEngine tt)
                   {| status := "dry_run"; reason := None; txHashes := None |} tt).
  { exact (Executed_intro dryRunning O1 3 (newEngine tt)
             {| allowed := true; decision_reason := None |} tt {| ok := true |} tt tt
             _ tt eq_refl eq_refl eq_refl eq_refl eq_refl eq_refl). }
  split; [exact Hexe|].
  destruct (execution_result_settled_by_status unit dryRunning O1 3 (newEngine tt)
              _ tt Hexe) as (Hok & _).
  exact (Hok (or_intror eq_refl)).
Defined.

Example refused_order_is_a_skip :
  events (alone (handleOpportunity refusing O1 3) (newEngine tt))
  = uptoExecution O1 3 (newEngine tt) ++
      [OnTradeFailure O1 3 "insufficient_liquidity";
       Append (decisionRecord O1 "skip" "insufficient_liquidity" 3 None None)].
Proof. reflexivity. Qed.


(** ** One scan, phase by phase *)

Section ScanPhases.

Context {W : Type}.
Variable env : Collaborators W.
Variable config : ArbConfig.

Lemma scanAttempt_run now st :
  alone (scanAttempt env config now) st =
    match getActiveMarkets env (world st) with
    | (Rejected e, w1) => mkRun (Rejected e) (withWorld st w1) [GetActiveMarkets]
    | (Resolved markets, w1) =>
        let f := fetchSnapshots env markets noFailures (withWorld st w1) in
        match outcome f with
        | Rejected e =>
            mkRun (Rejected e) (withWorld st w1) (GetActiveMarkets :: events f)
        | Resolved fetched =>
            match findOpportunities env (fst fetched) now w1 with
            | (Rejected e, w2) =>
                mkRun (Rejected e) (withWorld st w2)
                  (GetActiveMarkets :: events f ++ [FindOpportunities (fst fetched) now])
            | (Resolved found, w2) =>
                let t := alone (tradeLoop env config (sort byProfitDesc found) now)
                           (withWorld st w2) in
                mkRun (outcome t) (final t)
                  (GetActiveMarkets :: events f
                     ++ FindOpportunities (fst fetched) now
                     :: Log INFO (summaryLine markets (sort byProfitDesc found)
                                    (snd fetched))
                     :: events t)
            end
        end
    end.
Proof.
  unfold scanAttempt. cbn [alone]. unfold bind at 1. unfold call at 1.
  destruct (getActiveMarkets env (world st)) as [[markets|e] w1]; [|reflexivity].
  unfold bind at 1.
  pose proof (fetchSnapshots_final env markets noFailures (withWorld st w1)) as Hf.
  destruct (fetchSnapshots env markets noFailures (withWorld st w1))
    as [[fetched|e] st' evs]; cbn in Hf; subst st'; [|reflexivity].
  cbv zeta. cbn [outcome events]. unfold bind at 1. unfold call at 1.
  cbn [world withWorld].
  destruct (findOpportunities env (fst fetched) now w1) as [[found|e] w2];
    [|reflexivity].
  unfold bind, info, emit.
  change (withWorld (withWorld st w1) w2) with (withWorld st w2).
  destruct (alone (tradeLoop env config (sort byProfitDesc found) now) (withWorld st w2))
    as [o st'' evs'].
  cbn. rewrite <- ?app_assoc. reflexivity.
Qed.

Lemma scanOnce_run now st :
  alone (scanOnce env config now) st =
    match outcome (alone (scanAttempt env config now) st) with
    | Resolved _ => alone (scanAttempt env config now) st
    | Rejected e =>
        mkRun (Resolved tt) (final (alone (scanAttempt env config now) st))
          (events (alone (scanAttempt env config now) st)
             ++ [Log WARN (ScanError (errorMessage e))])
    end.
Proof.
  unfold scanOnce. cbn [alone]. unfold tryCatch.
  destruct (alone (scanAttempt env config now) st) as [[u|e] st' evs]; reflexivity.
Qed.

End ScanPhases.





(** ** Ranking by estimated profit *)

Lemma atMost_refl a : isNaN a = false -> atMost a a.
Proof. destruct a; cbn; try discriminate; intros _; try exact I. apply Qle_refl. Qed.

Lemma atMost_trans a b c : atMost a b -> atMost b c -> atMost a c.
Proof.
  destruct a, b, c; cbn; try tauto. intros H1 H2. eapply Qle_trans; eassumption.
Qed.

(** The comparator does not ask for a swap: the first is not smaller. *)
Lemma not_positive_minus a b :
  isNaN a = false -> isNaN b = false -> positive (minus b a) = false -> atMost b a.
Proof.
  destruct a as [| |p|], b as [| |q|]; cbn; try discriminate; try tauto.
  intros _ _ H. apply negb_false_iff, Qle_bool_iff in H.
  apply (Qplus_le_r _ _ (-p)). ring_simplify.
  eapply Qle_trans; [|exact H]. apply Qle_lteq. right. ring.
Qed.

(** The comparator asks for a swap: the second is not smaller. *)
Lemma positive_minus a b : positive (minus b a) = true -> atMost a b.
Proof.
  destruct a as [| |p|], b as [| |q|]; cbn; try discriminate; try tauto.
  intros H. apply negb_true_iff in H.
  destruct (Qlt_le_dec (q - p) 0) as [Hlt | Hle].
  - apply Qlt_le_weak, Qle_bool_iff in Hlt. congruence.
  - apply (Qplus_le_r _ _ (-p)). ring_simplify.
    eapply Qle_trans; [exact Hle|]. apply Qle_lteq. right. ring.
Qed.

Lemma profitOrder_trans a b c : profitOrder a b -> profitOrder b c -> profitOrder a c.
Proof. unfold profitOrder. intros Hab Hbc. eapply atMost_trans; eassumption. Qed.

Lemma insertSorted_perm x l :
  Permutation (insertSorted byProfitDesc x l) (x :: l).
Proof.
  induction l as [|y l IH]; cbn; [reflexivity|].
  destruct (positive (byProfitDesc x y)); [|reflexivity].
  rewrite IH. apply perm_swap.
Qed.

Lemma insertSorted_sorted x l :
  isNaN (Opportunity.estProfitUsd x) = false -> profitsAreNumbers l ->
  StronglySorted profitOrder l ->
  StronglySorted profitOrder (insertSorted byProfitDesc x l).
Proof.
  intros Hx Hl. induction 1 as [|y l Hs IH Hy]; cbn.
  - constructor; constructor.
  - apply Forall_cons in Hl. destruct Hl as [Hny Hl].
    destruct (positive (byProfitDesc x y)) eqn:E.
    + apply positive_minus in E. constructor; [now apply IH|].
      apply (Permutation_Forall (Permutation_sym (insertSorted_perm x l))).
      now constructor.
    + apply not_positive_minus in E; [|exact Hx | exact Hny]. constructor.
      * now constructor.
      * constructor; [exact E|].
        eapply List.Forall_impl; [|exact Hy].
        intros z Hz. eapply profitOrder_trans; eassumption.
Qed.

Lemma sort_perm l : Permutation (sort byProfitDesc l) l.
Proof.
  induction l as [|x l IH]; cbn; [reflexivity|].
  rewrite insertSorted_perm. now constructor.
Qed.

Lemma sort_sorted l :
  profitsAreNumbers l -> StronglySorted profitOrder (sort byProfitDesc l).
Proof.
  induction l as [|x l IH]; cbn; intros Hl; [constructor|].
  apply Forall_cons in Hl. destruct Hl as [Hx Hl].
  apply insertSorted_sorted; [exact Hx | | now apply IH].
  unfold profitsAreNumbers. now rewrite (sort_perm l).
Qed.

(** Equal profits keep the order the strategy gave them. *)
Example sort_is_stable :
  map Opportunity.marketId
    (sort byProfitDesc
       [sampleOpportunity "a" 5%Q; sampleOpportunity "b" 10%Q;
        sampleOpportunity "c" 5%Q; sampleOpportunity "d" 10%Q])
  = ["b"; "d"; "a"; "c"].
Proof. reflexivity. Qed.

(** With a NaN profit in the array the comparator orders nothing: every
    comparison with it counts as 0, and 5 stays in front of 10. *)
Example sort_with_NaN :
  map Opportunity.marketId
    (sort byProfitDesc
       [sampleOpportunity "a" 5%Q; sampleOpportunity "b" NaN;
        sampleOpportunity "c" 10%Q])
  = ["a"; "b"; "c"].
Proof. reflexivity. Qed.






(** ** The trading loop *)

Section TradingLoop.

Context {W : Type}.
Variable env : Collaborators W.
Variable config : ArbConfig.

Lemma handleOpportunity_attempted o now st :
  attempted (events (alone (handleOpportunity env o now) st)) = [o].
Proof.
  unfold handleOpportunity, logDecision.
  collaborators_answer; reflexivity.
Qed.



Lemma tradeLoop_cons o rest now st :
  alone (tradeLoop env config (o :: rest) now) st =
    if activeTrades st >=? maxConcurrentTrades config
    then mkRun (Resolved tt) st []
    else
      match alone (handleOpportunity env o now) st with
      | mkRun (Resolved _) st' evs =>
          match alone (tradeLoop env config rest now) st' with
          | mkRun out st'' evs' => mkRun out st'' (evs ++ evs')
          end
      | mkRun (Rejected e) st' evs => mkRun (Rejected e) st' evs
      end.
Proof.
  cbn [tradeLoop alone]. unfold bind at 1. unfold readActiveTrades. cbn [app].
  destruct (activeTrades st >=? maxConcurrentTrades config); [reflexivity|].
  cbn [alone]. unfold bind.
  destruct (alone (handleOpportunity env o now) st) as [[u|e] st' evs]; [|reflexivity].
  destruct (alone (tradeLoop env config rest now) st') as [out st'' evs']. reflexivity.
Qed.




(** At the cap, nothing is attempted and nothing is kept for later. *)
Lemma tradeLoop_at_cap opps now st :
  maxConcurrentTrades config <= activeTrades st ->
  alone (tradeLoop env config opps now) st = mkRun (Resolved tt) st [].
Proof.
  intros H. destruct opps as [|o rest]; [reflexivity|].
  rewrite tradeLoop_cons.
  destruct (Z.geb_spec (activeTrades st) (maxConcurrentTrades config));
    [reflexivity | lia].
Qed.

End TradingLoop.


(** ** What one scan trades *)

Lemma fetch_events_trade_nothing evs :
  Forall fetchEvent evs ->
  attempted evs = [] /\ executed evs = [] /\ activeWrites evs = []
  /\ scanErrors evs = [].
Proof.
  induction 1 as [|ev evs Hev _ IH]; [repeat split|].
  destruct IH as (Ha & He & Hw & Hs).
  destruct ev as [[|] []| | | | | | | | | | | |]; cbn in Hev; try contradiction;
    cbn; auto.
Qed.

Section ScanTrades.

Context {W : Type}.
Variable env : Collaborators W.
Variable config : ArbConfig.

(** Either the scan ends before the trading loop, and then trades nothing,
    or the strategy answered and what the scan trades is what the loop
    trades on the sorted answer. *)
Lemma scanOnce_trades now st :
  (attempted (events (alone (scanOnce env config now) st)) = []
   /\ executed (events (alone (scanOnce env config now) st)) = []
   /\ activeWrites (events (alone (scanOnce env config now) st)) = []
   /\ activeTrades (final (alone (scanOnce env config now) st)) = activeTrades st)
  \/ exists snapshots found w w',
       findOpportunities env snapshots now w = (Resolved found, w')
       /\ attempted (events (alone (scanOnce env config now) st))
          = attempted (events (alone (tradeLoop env config (sort byProfitDesc found) now)
                                 (withWorld st w')))
       /\ executed (events (alone (scanOnce env config now) st))
          = executed (events (alone (tradeLoop env config (sort byProfitDesc found) now)
                                (withWorld st w')))
       /\ activeWrites (events (alone (scanOnce env config now) st))
          = activeWrites (events (alone (tradeLoop env config (sort byProfitDesc found) now)
                                    (withWorld st w')))
       /\ activeTrades (final (alone (scanOnce env config now) st))
          = activeTrades (final (alone (tradeLoop env config (sort byProfitDesc found) now)
                                   (withWorld st w'))).
Proof.
  rewrite scanOnce_run, scanAttempt_run.
  destruct (getActiveMarkets env (world st)) as [[markets|e] w1];
    [|left; repeat split].
  cbv zeta.
  pose proof (fetchSnapshots_events env markets noFailures (withWorld st w1)) as Hev.
  apply fetch_events_trade_nothing in Hev. destruct Hev as (Ha & He & Hw & _).
  destruct (fetchSnapshots env markets noFailures (withWorld st w1))
    as [[fetched|e] st1 evs]; cbn [outcome events final] in *.
  - destruct (findOpportunities env (fst fetched) now w1) as [[found|e] w2] eqn:Hfind.
    + right. exists (fst fetched), found, w1, w2. split; [exact Hfind|].
      destruct (alone (tradeLoop env config (sort byProfitDesc found) now) (withWorld st w2))
        as [[u|e] st2 evs2]; cbn [outcome events final];
        rewrite ?attempted_app, ?executed_app, ?activeWrites_app;
        cbn [attempted executed activeWrites flat_map app];
        rewrite ?attempted_app, ?executed_app, ?activeWrites_app;
        fold (attempted evs) (executed evs) (activeWrites evs);
        fold (attempted evs2) (executed evs2) (activeWrites evs2);
        rewrite Ha, He, Hw; cbn [attempted executed activeWrites flat_map app];
        rewrite ?app_nil_r; repeat split; reflexivity.
    + left. cbn [outcome events final].
      rewrite ?attempted_app, ?executed_app, ?activeWrites_app.
      cbn [attempted executed activeWrites flat_map app].
      rewrite ?attempted_app, ?executed_app, ?activeWrites_app.
      fold (attempted evs) (executed evs) (activeWrites evs).
      rewrite Ha, He, Hw. repeat split; reflexivity.
  - left. cbn [outcome events final].
    rewrite ?attempted_app, ?executed_app, ?activeWrites_app.
    cbn [attempted executed activeWrites flat_map app].
    fold (attempted evs) (executed evs) (activeWrites evs).
    rewrite Ha, He, Hw. repeat split; reflexivity.
Qed.

End ScanTrades.






(** ** The [running] flag through a scan *)

Section RunningScan.

Context {W : Type}.
Variable env : Collaborators W.
Variable config : ArbConfig.

Lemma handleOpportunity_running o now st :
  running (final (alone (handleOpportunity env o now) st)) = running st.
Proof.
  unfold handleOpportunity, logDecision.
  collaborators_answer; reflexivity.
Qed.

Lemma tradeLoop_running opps now : forall st,
  running (final (alone (tradeLoop env config opps now) st)) = running st.
Proof.
  induction opps as [|o rest IH]; intros st; [reflexivity|].
  rewrite tradeLoop_cons.
  destruct (activeTrades st >=? maxConcurrentTrades config); [reflexivity|].
  pose proof (handleOpportunity_running o now st) as Hh.
  destruct (alone (handleOpportunity env o now) st) as [[u|e] st' evs]; cbn [final] in *;
    [|exact Hh].
  specialize (IH st').
  destruct (alone (tradeLoop env config rest now) st') as [out st'' evs'].
  cbn [final] in *. congruence.
Qed.

Lemma scanOnce_running now st :
  running (final (alone (scanOnce env config now) st)) = running st.
Proof.
  rewrite scanOnce_run, scanAttempt_run.
  destruct (getActiveMarkets env (world st)) as [[markets|e] w1]; [|reflexivity].
  cbv zeta.
  destruct (outcome (fetchSnapshots env markets noFailures (withWorld st w1)))
    as [fetched|e]; [|reflexivity].
  destruct (findOpportunities env (fst fetched) now w1) as [[found|e] w2];
    [|reflexivity].
  pose proof (tradeLoop_running (sort byProfitDesc found) now (withWorld st w2)) as Ht.
  destruct (alone (tradeLoop env config (sort byProfitDesc found) now) (withWorld st w2))
    as [[u|e] st2 T]; exact Ht.
Qed.

End RunningScan.

(** ** The admission cap *)

Section AdmissionCap.

Context {W : Type}.
Variable env : Collaborators W.
Variable config : ArbConfig.

Lemma scanOnce_resolves now st : outcome (alone (scanOnce env config now) st) = Resolved tt.
Proof.
  rewrite scanOnce_run.
  destruct (outcome (alone (scanAttempt env config now) st)) as [[]|e] eqn:E;
    [exact E | reflexivity].
Qed.


(** One iteration of the loop of [start], while the engine is running. *)
Lemma scanLoop_cons startedAt later st :
  running st = true ->
  alone (scanLoop env config (startedAt :: later)) st =
    mkRun (outcome (alone (scanLoop env config later)
                      (final (alone (scanOnce env config startedAt) st))))
          (final (alone (scanLoop env config later)
                    (final (alone (scanOnce env config startedAt) st))))
          (events (alone (scanOnce env config startedAt) st)
             ++ events (alone (scanLoop env config later)
                          (final (alone (scanOnce env config startedAt) st)))).
Proof.
  intros Hrun. cbn [scanLoop alone]. unfold bind at 1. unfold readRunning.
  rewrite Hrun. cbn [alone app].
  rewrite (bind_resolved _ _ st tt (scanOnce_resolves startedAt st)).
  unfold pause. cbn [alone]. unfold bind, ret.
  destruct (alone (scanLoop env config later) _) as [out st' evs]. reflexivity.
Qed.

(** Once [running] is false the loop ends. *)
Lemma scanLoop_stopped startedAts st :
  running st = false ->
  alone (scanLoop env config startedAts) st = mkRun (Resolved tt) st [].
Proof.
  intros Hrun. destruct startedAts as [|startedAt later]; [reflexivity|].
  cbn [scanLoop alone]. unfold bind, readRunning. now rewrite Hrun.
Qed.


Lemma start_run startedAts st :
  running st = false ->
  alone (start env config startedAts) st =
    mkRun (outcome (alone (scanLoop env config startedAts)
                      {| running := true; activeTrades := activeTrades st;
                         world := world st |}))
          (final (alone (scanLoop env config startedAts)
                    {| running := true; activeTrades := activeTrades st;
                       world := world st |}))
          (Log INFO EngineStarted
             :: events (alone (scanLoop env config startedAts)
                          {| running := true; activeTrades := activeTrades st;
                             world := world st |})).
Proof.
  intros Hrun. unfold start. cbn [alone]. unfold bind at 1. unfold readRunning.
  rewrite Hrun. cbn [alone app].
  unfold bind, setRunning, info, emit. cbn [app].
  destruct (alone (scanLoop env config startedAts) _) as [out st' evs]. reflexivity.
Qed.

End AdmissionCap.






(** ** Exceptions inside a scan *)


Section ScanErrors.

Context {W : Type}.
Variable env : Collaborators W.
Variable config : ArbConfig.






End ScanErrors.




(** ** The [activeTrades] counter across a scan *)

Section Settling.

Context {W : Type}.
Variable env : Collaborators W.
Variable config : ArbConfig.

(** Neither [onTradeSubmitted] nor the executor ever throws. *)
Hypothesis submitted_returns :
  forall o now w, exists w', onTradeSubmitted env o now w = (Resolved tt, w').
Hypothesis execute_returns :
  forall plan now w, exists result w', execute env plan now w = (Resolved result, w').

Lemma handleOpportunity_restores o now st :
  activeTrades (final (alone (handleOpportunity env o now) st)) = activeTrades st.
Proof.
  unfold handleOpportunity, logDecision.
  repeat
    (run_alone;
     cbn [world withWorld activeTrades running negb outcome final events fst snd
          allowed ok];
     match goal with
     | |- context [onTradeSubmitted env ?o ?n ?w] =>
         destruct (submitted_returns o n w) as [? ->]
     | |- context [execute env ?p ?n ?w] =>
         destruct (execute_returns p n w) as (? & ? & ->)
     | |- context [canExecute env ?o ?n ?w] =>
         destruct (canExecute env o n w) as [[[[|] ?]|?] ?]
     | |- context [ensureGasBalance env ?n ?w] =>
         destruct (ensureGasBalance env n w) as [[[[|]]|?] ?]
     end);
  collaborators_answer; lia.
Qed.

Lemma tradeLoop_restores opps now : forall st,
  activeTrades (final (alone (tradeLoop env config opps now) st)) = activeTrades st.
Proof.
  induction opps as [|o rest IH]; intros st; [reflexivity|].
  rewrite tradeLoop_cons.
  destruct (activeTrades st >=? maxConcurrentTrades config); [reflexivity|].
  pose proof (handleOpportunity_restores o now st) as Hh.
  destruct (alone (handleOpportunity env o now) st) as [[u|e] st' evs]; cbn [final] in *;
    [|exact Hh].
  specialize (IH st').
  destruct (alone (tradeLoop env config rest now) st') as [out st'' evs'].
  cbn [final] in *. congruence.
Qed.

(** As long as the calls made while a trade is in flight return, a scan
    leaves [activeTrades] as it found it; from a fresh engine, at 0. *)
Lemma scanOnce_restores_activeTrades now st :
  activeTrades (final (alone (scanOnce env config now) st)) = activeTrades st.
Proof.
  destruct (scanOnce_trades env config now st)
    as [(_ & _ & _ & Hf) | (snapshots & found & w & w' & _ & _ & _ & _ & Hf)];
    rewrite Hf; [reflexivity|].
  now rewrite tradeLoop_restores.
Qed.

End Settling.

(** C1 fails on the code: the increment of [activeTrades] and its decrement
    are separated by two awaited calls and not protected by
    [try]/[finally].  With an executor that throws, [scanOnce] catches the
    error and resolves, and [activeTrades] is left at 1; with a cap of 1 the
    next scan then attempts nothing. *)
Theorem activeTrades_leaks_when_executor_throws :
  outcome (alone (scanOnce throwingExecutor (sampleConfig 1) 0) (newEngine tt)) = Resolved tt
  /\ activeTrades (final (alone (scanOnce throwingExecutor (sampleConfig 1) 0) (newEngine tt))) = 1
  /\ events (alone (handleOpportunity throwingExecutor O1 0) (newEngine tt))
     = [CanExecute O1 0; EnsureGasBalance 0; ActiveTrades 1; OnTradeSubmitted O1 0;
        Execute (planOf O1) 0]
  /\ scanErrors (events (alone (scanOnce throwingExecutor (sampleConfig 1) 0) (newEngine tt)))
     = ["socket hang up"]
  /\ attempted
       (events
          (alone (scanOnce throwingExecutor (sampleConfig 1) 1000)
             (final (alone (scanOnce throwingExecutor (sampleConfig 1) 0) (newEngine tt)))))
     = [].
Proof. repeat split. Qed.


(** * More of the engine *)

(** ** The shape of a scan *)

Lemma projection_nil {B} (f : Event -> list B) (P : Event -> Prop) evs :
  (forall ev, P ev -> f ev = []) -> Forall P evs -> flat_map f evs = [].
Proof.
  intros Hf. induction 1 as [|ev evs Hev _ IH]; [reflexivity|].
  cbn. now rewrite (Hf ev Hev), IH.
Qed.

(** Case analysis on an event, down to the template of a log line. *)
Ltac event_cases :=
  let ev := fresh "ev" in
  intros ev; destruct ev as [[|] []| | | | | | | | | | | |]; cbn;
  try tauto; try reflexivity.

Section ScanShape.

Context {W : Type}.
Variable env : Collaborators W.
Variable config : ArbConfig.

Lemma handleOpportunity_tradeEvents o now :
  always tradeEvent (alone (handleOpportunity env o now)).
Proof.
  unfold handleOpportunity, logDecision.
  repeat (always_step; try exact I).
Qed.

Lemma tradeLoop_tradeEvents opps now :
  always tradeEvent (alone (tradeLoop env config opps now)).
Proof.
  induction opps as [|o rest IH]; cbn [tradeLoop].
  - apply always_ret.
  - repeat first [ apply handleOpportunity_tradeEvents | exact IH | always_step ].
Qed.

(** A scan lists the markets, fetches, asks the strategy, logs its summary
    and trades, in this order, and stops at the first throw with one
    warning. *)
Lemma scanOnce_shape now st :
  exists F X,
    Forall fetchEvent F
    /\ (X = [] \/ exists e, X = [Log WARN (ScanError (errorMessage e))])
    /\ (events (alone (scanOnce env config now) st) = GetActiveMarkets :: F ++ X
        \/ (exists snapshots,
              events (alone (scanOnce env config now) st)
              = GetActiveMarkets :: F ++ FindOpportunities snapshots now :: X)
        \/ (exists markets w fetched found w' T,
              getActiveMarkets env (world st) = (Resolved markets, w)
              /\ outcome (fetchSnapshots env markets noFailures (withWorld st w))
                 = Resolved fetched
              /\ findOpportunities env (fst fetched) now w = (Resolved found, w')
              /\ T = events (alone (tradeLoop env config (sort byProfitDesc found) now)
                               (withWorld st w'))
              /\ (X = [] <->
                  outcome (alone (tradeLoop env config (sort byProfitDesc found) now)
                             (withWorld st w')) = Resolved tt)
              /\ events (alone (scanOnce env config now) st)
                 = GetActiveMarkets :: F
                     ++ FindOpportunities (fst fetched) now
                     :: Log INFO (summaryLine markets (sort byProfitDesc found)
                                    (snd fetched))
                     :: T ++ X)).
Proof.
  rewrite scanOnce_run, scanAttempt_run.
  destruct (getActiveMarkets env (world st)) as [[markets|e] w1] eqn:Hm.
  2:{ exists [], [Log WARN (ScanError (errorMessage e))].
      split; [constructor|]. split; [right; now exists e|]. left. reflexivity. }
  cbv zeta.
  pose proof (fetchSnapshots_events env markets noFailures (withWorld st w1)) as Hev.
  destruct (fetchSnapshots env markets noFailures (withWorld st w1))
    as [[fetched|e] st1 F] eqn:Hfetch; cbn [outcome events final] in *.
  2:{ exists F, [Log WARN (ScanError (errorMessage e))].
      split; [exact Hev|]. split; [right; now exists e|]. left. reflexivity. }
  destruct (findOpportunities env (fst fetched) now w1) as [[found|e] w2] eqn:Hfind.
  2:{ exists F, [Log WARN (ScanError (errorMessage e))].
      split; [exact Hev|]. split; [right; now exists e|].
      right. left. exists (fst fetched). cbn [outcome events app].
      rewrite <- ?app_assoc. reflexivity. }
  destruct (alone (tradeLoop env config (sort byProfitDesc found) now) (withWorld st w2))
    as [[[]|e] st2 T] eqn:Hloop; cbn [outcome events final].
  - exists F, []. split; [exact Hev|]. split; [now left|].
    right. right. exists markets, w1, fetched, found, w2, T.
    rewrite Hfetch, Hloop. cbn [outcome events].
    split; [reflexivity|]. split; [reflexivity|]. split; [exact Hfind|].
    split; [reflexivity|]. split; [split; reflexivity|].
    now rewrite app_nil_r.
  - exists F, [Log WARN (ScanError (errorMessage e))].
    split; [exact Hev|]. split; [right; now exists e|].
    right. right. exists markets, w1, fetched, found, w2, T.
    rewrite Hfetch, Hloop. cbn [outcome events].
    split; [reflexivity|]. split; [reflexivity|]. split; [exact Hfind|].
    split; [reflexivity|]. split; [split; discriminate|].
    cbn [app]. rewrite <- ?app_assoc. cbn [app]. reflexivity.
Qed.

End ScanShape.

(** Projections vanish on the phases that do not produce their events. *)
Ltac vanishes P H :=
  apply (projection_nil _ P); [event_cases | exact H].

Section ScanCalls.

Context {W : Type}.
Variable env : Collaborators W.
Variable config : ArbConfig.

Lemma scanOnce_listings now st :
  listings (events (alone (scanOnce env config now) st)) = [tt]
  /\ hd_error (events (alone (scanOnce env config now) st)) = Some GetActiveMarkets
  /\ startLines (events (alone (scanOnce env config now) st)) = []
  /\ (strategyCalls (events (alone (scanOnce env config now) st)) = []
      \/ strategyCalls (events (alone (scanOnce env config now) st)) = [now]).
Proof.
  destruct (scanOnce_shape env config now st) as (F & X & HF & HX & Hshape).
  assert (HFl : listings F = []) by vanishes fetchEvent HF.
  assert (HFs : startLines F = []) by vanishes fetchEvent HF.
  assert (HFc : strategyCalls F = []) by vanishes fetchEvent HF.
  assert (HXl : listings X = [] /\ startLines X = [] /\ strategyCalls X = []).
  { destruct HX as [-> | [e ->]]; repeat split. }
  destruct HXl as (HXl & HXs & HXc).
  destruct Hshape as [-> | [[snapshots ->] |
    (markets & w & fetched & found & w' & T & _ & _ & _ & HT & _ & ->)]].
  - unfold listings, startLines, strategyCalls in *.
    cbn [flat_map hd_error app]. rewrite !flat_map_app, HFl, HFs, HFc, HXl, HXs, HXc.
    repeat split. now left.
  - unfold listings, startLines, strategyCalls in *.
    cbn [flat_map hd_error app]. rewrite !flat_map_app. cbn [flat_map app].
    rewrite HFl, HFs, HFc, HXl, HXs, HXc. repeat split. now right.
  - assert (HTe : Forall tradeEvent T).
    { rewrite HT. apply tradeLoop_tradeEvents. }
    assert (HTl : listings T = []) by vanishes tradeEvent HTe.
    assert (HTs : startLines T = []) by vanishes tradeEvent HTe.
    assert (HTc : strategyCalls T = []) by vanishes tradeEvent HTe.
    unfold listings, startLines, strategyCalls in *.
    cbn [flat_map hd_error app]. rewrite !flat_map_app. cbn [flat_map app].
    rewrite !flat_map_app, HFl, HFs, HFc, HXl, HXs, HXc, HTl, HTs, HTc.
    unfold summaryLine. destruct (sort byProfitDesc found); cbn [app];
      repeat split; now right.
Qed.

Lemma scanLoop_listings startedAts : forall st,
  running st = true ->
  listings (events (alone (scanLoop env config startedAts) st)) = map (fun _ => tt) startedAts
  /\ startLines (events (alone (scanLoop env config startedAts) st)) = []
  /\ sublist (strategyCalls (events (alone (scanLoop env config startedAts) st))) startedAts.
Proof.
  induction startedAts as [|startedAt later IH]; intros st Hrun.
  - repeat split. constructor.
  - rewrite (scanLoop_cons env config startedAt later st Hrun).
    cbn [events].
    destruct (scanOnce_listings startedAt st) as (Hl & _ & Hs & Hc).
    destruct (IH (final (alone (scanOnce env config startedAt) st))) as (Hl' & Hs' & Hc').
    { now rewrite scanOnce_running. }
    unfold listings, startLines, strategyCalls in *.
    rewrite !flat_map_app, Hl, Hs, Hl', Hs'. cbn [map app].
    repeat split.
    destruct Hc as [-> | ->]; cbn [app]; now constructor.
Qed.

End ScanCalls.

(** X1. Every scan asks the provider for the market list exactly once, as
    its first action, and the strategy at most once, with the scan's own
    instant; an engine started from fresh logs its start-up line once and
    lists the markets once per scan. *)
Theorem scan_lists_markets_once :
  forall (W : Type) (env : Collaborators W) (config : ArbConfig) (now : Z)
         (st : Engine W) (startedAts : list Z) (w : W),
    listings (events (alone (scanOnce env config now) st)) = [tt]
    /\ hd_error (events (alone (scanOnce env config now) st)) = Some GetActiveMarkets
    /\ (strategyCalls (events (alone (scanOnce env config now) st)) = []
        \/ strategyCalls (events (alone (scanOnce env config now) st)) = [now])
    /\ List.length (listings (events (alone (start env config startedAts) (newEngine w))))
       = List.length startedAts
    /\ startLines (events (alone (start env config startedAts) (newEngine w))) = [tt]
    /\ hd_error (events (alone (start env config startedAts) (newEngine w)))
       = Some (Log INFO EngineStarted)
    /\ sublist (strategyCalls (events (alone (start env config startedAts) (newEngine w))))
               startedAts.
Proof.
  intros W env config now st startedAts w.
  destruct (scanOnce_listings env config now st) as (Hl & Hh & _ & Hc).
  split; [exact Hl|]. split; [exact Hh|]. split; [exact Hc|].
  rewrite (start_run env config startedAts (newEngine w) eq_refl).
  cbn [events hd_error].
  destruct (scanLoop_listings env config startedAts
              {| running := true; activeTrades := activeTrades (newEngine w);
                 world := world (newEngine w) |} eq_refl) as (Hl' & Hs' & Hc').
  unfold listings, startLines, strategyCalls in *. cbn [flat_map app].
  rewrite Hl', Hs'. split; [apply length_map|]. repeat split. exact Hc'.
Qed.



(** ** The [running] flag *)

Section Running.

Context {W : Type}.
Variable env : Collaborators W.
Variable config : ArbConfig.

Lemma scanLoop_running startedAts : forall st,
  running (final (alone (scanLoop env config startedAts) st)) = running st.
Proof.
  induction startedAts as [|startedAt later IH]; intros st; [reflexivity|].
  destruct (running st) eqn:Hrun.
  - rewrite (scanLoop_cons env config startedAt later st Hrun).
    cbn [final]. rewrite IH, scanOnce_running. exact Hrun.
  - rewrite (scanLoop_stopped env config _ st Hrun). exact Hrun.
Qed.

End Running.

(** X2. No scan changes the [running] flag; an engine that has been started
    therefore stays running through its scans, calling [start] on a running
    engine does nothing at all (no log line, no scan, no state change), and
    [stop] clears the flag and touches nothing else. *)
Theorem start_is_idempotent :
  forall (W : Type) (env : Collaborators W) (config : ArbConfig) (now : Z)
         (st : Engine W) (startedAts again : list Z) (w : W),
    running (final (alone (scanOnce env config now) st)) = running st
    /\ running (final (alone (start env config startedAts) (newEngine w))) = true
    /\ alone (start env config again) (final (alone (start env config startedAts) (newEngine w)))
       = mkRun (Resolved tt) (final (alone (start env config startedAts) (newEngine w))) []
    /\ running (final (alone stop st)) = false
    /\ activeTrades (final (alone stop st)) = activeTrades st
    /\ world (final (alone stop st)) = world st
    /\ events (alone stop st) = [].
Proof.
  intros W env config now st startedAts again w.
  split; [apply scanOnce_running|].
  assert (Hrun : running (final (alone (start env config startedAts) (newEngine w))) = true).
  { rewrite (start_run env config startedAts (newEngine w) eq_refl).
    cbn [final]. now rewrite scanLoop_running. }
  split; [exact Hrun|]. split; [|repeat split].
  generalize dependent (final (alone (start env config startedAts) (newEngine w))).
  intros st' Hrun. unfold start. cbn [alone]. unfold bind, readRunning.
  now rewrite Hrun.
Qed.



(** ** The summary line *)

Lemma sort_head_is_best found best rest :
  sort byProfitDesc found = best :: rest ->
  In best found
  /\ (profitsAreNumbers found -> Forall (profitOrder best) found).
Proof.
  intros Hs. pose proof (sort_perm found) as Hp. rewrite Hs in Hp.
  assert (Hin : In best found).
  { eapply Permutation_in; [exact Hp | now left]. }
  split; [exact Hin|]. intros Hnum.
  pose proof (sort_sorted found Hnum) as Hsd. rewrite Hs in Hsd.
  apply (Permutation_Forall Hp).
  apply StronglySorted_inv in Hsd. destruct Hsd as [_ Hrest].
  constructor; [|exact Hrest].
  apply atMost_refl. unfold profitsAreNumbers in Hnum.
  rewrite List.Forall_forall in Hnum. now apply Hnum.
Qed.

Section Summary.

Context {W : Type}.
Variable env : Collaborators W.
Variable config : ArbConfig.

Lemma scanOnce_summaries now st :
  summaries (events (alone (scanOnce env config now) st)) = []
  \/ exists markets w fetched found w',
       getActiveMarkets env (world st) = (Resolved markets, w)
       /\ outcome (fetchSnapshots env markets noFailures (withWorld st w))
          = Resolved fetched
       /\ findOpportunities env (fst fetched) now w = (Resolved found, w')
       /\ summaries (events (alone (scanOnce env config now) st))
          = [summaryLine markets (sort byProfitDesc found) (snd fetched)].
Proof.
  destruct (scanOnce_shape env config now st) as (F & X & HF & HX & Hshape).
  assert (HFs : summaries F = []) by vanishes fetchEvent HF.
  assert (HXs : summaries X = []).
  { destruct HX as [-> | [e ->]]; reflexivity. }
  destruct Hshape as [-> | [[snapshots ->] |
    (markets & w & fetched & found & w' & T & Hm & Hf & Hfind & HT & _ & ->)]].
  - left. unfold summaries in *. cbn [flat_map app].
    now rewrite flat_map_app, HFs, HXs.
  - left. unfold summaries in *. cbn [flat_map app].
    rewrite flat_map_app. cbn [flat_map app]. now rewrite HFs, HXs.
  - right. exists markets, w, fetched, found, w'.
    split; [exact Hm|]. split; [exact Hf|]. split; [exact Hfind|].
    assert (HTe : Forall tradeEvent T).
    { rewrite HT. apply tradeLoop_tradeEvents. }
    assert (HTs : summaries T = []) by vanishes tradeEvent HTe.
    unfold summaries in *. cbn [flat_map app].
    rewrite flat_map_app. cbn [flat_map app]. rewrite flat_map_app, HFs, HTs, HXs.
    unfold summaryLine. destruct (sort byProfitDesc found); reflexivity.
Qed.

End Summary.

(** X3. A scan logs at most one summary line.  A [Found] line reports the
    number of opportunities the strategy returned and, as top, one of them;
    when none of their estimated profits is NaN, no other exceeds the top's.
    A [Scan complete: 0 opportunities] line is logged only when the strategy
    returned none, and reports the number of markets listed.  With an
    estimated profit that is NaN the top need not be the best: of profits
    5, NaN and 10, returned in this order, the top reported is the one
    of 5. *)
Theorem summary_reports_count_and_best :
  forall (W : Type) (env : Collaborators W) (config : ArbConfig) (now : Z)
         (st : Engine W),
    (List.length (summaries (events (alone (scanOnce env config now) st))) <= 1)%nat
    /\ (forall n best f k,
          In (Found n best f k) (summaries (events (alone (scanOnce env config now) st))) ->
          exists snapshots found w w',
            findOpportunities env snapshots now w = (Resolved found, w')
            /\ n = lengthOf found
            /\ In best found
            /\ (profitsAreNumbers found -> Forall (profitOrder best) found))
    /\ (forall n f k,
          In (ScanComplete0 n f k) (summaries (events (alone (scanOnce env config now) st))) ->
          exists markets snapshots w w',
            getActiveMarkets env (world st) = (Resolved markets, w)
            /\ findOpportunities env snapshots now w = (Resolved [], w')
            /\ n = lengthOf markets)
    /\ summaries (events (alone (scanOnce unpricedOpportunity (sampleConfig 5) 0)
                            (newEngine tt)))
       = [Found 3 O2 0 0]
    /\ ~ profitOrder O2 O1.
Proof.
  intros W env config now st.
  assert (Hclosed :
    summaries (events (alone (scanOnce unpricedOpportunity (sampleConfig 5) 0)
                         (newEngine tt)))
    = [Found 3 O2 0 0]
    /\ ~ profitOrder O2 O1).
  { split; [reflexivity|]. unfold profitOrder. cbn. unfold Qle. cbn. lia. }
  destruct (scanOnce_summaries env config now st)
    as [-> | (markets & w & fetched & found & w' & Hm & _ & Hfind & ->)].
  { split; [cbn; lia|]. split; [|split; [|exact Hclosed]]; intros; contradiction. }
  split; [cbn; lia|]. split; [|split; [|exact Hclosed]].
  - intros n best f k [Hin | []].
    unfold summaryLine in Hin.
    destruct (sort byProfitDesc found) as [|first rest] eqn:Hs; [discriminate|].
    injection Hin as <- <- _ _.
    exists (fst fetched), found, w, w'. split; [exact Hfind|].
    destruct (sort_head_is_best found first rest Hs) as [Hi Hb].
    split; [|split; [exact Hi | exact Hb]].
    unfold lengthOf. f_equal. rewrite <- Hs.
    apply Permutation_length, sort_perm.
  - intros n f k [Hin | []].
    unfold summaryLine in Hin.
    destruct (sort byProfitDesc found) as [|first rest] eqn:Hs; [|discriminate].
    injection Hin as <- _ _.
    exists markets, (fst fetched), w, w'. split; [exact Hm|]. split; [|reflexivity].
    pose proof (sort_perm found) as Hp. rewrite Hs in Hp.
    apply Permutation_nil in Hp. now rewrite Hp in Hfind.
Qed.


(** ** Fetch errors that are not recoverable *)






(** ** Warnings and requests of the fetch phase *)

Section FetchLog.

Context {W : Type}.
Variable env : Collaborators W.
Variable config : ArbConfig.

Lemma tokensOf_length markets :
  List.length (tokensOf markets) = (2 * List.length markets)%nat.
Proof.
  unfold tokensOf. induction markets as [|m rest IH]; [reflexivity|].
  cbn [flat_map app List.length]. rewrite IH. lia.
Qed.

Lemma scanOnce_fetchLog now st markets w :
  getActiveMarkets env (world st) = (Resolved markets, w) ->
  recoverable env w markets = true ->
  Permutation (invalidTokenWarnings (events (alone (scanOnce env config now) st)))
              (failedTokens env w markets)
  /\ Permutation (orderBookRequests (events (alone (scanOnce env config now) st)))
                 (tokensOf markets)
  /\ (forall found w',
        findOpportunities env (map (snapshotOf env w) markets) now w
        = (Resolved found, w') ->
        summaries (events (alone (scanOnce env config now) st))
        = [summaryLine markets (sort byProfitDesc found)
             (count env noFailures w markets)]).
Proof.
  intros Hm Hrec.
  rewrite scanOnce_run, scanAttempt_run, Hm. cbv zeta.
  destruct (fetchSnapshots_recoverable env markets noFailures (withWorld st w) Hrec)
    as (F & -> & Hr & Hw & HF).
  cbn [outcome events final fst snd world withWorld] in *.
  assert (HFs : summaries F = []) by vanishes fetchEvent HF.
  destruct (findOpportunities env (map (snapshotOf env w) markets) now w)
    as [[found|e] w2]; cbn [outcome events].
  - pose proof (tradeLoop_tradeEvents env config (sort byProfitDesc found) now
                  (withWorld st w2)) as HT.
    destruct (alone (tradeLoop env config (sort byProfitDesc found) now) (withWorld st w2))
      as [[u|e] st2 T]; cbn [outcome events] in *.
    all: assert (HTw : invalidTokenWarnings T = []) by vanishes tradeEvent HT.
    all: assert (HTr : orderBookRequests T = []) by vanishes tradeEvent HT.
    all: assert (HTs : summaries T = []) by vanishes tradeEvent HT.
    all: unfold invalidTokenWarnings, orderBookRequests, summaries in *.
    all: cbn [flat_map app]; rewrite ?flat_map_app; cbn [flat_map app];
      rewrite ?flat_map_app, HFs, HTw, HTr, HTs.
    all: split; [|split; [|intros found' w' [= <- <-]]].
    all: unfold summaryLine; destruct (sort byProfitDesc found); cbn [flat_map app];
      rewrite ?app_nil_r; first [reflexivity | exact Hw | exact Hr].
  - unfold invalidTokenWarnings, orderBookRequests, summaries in *.
    cbn [flat_map app]. rewrite ?flat_map_app. cbn [flat_map app].
    rewrite ?app_nil_r.
    split; [exact Hw|]. split; [exact Hr | discriminate].
Qed.

End FetchLog.

(** X5. When the market list is obtained and every fetch succeeds or fails
    as not found, the scan requests each token of each market exactly once,
    two requests per market, and logs one [Invalid orderbook token] warning
    per failed side, naming that token and its market; the number of these
    warnings is the [orderbook_failures] figure of the summary. *)
Theorem warnings_match_failed_sides :
  forall (W : Type) (env : Collaborators W) (config : ArbConfig) (now : Z)
         (st : Engine W) (markets : list Market.t) (w : W),
    getActiveMarkets env (world st) = (Resolved markets, w) ->
    recoverable env w markets = true ->
    Permutation (orderBookRequests (events (alone (scanOnce env config now) st)))
                (tokensOf markets)
    /\ List.length (orderBookRequests (events (alone (scanOnce env config now) st)))
       = (2 * List.length markets)%nat
    /\ Permutation (invalidTokenWarnings (events (alone (scanOnce env config now) st)))
                   (failedTokens env w markets)
    /\ lengthOf (invalidTokenWarnings (events (alone (scanOnce env config now) st)))
       = failedSideCount env w markets
    /\ (forall found w',
          findOpportunities env (map (snapshotOf env w) markets) now w
          = (Resolved found, w') ->
          exists line,
            summaries (events (alone (scanOnce env config now) st)) = [line]
            /\ match line with
               | ScanComplete0 _ f _ | Found _ _ f _ =>
                   f = lengthOf (invalidTokenWarnings
                                   (events (alone (scanOnce env config now) st)))
               | _ => False
               end).
Proof.
  intros W env config now st markets w Hm Hrec.
  destruct (scanOnce_fetchLog env config now st markets w Hm Hrec) as (Hw & Hr & Hs).
  assert (Hlen : lengthOf (invalidTokenWarnings
                             (events (alone (scanOnce env config now) st)))
                 = failedSideCount env w markets).
  { rewrite <- failedTokens_length. unfold lengthOf. f_equal.
    apply Permutation_length, Hw. }
  split; [exact Hr|].
  split; [rewrite (Permutation_length Hr); apply tokensOf_length|].
  split; [exact Hw|]. split; [exact Hlen|].
  intros found w' Hfind.
  exists (summaryLine markets (sort byProfitDesc found) (count env noFailures w markets)).
  split; [exact (Hs found w' Hfind)|].
  rewrite Hlen.
  unfold summaryLine. destruct (sort byProfitDesc found); cbn; lia.
Qed.

(** X5 on [M1], [M2] with the order book of [N2] missing. *)
Lemma warnings_match_failed_sides_witness :
  getActiveMarkets missingN2 (world (newEngine tt)) = (Resolved [M1; M2], tt)
  /\ recoverable missingN2 tt [M1; M2] = true
  /\ lengthOf (invalidTokenWarnings
                 (events (alone (scanOnce missingN2 (sampleConfig 5) 0) (newEngine tt))))
     = 1.
Proof.
  split; [reflexivity|]. split; [reflexivity|].
  destruct (warnings_match_failed_sides unit missingN2 (sampleConfig 5) 0
              (newEngine tt) [M1; M2] tt eq_refl eq_refl) as (_ & _ & _ & Hlen & _).
  exact Hlen.
Defined.



(** ** The risk manager's hooks and the executor *)

Lemma inStep_app evs evs' : inStep evs -> inStep evs' -> inStep (evs ++ evs').
Proof.
  unfold inStep, submitted, attempted, executed, settlements, gasChecks.
  intros (H1 & H2 & H3 & H4 & H5 & H6) (H1' & H2' & H3' & H4' & H5' & H6').
  rewrite !flat_map_app, map_app, !length_app.
  repeat split; try lia; now apply sublist_app.
Qed.

Lemma inStep_quiet evs :
  attempted evs = [] -> submitted evs = [] -> executed evs = [] ->
  settlements evs = [] -> gasChecks evs = [] -> inStep evs.
Proof.
  unfold inStep. intros -> -> -> -> ->. cbn. repeat split; try constructor; lia.
Qed.

Section Hooks.

Context {W : Type}.
Variable env : Collaborators W.
Variable config : ArbConfig.

Lemma handleOpportunity_inStep o now st :
  inStep (events (alone (handleOpportunity env o now) st)).
Proof.
  unfold handleOpportunity, logDecision.
  collaborators_answer; unfold inStep; cbn;
    (repeat split; try lia; repeat constructor).
Qed.

Lemma tradeLoop_inStep opps now : forall st,
  inStep (events (alone (tradeLoop env config opps now) st)).
Proof.
  induction opps as [|o rest IH]; intros st.
  - apply inStep_quiet; reflexivity.
  - rewrite tradeLoop_cons.
    destruct (activeTrades st >=? maxConcurrentTrades config);
      [apply inStep_quiet; reflexivity|].
    pose proof (handleOpportunity_inStep o now st) as Hh.
    destruct (alone (handleOpportunity env o now) st) as [[u|e] st' evs]; cbn [events] in *;
      [|exact Hh].
    specialize (IH st').
    destruct (alone (tradeLoop env config rest now) st') as [out st'' evs'].
    cbn [events] in *. now apply inStep_app.
Qed.

Lemma scanOnce_inStep now st : inStep (events (alone (scanOnce env config now) st)).
Proof.
  destruct (scanOnce_shape env config now st) as (F & X & HF & HX & Hshape).
  assert (HFq : inStep F).
  { apply inStep_quiet; vanishes fetchEvent HF. }
  assert (HXq : inStep X).
  { destruct HX as [-> | [e ->]]; apply inStep_quiet; reflexivity. }
  destruct Hshape as [-> | [[snapshots ->] |
    (markets & w & fetched & found & w' & T & _ & _ & _ & HT & _ & ->)]].
  - apply (inStep_app [GetActiveMarkets]); [apply inStep_quiet; reflexivity|].
    now apply inStep_app.
  - apply (inStep_app [GetActiveMarkets]); [apply inStep_quiet; reflexivity|].
    apply inStep_app; [exact HFq|].
    apply (inStep_app [FindOpportunities snapshots now]);
      [apply inStep_quiet; reflexivity | exact HXq].
  - apply (inStep_app [GetActiveMarkets]); [apply inStep_quiet; reflexivity|].
    apply inStep_app; [exact HFq|].
    apply (inStep_app [FindOpportunities (fst fetched) now;
                       Log INFO (summaryLine markets (sort byProfitDesc found)
                                   (snd fetched))]).
    + apply inStep_quiet; unfold summaryLine;
        destruct (sort byProfitDesc found); reflexivity.
    + apply inStep_app; [|exact HXq]. rewrite HT. apply tradeLoop_inStep.
Qed.

End Hooks.

(** X6. Whatever the collaborators do, in every scan the engine announces
    through [onTradeSubmitted] only opportunities it attempted, hands the
    executor only plans of opportunities it announced, in that order, calls
    [onTradeSuccess] or [onTradeFailure] only for announced opportunities
    and no more often than it called the executor, and checks the gas
    balance at most once per attempted opportunity and at least once per
    announced one. *)
Theorem hooks_follow_the_executor :
  forall (W : Type) (env : Collaborators W) (config : ArbConfig) (now : Z)
         (st : Engine W),
    sublist (submitted (events (alone (scanOnce env config now) st)))
            (attempted (events (alone (scanOnce env config now) st)))
    /\ sublist (executed (events (alone (scanOnce env config now) st)))
               (map planOf (submitted (events (alone (scanOnce env config now) st))))
    /\ sublist (settlements (events (alone (scanOnce env config now) st)))
               (submitted (events (alone (scanOnce env config now) st)))
    /\ (List.length (settlements (events (alone (scanOnce env config now) st)))
        <= List.length (executed (events (alone (scanOnce env config now) st))))%nat
    /\ (List.length (submitted (events (alone (scanOnce env config now) st)))
        <= List.length (gasChecks (events (alone (scanOnce env config now) st))))%nat
    /\ (List.length (gasChecks (events (alone (scanOnce env config now) st)))
        <= List.length (attempted (events (alone (scanOnce env config now) st))))%nat.
Proof.
  intros W env config now st. exact (scanOnce_inStep env config now st).
Qed.



(** ** The audit trail *)

Section AuditTrail.

Context {W : Type}.
Variable env : Collaborators W.
Variable config : ArbConfig.

(** [handleOpportunity] appends at most one record, a record of its
    opportunity at [now]; exactly one when it returns and a decision logger
    is configured. *)
Lemma handleOpportunity_records o now st :
  (exists os, sublist os [o]
              /\ Forall2 (recordOf now) os
                         (appended (events (alone (handleOpportunity env o now) st))))
  /\ (decisionLogger env <> None ->
      outcome (alone (handleOpportunity env o now) st) = Resolved tt ->
      Forall2 (recordOf now) [o] (appended (events (alone (handleOpportunity env o now) st))))
  /\ (decisionLogger env = None ->
      appended (events (alone (handleOpportunity env o now) st)) = []).
Proof.
  unfold handleOpportunity, logDecision.
  collaborators_answer; cbn [appended flat_map app].
  all: split; [|split; intros; try congruence; try discriminate;
                  try (repeat constructor; fail); try reflexivity].
  all: first [ exists []; split; [repeat constructor | constructor]
             | exists [o]; split; [repeat constructor | repeat constructor] ].
Qed.

Lemma tradeLoop_records opps now : forall st,
  (exists os, sublist os (attempted (events (alone (tradeLoop env config opps now) st)))
              /\ Forall2 (recordOf now) os
                         (appended (events (alone (tradeLoop env config opps now) st))))
  /\ (decisionLogger env <> None ->
      outcome (alone (tradeLoop env config opps now) st) = Resolved tt ->
      Forall2 (recordOf now)
        (attempted (events (alone (tradeLoop env config opps now) st)))
        (appended (events (alone (tradeLoop env config opps now) st))))
  /\ (decisionLogger env = None ->
      appended (events (alone (tradeLoop env config opps now) st)) = []).
Proof.
  induction opps as [|o rest IH]; intros st.
  - cbn. split; [exists []; split; constructor|]. split; [constructor | reflexivity].
  - rewrite tradeLoop_cons.
    destruct (activeTrades st >=? maxConcurrentTrades config).
    { cbn. split; [exists []; split; constructor|].
      split; [constructor | reflexivity]. }
    destruct (handleOpportunity_records o now st) as ((os & Hsub & Hrec) & Hall & Hnone).
    pose proof (handleOpportunity_attempted env o now st) as Ha.
    destruct (alone (handleOpportunity env o now) st) as [[[]|e] st' evs];
      cbn [events outcome] in *.
    + destruct (IH st') as ((os' & Hsub' & Hrec') & Hall' & Hnone').
      destruct (alone (tradeLoop env config rest now) st') as [out st'' evs'].
      cbn [events outcome] in *.
      unfold attempted, appended in *. rewrite !flat_map_app.
      split; [|split].
      * exists (os ++ os'). split; [|now apply Forall2_app].
        apply sublist_app; [now rewrite Ha | exact Hsub'].
      * intros Hlog Hout. apply Forall2_app; [rewrite Ha|]; auto.
      * intros Hlog. now rewrite Hnone, Hnone'.
    + split; [|split].
      * exists os. split; [now rewrite Ha | exact Hrec].
      * discriminate.
      * exact Hnone.
Qed.

Lemma scanOnce_records now st :
  (exists os, sublist os (attempted (events (alone (scanOnce env config now) st)))
              /\ Forall2 (recordOf now) os
                         (appended (events (alone (scanOnce env config now) st))))
  /\ (decisionLogger env <> None ->
      scanErrors (events (alone (scanOnce env config now) st)) = [] ->
      Forall2 (recordOf now)
        (attempted (events (alone (scanOnce env config now) st)))
        (appended (events (alone (scanOnce env config now) st))))
  /\ (decisionLogger env = None ->
      appended (events (alone (scanOnce env config now) st)) = []).
Proof.
  destruct (scanOnce_shape env config now st) as (F & X & HF & HX & Hshape).
  assert (HFa : attempted F = []) by vanishes fetchEvent HF.
  assert (HFr : appended F = []) by vanishes fetchEvent HF.
  assert (HFe : scanErrors F = []) by vanishes fetchEvent HF.
  assert (HXa : attempted X = [] /\ appended X = []).
  { destruct HX as [-> | [e ->]]; split; reflexivity. }
  destruct HXa as [HXa HXr].
  destruct Hshape as [-> | [[snapshots ->] |
    (markets & w & fetched & found & w' & T & _ & _ & _ & HT & HXT & ->)]].
  - unfold attempted, appended, scanErrors in *. cbn [flat_map app].
    rewrite !flat_map_app, HFa, HFr, HXa, HXr. cbn [app].
    split; [exists []; split; constructor|]. split; [constructor | reflexivity].
  - unfold attempted, appended, scanErrors in *. cbn [flat_map app].
    rewrite !flat_map_app. cbn [flat_map app]. rewrite HFa, HFr, HXa, HXr.
    split; [exists []; split; constructor|]. split; [constructor | reflexivity].
  - assert (HTe : Forall tradeEvent T).
    { rewrite HT. apply tradeLoop_tradeEvents. }
    assert (HTs : scanErrors T = []) by vanishes tradeEvent HTe.
    destruct (tradeLoop_records (sort byProfitDesc found) now (withWorld st w'))
      as (Hsome & Hall & Hnone).
    rewrite <- HT in Hsome, Hall, Hnone.
    assert (Hatt : attempted (GetActiveMarkets :: F
                     ++ FindOpportunities (fst fetched) now
                     :: Log INFO (summaryLine markets (sort byProfitDesc found)
                                    (snd fetched)) :: T ++ X) = attempted T).
    { unfold attempted in *. cbn [flat_map app]. rewrite flat_map_app.
      cbn [flat_map app]. rewrite flat_map_app, HFa, HXa, app_nil_r.
      unfold summaryLine. destruct (sort byProfitDesc found); reflexivity. }
    assert (Happ : appended (GetActiveMarkets :: F
                     ++ FindOpportunities (fst fetched) now
                     :: Log INFO (summaryLine markets (sort byProfitDesc found)
                                    (snd fetched)) :: T ++ X) = appended T).
    { unfold appended in *. cbn [flat_map app]. rewrite flat_map_app.
      cbn [flat_map app]. rewrite flat_map_app, HFr, HXr, app_nil_r.
      unfold summaryLine. destruct (sort byProfitDesc found); reflexivity. }
    assert (Herr : scanErrors (GetActiveMarkets :: F
                     ++ FindOpportunities (fst fetched) now
                     :: Log INFO (summaryLine markets (sort byProfitDesc found)
                                    (snd fetched)) :: T ++ X) = scanErrors X).
    { unfold scanErrors in *. cbn [flat_map app]. rewrite flat_map_app.
      cbn [flat_map app]. rewrite flat_map_app, HFe, HTs.
      unfold summaryLine. destruct (sort byProfitDesc found); reflexivity. }
    rewrite Hatt, Happ, Herr.
    split; [exact Hsome|]. split; [|exact Hnone].
    intros Hlog Herrs. apply Hall; [exact Hlog|]. apply HXT.
    destruct HX as [-> | [e ->]]; [reflexivity | discriminate Herrs].
Qed.

End AuditTrail.

(** X7. Every decision record appended during a scan is the record of an
    opportunity attempted in that scan, stamped with the scan's instant,
    with at most one record per attempted opportunity and in the order of
    the attempts.  When a decision logger is configured and the scan logs no
    [Scan error], every attempted opportunity has exactly one record;
    without a decision logger nothing is appended. *)
Theorem one_record_per_attempted_opportunity :
  forall (W : Type) (env : Collaborators W) (config : ArbConfig) (now : Z)
         (st : Engine W),
    (exists os, sublist os (attempted (events (alone (scanOnce env config now) st)))
                /\ Forall2 (recordOf now) os
                           (appended (events (alone (scanOnce env config now) st))))
    /\ (List.length (appended (events (alone (scanOnce env config now) st)))
        <= List.length (attempted (events (alone (scanOnce env config now) st))))%nat
    /\ (decisionLogger env <> None ->
        scanErrors (events (alone (scanOnce env config now) st)) = [] ->
        Forall2 (recordOf now)
          (attempted (events (alone (scanOnce env config now) st)))
          (appended (events (alone (scanOnce env config now) st))))
    /\ (decisionLogger env = None ->
        appended (events (alone (scanOnce env config now) st)) = []).
Proof.
  intros W env config now st.
  destruct (scanOnce_records env config now st) as ((os & Hsub & Hrec) & Hall & Hnone).
  split; [now exists os|]. split; [|split; [exact Hall | exact Hnone]].
  rewrite <- (Forall2_length _ _ _ Hrec). now apply sublist_length.
Qed.



(** ** How far [activeTrades] can move *)

Section Drift.

Context {W : Type}.
Variable env : Collaborators W.
Variable config : ArbConfig.

Lemma handleOpportunity_drift o now st :
  (outcome (alone (handleOpportunity env o now) st) = Resolved tt ->
   activeTrades (final (alone (handleOpportunity env o now) st)) = activeTrades st)
  /\ activeTrades st <= activeTrades (final (alone (handleOpportunity env o now) st))
     <= activeTrades st + 1
  /\ Forall (fun n => activeTrades st <= n <= activeTrades st + 1)
            (activeWrites (events (alone (handleOpportunity env o now) st))).
Proof.
  unfold handleOpportunity, logDecision.
  collaborators_answer; cbn [activeWrites flat_map app];
    (split; [intros; try discriminate; lia
            | split; [lia | repeat constructor; lia]]).
Qed.

Lemma tradeLoop_drift opps now : forall st,
  (outcome (alone (tradeLoop env config opps now) st) = Resolved tt ->
   activeTrades (final (alone (tradeLoop env config opps now) st)) = activeTrades st)
  /\ activeTrades st <= activeTrades (final (alone (tradeLoop env config opps now) st))
     <= activeTrades st + 1
  /\ Forall (fun n => activeTrades st <= n <= activeTrades st + 1)
            (activeWrites (events (alone (tradeLoop env config opps now) st))).
Proof.
  induction opps as [|o rest IH]; intros st.
  - cbn. split; [reflexivity|]. split; [lia | constructor].
  - rewrite tradeLoop_cons.
    destruct (activeTrades st >=? maxConcurrentTrades config).
    { cbn. split; [reflexivity|]. split; [lia | constructor]. }
    destruct (handleOpportunity_drift o now st) as (Hres & Hfin & Hwr).
    destruct (alone (handleOpportunity env o now) st) as [[[]|e] st' evs];
      cbn [events outcome final] in *.
    + specialize (Hres eq_refl).
      destruct (IH st') as (Hres' & Hfin' & Hwr').
      destruct (alone (tradeLoop env config rest now) st') as [out st'' evs'].
      cbn [events outcome final] in *. rewrite Hres in *.
      split; [exact Hres'|]. split; [exact Hfin'|].
      rewrite activeWrites_app. apply List.Forall_app. now split.
    + split; [discriminate|]. split; [exact Hfin | exact Hwr].
Qed.

Lemma scanOnce_drift now st :
  (scanErrors (events (alone (scanOnce env config now) st)) = [] ->
   activeTrades (final (alone (scanOnce env config now) st)) = activeTrades st)
  /\ activeTrades st <= activeTrades (final (alone (scanOnce env config now) st))
     <= activeTrades st + 1
  /\ Forall (fun n => activeTrades st <= n <= activeTrades st + 1)
            (activeWrites (events (alone (scanOnce env config now) st))).
Proof.
  rewrite scanOnce_run, scanAttempt_run.
  destruct (getActiveMarkets env (world st)) as [[markets|e] w1].
  2:{ cbn. split; [reflexivity|]. split; [lia | constructor]. }
  cbv zeta.
  pose proof (fetchSnapshots_events env markets noFailures (withWorld st w1)) as HF.
  destruct (fetchSnapshots env markets noFailures (withWorld st w1))
    as [[fetched|e] st1 F]; cbn [outcome events final] in *.
  all: assert (HFw : activeWrites F = []) by vanishes fetchEvent HF.
  all: assert (HFe : scanErrors F = []) by vanishes fetchEvent HF.
  2:{ unfold activeWrites in *. cbn [flat_map app withWorld activeTrades].
      rewrite flat_map_app, HFw. cbn.
      split; [reflexivity|]. split; [lia | constructor]. }
  destruct (findOpportunities env (fst fetched) now w1) as [[found|e] w2].
  2:{ cbn [outcome events final]. unfold activeWrites in *.
      cbn [flat_map app withWorld activeTrades].
      rewrite !flat_map_app, HFw. cbn.
      split; [reflexivity|]. split; [lia | constructor]. }
  destruct (tradeLoop_drift (sort byProfitDesc found) now (withWorld st w2))
    as (Hres & Hfin & Hwr).
  pose proof (tradeLoop_tradeEvents env config (sort byProfitDesc found) now
                (withWorld st w2)) as HT.
  cbn [activeTrades withWorld] in Hres, Hfin, Hwr.
  destruct (alone (tradeLoop env config (sort byProfitDesc found) now) (withWorld st w2))
    as [[[]|e] st2 T]; cbn [outcome events final] in *.
  all: assert (HTe : scanErrors T = []) by vanishes tradeEvent HT.
  all: unfold activeWrites, scanErrors in *; cbn [flat_map app];
    rewrite ?flat_map_app; cbn [flat_map app]; rewrite ?flat_map_app, HFw, HFe, ?HTe.
  all: unfold summaryLine; destruct (sort byProfitDesc found); cbn [flat_map app];
    rewrite ?app_nil_r.
  all: split; [intros; try discriminate; auto | split; assumption].
Qed.

Lemma scanLoop_drift startedAts : forall st,
  activeTrades st <= activeTrades (final (alone (scanLoop env config startedAts) st))
  <= activeTrades st + lengthOf startedAts
  /\ Forall (fun n => activeTrades st <= n)
            (activeWrites (events (alone (scanLoop env config startedAts) st))).
Proof.
  induction startedAts as [|startedAt later IH]; intros st.
  - change (alone (scanLoop env config []) st) with (mkRun (Resolved tt) st []).
    cbn [final events]. unfold lengthOf. cbn [List.length Z.of_nat].
    split; [lia | constructor].
  - destruct (running st) eqn:Hrun.
    2:{ rewrite (scanLoop_stopped env config _ st Hrun). cbn [final events].
        unfold lengthOf. split; [lia | constructor]. }
    rewrite (scanLoop_cons env config startedAt later st Hrun).
    cbn [final events].
    destruct (scanOnce_drift startedAt st) as (_ & Hfin & Hwr).
    destruct (IH (final (alone (scanOnce env config startedAt) st))) as (Hfin' & Hwr').
    unfold lengthOf in *. cbn [List.length]. rewrite Nat2Z.inj_succ.
    split; [lia|].
    rewrite activeWrites_app. apply List.Forall_app. split.
    + eapply List.Forall_impl; [|exact Hwr]. cbn beta. intros n Hn. lia.
    + eapply List.Forall_impl; [|exact Hwr']. cbn beta. intros n Hn. lia.
Qed.

End Drift.

(** X8. Whatever the collaborators do, during a scan that no other call
    on the engine interrupts, [activeTrades] never falls below the value it
    had when the scan began and never exceeds it by more than one; the scan
    leaves it at most one higher, and exactly as it found it whenever it
    logs no [Scan error].  For an engine started once from fresh it is
    therefore never negative, and after n scans it is at most n.  Two
    scans that overlap can take it two above where they began: with an
    executor that throws, both increment it and neither decrements it. *)
Theorem activeTrades_drifts_by_at_most_one_per_scan :
  forall (W : Type) (env : Collaborators W) (config : ArbConfig) (now : Z)
         (st : Engine W) (startedAts : list Z) (w : W),
    Forall (fun n => activeTrades st <= n <= activeTrades st + 1)
           (activeWrites (events (alone (scanOnce env config now) st)))
    /\ activeTrades st <= activeTrades (final (alone (scanOnce env config now) st))
       <= activeTrades st + 1
    /\ (scanErrors (events (alone (scanOnce env config now) st)) = [] ->
        activeTrades (final (alone (scanOnce env config now) st)) = activeTrades st)
    /\ Forall (fun n => 0 <= n)
              (activeWrites (events (alone (start env config startedAts) (newEngine w))))
    /\ 0 <= activeTrades (final (alone (start env config startedAts) (newEngine w)))
       <= lengthOf startedAts
    /\ activeWrites
         (history (interleave (inTurn 20)
                     [scanOnce throwingExecutor (sampleConfig 5) 0;
                      scanOnce throwingExecutor (sampleConfig 5) 0] (newEngine tt)))
       = [1; 2].
Proof.
  intros W env config now st startedAts w.
  destruct (scanOnce_drift env config now st) as (Hres & Hfin & Hwr).
  split; [exact Hwr|]. split; [exact Hfin|]. split; [exact Hres|].
  rewrite (start_run env config startedAts (newEngine w) eq_refl).
  cbn [events final activeWrites flat_map app].
  fold (activeWrites
          (events (alone (scanLoop env config startedAts)
                     {| running := true; activeTrades := activeTrades (newEngine w);
                        world := world (newEngine w) |}))).
  destruct (scanLoop_drift env config startedAts
              {| running := true; activeTrades := activeTrades (newEngine w);
                 world := world (newEngine w) |}) as (Hfin' & Hwr').
  cbn [activeTrades newEngine] in Hfin', Hwr' |- *.
  split; [exact Hwr'|]. split; [lia | reflexivity].
Qed.



(** ** What is logged about an opportunity *)

Section SkipLines.

Context {W : Type}.
Variable env : Collaborators W.
Variable config : ArbConfig.

Lemma handleOpportunity_skipLines o now st :
  (skipLines (events (alone (handleOpportunity env o now) st)) = []
   \/ exists lvl rsn,
        skipLines (events (alone (handleOpportunity env o now) st)) = [(lvl, o, rsn)]
        /\ submitted (events (alone (handleOpportunity env o now) st)) = []
        /\ executed (events (alone (handleOpportunity env o now) st)) = []
        /\ Forall (fun r => DecisionRecord.action r = "skip"
                            /\ DecisionRecord.reason r = rsn)
                  (appended (events (alone (handleOpportunity env o now) st)))
        /\ ((lvl = INFO /\ gasChecks (events (alone (handleOpportunity env o now) st)) = [])
            \/ (lvl = WARN /\ rsn = "low_gas"
                /\ gasChecks (events (alone (handleOpportunity env o now) st)) = [now])))
  /\ (List.length (skipLines (events (alone (handleOpportunity env o now) st)))
      + List.length (submitted (events (alone (handleOpportunity env o now) st))) <= 1)%nat
  /\ (outcome (alone (handleOpportunity env o now) st) = Resolved tt ->
      (List.length (skipLines (events (alone (handleOpportunity env o now) st)))
       + List.length (submitted (events (alone (handleOpportunity env o now) st))) = 1)%nat).
Proof.
  unfold handleOpportunity, logDecision.
  collaborators_answer;
    cbn [skipLines submitted executed appended gasChecks flat_map app List.length].
  all: split; [|split; [cbn; lia | intros; try discriminate; cbn; lia]].
  all: first
    [ left; reflexivity
    | right; eexists _, _; split; [reflexivity|];
      split; [reflexivity|]; split; [reflexivity|];
      split; [repeat constructor|];
      first [ left; split; reflexivity
            | right; split; [reflexivity|]; split; reflexivity ] ].
Qed.

Lemma handleOpportunity_logLines o now st :
  logLines (events (alone (handleOpportunity env o now) st))
  = map skipLine (skipLines (events (alone (handleOpportunity env o now) st))).
Proof.
  unfold handleOpportunity, logDecision.
  collaborators_answer; reflexivity.
Qed.

Lemma tradeLoop_skipLines opps now : forall st,
  (List.length (skipLines (events (alone (tradeLoop env config opps now) st)))
   + List.length (submitted (events (alone (tradeLoop env config opps now) st)))
   <= List.length (attempted (events (alone (tradeLoop env config opps now) st))))%nat
  /\ (outcome (alone (tradeLoop env config opps now) st) = Resolved tt ->
      (List.length (skipLines (events (alone (tradeLoop env config opps now) st)))
       + List.length (submitted (events (alone (tradeLoop env config opps now) st)))
       = List.length (attempted (events (alone (tradeLoop env config opps now) st))))%nat).
Proof.
  induction opps as [|o rest IH]; intros st.
  - cbn. split; [lia | reflexivity].
  - rewrite tradeLoop_cons.
    destruct (activeTrades st >=? maxConcurrentTrades config).
    { cbn. split; [lia | reflexivity]. }
    destruct (handleOpportunity_skipLines o now st) as (_ & Hle & Heq).
    pose proof (handleOpportunity_attempted env o now st) as Ha.
    destruct (alone (handleOpportunity env o now) st) as [[[]|e] st' evs];
      cbn [events outcome] in *.
    + specialize (Heq eq_refl). destruct (IH st') as (Hle' & Heq').
      destruct (alone (tradeLoop env config rest now) st') as [out st'' evs'].
      cbn [events outcome] in *.
      unfold skipLines, submitted, attempted in *.
      rewrite !flat_map_app, !length_app, Ha. cbn [List.length].
      split; [lia | intros Hout; specialize (Heq' Hout); lia].
    + rewrite Ha. cbn [List.length]. split; [lia | discriminate].
Qed.

Lemma scanOnce_skipLines now st :
  (List.length (skipLines (events (alone (scanOnce env config now) st)))
   + List.length (submitted (events (alone (scanOnce env config now) st)))
   <= List.length (attempted (events (alone (scanOnce env config now) st))))%nat
  /\ (scanErrors (events (alone (scanOnce env config now) st)) = [] ->
      (List.length (skipLines (events (alone (scanOnce env config now) st)))
       + List.length (submitted (events (alone (scanOnce env config now) st)))
       = List.length (attempted (events (alone (scanOnce env config now) st))))%nat).
Proof.
  destruct (scanOnce_shape env config now st) as (F & X & HF & HX & Hshape).
  assert (HFk : skipLines F = []) by vanishes fetchEvent HF.
  assert (HFs : submitted F = []) by vanishes fetchEvent HF.
  assert (HFa : attempted F = []) by vanishes fetchEvent HF.
  assert (HFe : scanErrors F = []) by vanishes fetchEvent HF.
  assert (HXq : skipLines X = [] /\ submitted X = [] /\ attempted X = []).
  { destruct HX as [-> | [e ->]]; repeat split. }
  destruct HXq as (HXk & HXs & HXa).
  destruct Hshape as [-> | [[snapshots ->] |
    (markets & w & fetched & found & w' & T & _ & _ & _ & HT & HXT & ->)]].
  - unfold skipLines, submitted, attempted in *. cbn [flat_map app].
    rewrite !flat_map_app, HFk, HFs, HFa, HXk, HXs, HXa. cbn.
    split; [lia | reflexivity].
  - unfold skipLines, submitted, attempted in *. cbn [flat_map app].
    rewrite !flat_map_app. cbn [flat_map app].
    rewrite HFk, HFs, HFa, HXk, HXs, HXa. cbn. split; [lia | reflexivity].
  - assert (HTe : Forall tradeEvent T).
    { rewrite HT. apply tradeLoop_tradeEvents. }
    assert (HTs : scanErrors T = []) by vanishes tradeEvent HTe.
    destruct (tradeLoop_skipLines (sort byProfitDesc found) now (withWorld st w'))
      as (Hle & Heq).
    rewrite <- HT in Hle, Heq.
    unfold skipLines, submitted, attempted, scanErrors in *. cbn [flat_map app].
    rewrite !flat_map_app. cbn [flat_map app].
    rewrite !flat_map_app, HFk, HFs, HFa, HFe, HXk, HXs, HXa, HTs, !app_nil_r.
    unfold summaryLine. destruct (sort byProfitDesc found); cbn [app].
    all: split; [exact Hle|]; intros Herr; apply Heq, HXT;
      destruct HX as [-> | [e ->]]; [reflexivity | discriminate Herr].
Qed.

End SkipLines.

(** X9. The only log lines [handleOpportunity] writes are [Skip] lines, and
    it writes one only for an opportunity that admission control turns
    down: one line, at INFO when [canExecute] refuses it and at WARN with
    reason [low_gas] when the gas check fails, carrying the reason that any
    record appended for it carries; for an opportunity it announces through
    [onTradeSubmitted] it logs nothing at all, whatever the executor
    returns.  In a scan that logs no [Scan error] every attempted
    opportunity is either logged as skipped or announced, never both. *)
Theorem only_turned_down_opportunities_are_logged :
  forall (W : Type) (env : Collaborators W) (config : ArbConfig) (now : Z)
         (st : Engine W) (o : Opportunity.t),
    (skipLines (events (alone (handleOpportunity env o now) st)) = []
     \/ exists lvl rsn,
          skipLines (events (alone (handleOpportunity env o now) st)) = [(lvl, o, rsn)]
          /\ submitted (events (alone (handleOpportunity env o now) st)) = []
          /\ executed (events (alone (handleOpportunity env o now) st)) = []
          /\ Forall (fun r => DecisionRecord.action r = "skip"
                              /\ DecisionRecord.reason r = rsn)
                    (appended (events (alone (handleOpportunity env o now) st)))
          /\ ((lvl = INFO /\ gasChecks (events (alone (handleOpportunity env o now) st)) = [])
              \/ (lvl = WARN /\ rsn = "low_gas"
                  /\ gasChecks (events (alone (handleOpportunity env o now) st)) = [now])))
    /\ (submitted (events (alone (handleOpportunity env o now) st)) <> [] ->
        skipLines (events (alone (handleOpportunity env o now) st)) = [])
    /\ logLines (events (alone (handleOpportunity env o now) st))
       = map skipLine (skipLines (events (alone (handleOpportunity env o now) st)))
    /\ (submitted (events (alone (handleOpportunity env o now) st)) <> [] ->
        logLines (events (alone (handleOpportunity env o now) st)) = [])
    /\ (List.length (skipLines (events (alone (scanOnce env config now) st)))
        + List.length (submitted (events (alone (scanOnce env config now) st)))
        <= List.length (attempted (events (alone (scanOnce env config now) st))))%nat
    /\ (scanErrors (events (alone (scanOnce env config now) st)) = [] ->
        (List.length (skipLines (events (alone (scanOnce env config now) st)))
         + List.length (submitted (events (alone (scanOnce env config now) st)))
         = List.length (attempted (events (alone (scanOnce env config now) st))))%nat).
Proof.
  intros W env config now st o.
  destruct (handleOpportunity_skipLines env o now st) as (Hcases & Hle & _).
  destruct (scanOnce_skipLines env config now st) as (Hscan & Hall).
  pose proof (handleOpportunity_logLines env o now st) as Hlog.
  assert (Hnone : submitted (events (alone (handleOpportunity env o now) st)) <> [] ->
                  skipLines (events (alone (handleOpportunity env o now) st)) = []).
  { intros Hsub.
    destruct (skipLines (events (alone (handleOpportunity env o now) st))) as [|l ls];
      [reflexivity|].
    destruct (submitted (events (alone (handleOpportunity env o now) st))) as [|s ss];
      [congruence|].
    cbn in Hle. lia. }
  split; [exact Hcases|]. split; [exact Hnone|]. split; [exact Hlog|].
  split; [|split; [exact Hscan | exact Hall]].
  intros Hsub. now rewrite Hlog, (Hnone Hsub).
Qed.



(** ** Edge cases of a scan *)

Section Edges.

Context {W : Type}.
Variable env : Collaborators W.
Variable config : ArbConfig.

Lemma scanOnce_at_cap now st :
  maxConcurrentTrades config <= activeTrades st ->
  attempted (events (alone (scanOnce env config now) st)) = []
  /\ activeWrites (events (alone (scanOnce env config now) st)) = []
  /\ activeTrades (final (alone (scanOnce env config now) st)) = activeTrades st.
Proof.
  intros Hcap.
  destruct (scanOnce_trades env config now st)
    as [(Ha & _ & Hw & Hf) | (snapshots & found & w & w' & _ & Ha & _ & Hw & Hf)].
  - now rewrite Ha, Hw, Hf.
  - rewrite Ha, Hw, Hf.
    rewrite (tradeLoop_at_cap env config (sort byProfitDesc found) now
               (withWorld st w') Hcap).
    repeat split.
Qed.

Lemma scanLoop_at_cap startedAts : forall st,
  maxConcurrentTrades config <= activeTrades st ->
  attempted (events (alone (scanLoop env config startedAts) st)) = []
  /\ activeWrites (events (alone (scanLoop env config startedAts) st)) = []
  /\ activeTrades (final (alone (scanLoop env config startedAts) st)) = activeTrades st.
Proof.
  induction startedAts as [|startedAt later IH]; intros st Hcap; [repeat split|].
  destruct (running st) eqn:Hrun.
  2:{ rewrite (scanLoop_stopped env config _ st Hrun). repeat split. }
  rewrite (scanLoop_cons env config startedAt later st Hrun).
  cbn [final events].
  destruct (scanOnce_at_cap startedAt st Hcap) as (Ha & Hw & Hf).
  assert (Hcap' : maxConcurrentTrades config
                  <= activeTrades (final (alone (scanOnce env config startedAt) st)))
    by (rewrite Hf; exact Hcap).
  destruct (IH _ Hcap') as (Ha' & Hw' & Hf').
  rewrite attempted_app, activeWrites_app, Ha, Hw, Ha', Hw', Hf', Hf.
  repeat split.
Qed.

(** Without markets the fan-out has no task: whatever the event loop does,
    it returns at once. *)
Lemma fanOutRun_no_markets st turns f :
  fanOutRun env [] st turns f = (f, []).
Proof.
  induction turns as [|[i|i|] later IH]; cbn [fanOutRun]; [reflexivity| | |].
  - cbn [fanOutTurn]. rewrite lookup_nil. exact IH.
  - cbn [fanOutTurn]. rewrite lookup_nil. exact IH.
  - destruct (resumable f); [reflexivity | exact IH].
Qed.

Lemma fetchSnapshots_no_markets c st :
  fetchSnapshots env [] c st = mkRun (Resolved ([], c)) st [].
Proof.
  unfold fetchSnapshots. rewrite fanOutRun_no_markets. reflexivity.
Qed.

Lemma scanOnce_no_markets now st w :
  getActiveMarkets env (world st) = (Resolved [], w) ->
  alone (scanOnce env config now) st =
    match findOpportunities env [] now w with
    | (Resolved found, w') =>
        match alone (tradeLoop env config (sort byProfitDesc found) now) (withWorld st w') with
        | mkRun (Resolved _) st' T =>
            mkRun (Resolved tt) st'
              (GetActiveMarkets :: FindOpportunities [] now
                 :: Log INFO (summaryLine [] (sort byProfitDesc found) noFailures) :: T)
        | mkRun (Rejected e) st' T =>
            mkRun (Resolved tt) st'
              (GetActiveMarkets :: FindOpportunities [] now
                 :: Log INFO (summaryLine [] (sort byProfitDesc found) noFailures)
                 :: T ++ [Log WARN (ScanError (errorMessage e))])
        end
    | (Rejected e, w') =>
        mkRun (Resolved tt) (withWorld st w')
          [GetActiveMarkets; FindOpportunities [] now;
           Log WARN (ScanError (errorMessage e))]
    end.
Proof.
  intros Hm. rewrite scanOnce_run, scanAttempt_run, Hm.
  rewrite fetchSnapshots_no_markets. cbv zeta. cbn [outcome events fst snd app].
  destruct (findOpportunities env [] now w) as [[found|e] w']; [|reflexivity].
  destruct (alone (tradeLoop env config (sort byProfitDesc found) now) (withWorld st w'))
    as [[[]|e] st' T]; reflexivity.
Qed.

End Edges.

(** X10. With an admission cap of zero or less a started engine never
    attempts an opportunity: every scan still lists, fetches, consults the
    strategy and logs, but [canExecute] is never called and [activeTrades]
    is never written. *)
Theorem zero_cap_disables_trading :
  forall (W : Type) (env : Collaborators W) (config : ArbConfig)
         (startedAts : list Z) (w : W),
    maxConcurrentTrades config <= 0 ->
    attempted (events (alone (start env config startedAts) (newEngine w))) = []
    /\ activeWrites (events (alone (start env config startedAts) (newEngine w))) = []
    /\ activeTrades (final (alone (start env config startedAts) (newEngine w))) = 0
    /\ List.length (listings (events (alone (start env config startedAts) (newEngine w))))
       = List.length startedAts.
Proof.
  intros W env config startedAts w Hcap.
  rewrite (start_run env config startedAts (newEngine w) eq_refl).
  cbn [events final].
  destruct (scanLoop_at_cap env config startedAts
              {| running := true; activeTrades := activeTrades (newEngine w);
                 world := world (newEngine w) |} Hcap) as (Ha & Hw & Hf).
  destruct (scanLoop_listings env config startedAts
              {| running := true; activeTrades := activeTrades (newEngine w);
                 world := world (newEngine w) |} eq_refl) as (Hl & _).
  unfold attempted, activeWrites, listings in *. cbn [flat_map app].
  rewrite Ha, Hw, Hf, Hl. repeat split. apply length_map.
Qed.

(** X10 with a cap of zero and two scans. *)
Lemma zero_cap_disables_trading_witness :
  maxConcurrentTrades (sampleConfig 0) <= 0
  /\ attempted (events (alone (start permissive (sampleConfig 0) [0; 1000]) (newEngine tt)))
     = [].
Proof.
  assert (Hcap : maxConcurrentTrades (sampleConfig 0) <= 0) by (cbn; lia).
  split; [exact Hcap|].
  destruct (zero_cap_disables_trading unit permissive (sampleConfig 0) [0; 1000] tt Hcap)
    as (Ha & _).
  exact Ha.
Defined.

(** X11. When the provider lists no market, the scan requests no order book
    and still consults the strategy, with an empty snapshot list; if the
    strategy finds nothing, the scan consists of the listing, the strategy
    call and the summary [Scan complete: 0 opportunities (markets=0,
    orderbook_failures=0, markets_with_missing_orderbooks=0)], and the
    engine is left as it was. *)
Theorem scan_without_markets :
  forall (W : Type) (env : Collaborators W) (config : ArbConfig) (now : Z)
         (st : Engine W) (w : W),
    getActiveMarkets env (world st) = (Resolved [], w) ->
    orderBookRequests (events (alone (scanOnce env config now) st)) = []
    /\ strategyCalls (events (alone (scanOnce env config now) st)) = [now]
    /\ In (FindOpportunities [] now) (events (alone (scanOnce env config now) st))
    /\ (forall w',
          findOpportunities env [] now w = (Resolved [], w') ->
          alone (scanOnce env config now) st
          = mkRun (Resolved tt) (withWorld st w')
              [GetActiveMarkets; FindOpportunities [] now;
               Log INFO (ScanComplete0 0 0 0)]).
Proof.
  intros W env config now st w Hm.
  rewrite (scanOnce_no_markets env config now st w Hm).
  destruct (findOpportunities env [] now w) as [[found|e] w1] eqn:Hfind.
  - pose proof (tradeLoop_tradeEvents env config (sort byProfitDesc found) now
                  (withWorld st w1)) as HT.
    assert (Hnil : found = [] ->
                   alone (tradeLoop env config (sort byProfitDesc found) now) (withWorld st w1)
                   = mkRun (Resolved tt) (withWorld st w1) []).
    { intros ->. reflexivity. }
    destruct (alone (tradeLoop env config (sort byProfitDesc found) now) (withWorld st w1))
      as [[[]|e] st' T]; cbn [events] in *.
    all: assert (HTr : orderBookRequests T = []) by vanishes tradeEvent HT.
    all: assert (HTc : strategyCalls T = []) by vanishes tradeEvent HT.
    all: unfold orderBookRequests, strategyCalls in *; cbn [flat_map app];
      rewrite ?flat_map_app, ?HTr, ?HTc.
    all: unfold summaryLine at 1 2; destruct (sort byProfitDesc found) eqn:Hs;
      cbn [flat_map app].
    all: split; [reflexivity|]; split; [reflexivity|]; split; [right; left; reflexivity|].
    all: intros w' [= -> <-]; specialize (Hnil eq_refl); try discriminate Hs;
      try discriminate Hnil.
    injection Hnil as <- <-. reflexivity.
  - cbn [events]. repeat split; try (right; left; reflexivity). discriminate.
Qed.

(** X11 with a provider that lists no market. *)
Lemma scan_without_markets_witness :
  getActiveMarkets noMarkets (world (newEngine tt)) = (Resolved [], tt)
  /\ alone (scanOnce noMarkets (sampleConfig 5) 0) (newEngine tt)
     = mkRun (Resolved tt) (newEngine tt)
         [GetActiveMarkets; FindOpportunities [] 0; Log INFO (ScanComplete0 0 0 0)].
Proof.
  split; [reflexivity|].
  destruct (scan_without_markets unit noMarkets (sampleConfig 5) 0 (newEngine tt) tt
              eq_refl) as (_ & _ & _ & Hscan).
  exact (Hscan tt eq_refl).
Defined.

